(** * OME-Zarr tile source for OpenSeadragon: a shallow embedding

    This development embeds [src/utils/omeZarrTileSource.js] (the class
    [OmeZarrTileSource]) and proves properties of its tile resolution,
    its FIFO tile cache, its intensity normaliser and its initialisation;
    and the script of [src/views/OpenSeadragonTest.vue], of which it
    proves properties of the strokes, the regions of interest, draw mode
    and the coordinate helpers of the drawing overlay.

    Modelling conventions.
    - A JavaScript number is a [number]: NaN, the two infinities, or a finite
      value carried as a rational.  Arithmetic on finite values is exact:
      the rounding error of IEEE doubles and the sign of zero are not
      modelled.
    - Tile coordinates [level], [x], [y], array shapes and chunk shapes are
      integers ([Z]), as the tile engine and the zarr store provide them.
    - [null] is [None]; an absent option is [JUndefined].
    - The instance fields of the class are the fields of the record
      [OmeZarrTileSource]; methods take the instance explicitly, and the
      methods that mutate it or can throw live in the monad [M].
    - The JS [Map] used as tile cache keeps insertion order, so it is an
      association list in insertion order.
    - What is awaited resolves, rejects, or never settles; an [async]
      function that awaits what never settles stops there for good. *)

From Stdlib Require Import QArith Qabs Qround ZArith Lia Lqa ZifyNat Ascii.
From stdpp Require Import base list strings pretty.

Local Close Scope Q_scope.
Local Open Scope Z_scope.

(** ** JavaScript values *)

Inductive number : Type :=
| NaN
| NegInfinity
| Infinity
| Fin (q : Q).

Inductive jsval : Type :=
| JUndefined
| JNull
| JBool (b : bool)
| JNum (n : number).

Definition num_of_Z (z : Z) : number := Fin (inject_Z z).

(** ToBoolean on numbers: 0 and NaN are falsy. *)
Definition truthy_num (n : number) : bool :=
  match n with
  | NaN => false
  | NegInfinity | Infinity => true
  | Fin q => negb (Qnum q =? 0)
  end.

(** ToBoolean. *)
Definition truthy (v : jsval) : bool :=
  match v with
  | JUndefined | JNull => false
  | JBool b => b
  | JNum n => truthy_num n
  end.

(** [a || b] *)
Definition js_or (a b : jsval) : jsval := if truthy a then a else b.

(** ToNumber, for the values above. *)
Definition to_number (v : jsval) : number :=
  match v with
  | JUndefined => NaN
  | JNull => num_of_Z 0
  | JBool true => num_of_Z 1
  | JBool false => num_of_Z 0
  | JNum n => n
  end.

(** [a < b] on numbers; any comparison with NaN is false. *)
Definition num_lt (a b : number) : bool :=
  match a, b with
  | NaN, _ | _, NaN => false
  | _, NegInfinity => false
  | NegInfinity, _ => true
  | Infinity, _ => false
  | Fin _, Infinity => true
  | Fin p, Fin q => negb (Qle_bool q p)
  end.

Definition num_gt (a b : number) : bool := num_lt b a.

(** [a >= b] on numbers. *)
Definition num_ge (a b : number) : bool :=
  match a, b with
  | NaN, _ | _, NaN => false
  | _, NegInfinity => true
  | Infinity, _ => true
  | NegInfinity, _ => false
  | Fin _, Infinity => false
  | Fin p, Fin q => Qle_bool q p
  end.

Definition Qsign (q : Q) : Z := Z.sgn (Qnum q).

(** [a - b] *)
Definition num_sub (a b : number) : number :=
  match a, b with
  | NaN, _ | _, NaN => NaN
  | Infinity, Infinity | NegInfinity, NegInfinity => NaN
  | Infinity, _ | _, NegInfinity => Infinity
  | NegInfinity, _ | _, Infinity => NegInfinity
  | Fin p, Fin q => Fin (p - q)%Q
  end.

(** The infinity of the given sign; NaN for sign 0. *)
Definition signed_inf (s : Z) : number :=
  match s with
  | Z0 => NaN
  | Zpos _ => Infinity
  | Zneg _ => NegInfinity
  end.

Definition num_sign (a : number) : Z :=
  match a with
  | NaN => 0
  | Infinity => 1
  | NegInfinity => -1
  | Fin q => Qsign q
  end.

(** [a * b] *)
Definition num_mul (a b : number) : number :=
  match a, b with
  | NaN, _ | _, NaN => NaN
  | Fin p, Fin q => Fin (p * q)%Q
  | _, _ => signed_inf (num_sign a * num_sign b)
  end.

(** [a / b].  A finite value divided by zero is taken as divided by +0. *)
Definition num_div (a b : number) : number :=
  match a, b with
  | NaN, _ | _, NaN => NaN
  | Fin p, Fin q =>
      if Qnum q =? 0 then signed_inf (Qsign p) else Fin (p / q)%Q
  | Fin p, _ => num_of_Z 0
  | _, Fin q => signed_inf (num_sign a * (if Qnum q =? 0 then 1 else Qsign q))
  | _, _ => NaN
  end.

(** [Math.min(a, b)] and [Math.max(a, b)]: NaN if either argument is. *)
Definition Math_min (a b : number) : number :=
  match a, b with
  | NaN, _ | _, NaN => NaN
  | _, _ => if num_lt b a then b else a
  end.

Definition Math_max (a b : number) : number :=
  match a, b with
  | NaN, _ | _, NaN => NaN
  | _, _ => if num_lt a b then b else a
  end.

(** [Math.round(a)]: nearest integer, ties towards +Infinity. *)
Definition Math_round (a : number) : number :=
  match a with
  | Fin q => num_of_Z (Qfloor (q + (1 # 2))%Q)
  | _ => a
  end.

(** Storing a number into a [Uint8ClampedArray] (ToUint8Clamp): NaN becomes
    0, the value is clamped to [0, 255] and rounded to the nearest integer,
    ties to even. *)
Definition round_half_even (q : Q) : Z :=
  let f := Qfloor q in
  match ((q - inject_Z f) ?= (1 # 2))%Q with
  | Lt => f
  | Gt => f + 1
  | Eq => if Z.even f then f else f + 1
  end.

Definition toUint8Clamp (a : number) : Z :=
  match a with
  | NaN => 0
  | NegInfinity => 0
  | Infinity => 255
  | Fin q => Z.min 255 (Z.max 0 (round_half_even q))
  end.

(** ** The adapter instance *)

(** The construction options object; an absent key reads as [JUndefined].
    [fixedMin] and [fixedMax] are the keys named by the configuration
    documentation. *)
Record Options : Type := {
  opt_maxCacheSize : jsval;
  opt_autoNormalize : jsval;
  opt_fixedMin : jsval;
  opt_fixedMax : jsval;
}.

(** [options = {}] *)
Definition no_options : Options :=
  {| opt_maxCacheSize := JUndefined; opt_autoNormalize := JUndefined;
     opt_fixedMin := JUndefined; opt_fixedMax := JUndefined |}.

(** A zarr array as far as the adapter reads it: [shape] and [chunks].
    The zarr format gives both the same length. *)
Record ZarrArray : Type := {
  shape : list Z;
  chunks : list Z;
}.

(** An entry of [this.zarrArrays]. *)
Record ZarrLevel : Type := {
  path : string;
  array : ZarrArray;
}.

(** A canvas with the image data put on it: the values assigned to
    [canvas.width] and [canvas.height], and the RGBA bytes of
    [imageData.data]. *)
Record Canvas : Type := {
  width : Z;
  height : Z;
  imageData : list Z;
}.

Record OmeZarrTileSource : Type := {
  zarrUrl : string;
  zarrArrays : list ZarrLevel;
  tileCache : list (string * Canvas);
  maxCacheSize : jsval;
  minValue : option number;
  maxValue : option number;
  autoNormalize : bool;
}.

(** [options.autoNormalize !== false] *)
Definition not_strictly_false (v : jsval) : bool :=
  match v with
  | JBool false => false
  | _ => true
  end.

Definition constructor (url : string) (options : Options) : OmeZarrTileSource :=
  {| zarrUrl := url;
     zarrArrays := [];
     tileCache := [];
     maxCacheSize := js_or (opt_maxCacheSize options) (JNum (num_of_Z 100));
     minValue := None;
     maxValue := None;
     autoNormalize := not_strictly_false (opt_autoNormalize options) |}.

(** ** The tile cache: a JS [Map] in insertion order *)

Section JsMap.
Context {V : Type}.

Definition Map_has (k : string) (m : list (string * V)) : bool :=
  existsb (λ e, String.eqb k e.1) m.

Fixpoint Map_get (k : string) (m : list (string * V)) : option V :=
  match m with
  | [] => None
  | (k', v) :: m' => if String.eqb k k' then Some v else Map_get k m'
  end.

(** [m.keys().next().value]; [undefined] on an empty map. *)
Definition Map_first_key (m : list (string * V)) : option string :=
  match m with
  | [] => None
  | (k, _) :: _ => Some k
  end.

Fixpoint Map_delete (k : string) (m : list (string * V)) : list (string * V) :=
  match m with
  | [] => []
  | (k', v) :: m' => if String.eqb k k' then m' else (k', v) :: Map_delete k m'
  end.

(** [m.set(k, v)]: a present key keeps its place, a new key goes last. *)
Fixpoint Map_set (k : string) (v : V) (m : list (string * V)) : list (string * V) :=
  match m with
  | [] => [(k, v)]
  | (k', v') :: m' =>
      if String.eqb k k' then (k, v) :: m' else (k', v') :: Map_set k v m'
  end.

Definition Map_size (m : list (string * V)) : number :=
  num_of_Z (Z.of_nat (length m)).

Definition Map_keys (m : list (string * V)) : list string := m.*1.
End JsMap.

(** ** Effects: the instance, the calls made, and exceptions *)

(** What [array.get] resolves to: [shape] and [get(y, x)]. *)
Record TileData : Type := {
  data_shape : list Z;
  data_get : nat → nat → number;
}.

(** [context.finish(img)] delivers the image loaded from a canvas' data URL;
    [context.finish(null, null, message)] delivers a failure. *)
Inductive Delivery : Type :=
| Image (src : Canvas)
| Failure (message : string).

Inductive Event : Type :=
| ArrayGet (zarrLevelIndex : Z) (channel : option Z) (rows cols : Z * Z)
| DataToCanvas (actualShape : list Z)
| Finish (d : Delivery).

(** The outcome of a call, or of what is awaited: a value, an exception
    (a rejection) with its message, or, for what is awaited, a promise that
    never settles, after which the function that awaits it never resumes. *)
Inductive Result (A : Type) : Type :=
| Ok (a : A)
| Throw (message : string)
| Pending.
Arguments Ok {A} a.
Arguments Throw {A} message.
Arguments Pending {A}.

Record World : Type := {
  this : OmeZarrTileSource;
  log : list Event;
}.

Definition M (A : Type) : Type := World → World * Result A.

Definition ret {A} (a : A) : M A := λ w, (w, Ok a).

Definition bind {A B} (m : M A) (f : A → M B) : M B :=
  λ w, match m w with
       | (w', Ok a) => f a w'
       | (w', Throw e) => (w', Throw e)
       | (w', Pending) => (w', Pending)
       end.

Definition throw {A} (message : string) : M A := λ w, (w, Throw message).

(** [try { body } catch (error) { handler(error.message) }] *)
Definition try_catch {A} (body : M A) (handler : string → M A) : M A :=
  λ w, match body w with
       | (w', Ok a) => (w', Ok a)
       | (w', Throw e) => handler e w'
       | (w', Pending) => (w', Pending)
       end.

Definition get_this : M OmeZarrTileSource := λ w, (w, Ok (this w)).

Definition modify_this (f : OmeZarrTileSource → OmeZarrTileSource) : M unit :=
  λ w, ({| this := f (this w); log := log w |}, Ok tt).

Definition emit (e : Event) : M unit :=
  λ w, ({| this := this w; log := log w ++ [e] |}, Ok tt).

Declare Scope js_scope.
Delimit Scope js_scope with js.
Notation "'let*' x ':=' m 'in' k" := (bind m (λ x, k))
  (at level 10, x pattern, m at level 100, k at level 200) : js_scope.
Notation "'do' m 'then' k" := (bind m (λ _, k))
  (at level 10, m at level 100, k at level 200) : js_scope.
Local Open Scope js_scope.

(** What the environment decides for one tile request: the outcome of the
    region read (it resolves, rejects, or never settles), whether the
    browser loads the image made from a canvas, and the text of the errors
    the runtime itself raises. *)
Record Env : Type := {
  array_get : Z → option Z → Z * Z → Z * Z → Result TileData;
  image_loads : Canvas → bool;
  type_error : string;
  index_size_error : string;
}.

Definition set_tileCache (c : list (string * Canvas)) (t : OmeZarrTileSource)
  : OmeZarrTileSource :=
  {| zarrUrl := zarrUrl t; zarrArrays := zarrArrays t; tileCache := c;
     maxCacheSize := maxCacheSize t; minValue := minValue t;
     maxValue := maxValue t; autoNormalize := autoNormalize t |}.

Definition set_minValue (v : option number) (t : OmeZarrTileSource)
  : OmeZarrTileSource :=
  {| zarrUrl := zarrUrl t; zarrArrays := zarrArrays t; tileCache := tileCache t;
     maxCacheSize := maxCacheSize t; minValue := v;
     maxValue := maxValue t; autoNormalize := autoNormalize t |}.

Definition set_maxValue (v : option number) (t : OmeZarrTileSource)
  : OmeZarrTileSource :=
  {| zarrUrl := zarrUrl t; zarrArrays := zarrArrays t; tileCache := tileCache t;
     maxCacheSize := maxCacheSize t; minValue := minValue t;
     maxValue := v; autoNormalize := autoNormalize t |}.

Definition set_zarrArrays (l : list ZarrLevel) (t : OmeZarrTileSource)
  : OmeZarrTileSource :=
  {| zarrUrl := zarrUrl t; zarrArrays := l; tileCache := tileCache t;
     maxCacheSize := maxCacheSize t; minValue := minValue t;
     maxValue := maxValue t; autoNormalize := autoNormalize t |}.

(** ** addToCache *)

(** The cache after [addToCache(key, canvas)] on an instance whose
    [maxCacheSize] is [cap] and whose [tileCache] is [cache]. *)
Definition addToCache_map (cap : jsval) (key : string) (canvas : Canvas)
    (cache : list (string * Canvas)) : list (string * Canvas) :=
  let cache :=
    if num_ge (Map_size cache) (to_number cap) then
      match Map_first_key cache with
      | Some firstKey => Map_delete firstKey cache
      | None => cache
      end
    else cache in
  Map_set key canvas cache.

Definition addToCache (key : string) (canvas : Canvas) : M unit :=
  modify_this (λ t,
    set_tileCache (addToCache_map (maxCacheSize t) key canvas (tileCache t)) t).

(** ** dataToCanvas *)

(** [for (let i = 0; i < n; i++) body] over a loop state. *)
Definition for_lt {S : Type} (n : Z) (body : nat → S → S) (s : S) : S :=
  foldl (λ s i, body i s) s (seq 0 (Z.to_nat n)).

Definition is_null {A} (v : option A) : bool :=
  match v with None => true | Some _ => false end.

Definition truthy_opt (v : option number) : bool :=
  match v with Some n => truthy_num n | None => false end.

(** [a || b] where both may be [null]. *)
Definition or_else (a b : option number) : option number :=
  if truthy_opt a then a else b.

(** [a || d] where [d] is a number literal. *)
Definition or_number (a : option number) (d : number) : number :=
  match a with
  | Some n => if truthy_num n then n else d
  | None => d
  end.

(** [ctx.createImageData(width, height)]: throws on a zero dimension,
    otherwise transparent black of [|width| * |height|] pixels. *)
Definition createImageData (env : Env) (width height : Z) : M (list Z) :=
  if (width =? 0) || (height =? 0) then throw (index_size_error env)
  else ret (replicate (Z.to_nat (Z.abs width * Z.abs height * 4)) 0).

(** The scan of lines 262-270. *)
Definition scan_minmax (data : TileData) (actualHeight actualWidth : Z)
  : number * number :=
  for_lt actualHeight (λ y mm,
    for_lt actualWidth (λ x '(min, max),
      let value := data_get data y x in
      let min := if num_lt value min then value else min in
      let max := if num_gt value max then value else max in
      (min, max)) mm)
    (Infinity, NegInfinity).

(** Lines 288-289. *)
Definition normalize_value (rawValue min range : number) : number :=
  let normalizedValue :=
    Math_min (num_of_Z 255)
      (Math_max (num_of_Z 0)
         (num_mul (num_div (num_sub rawValue min) range) (num_of_Z 255))) in
  Math_round normalizedValue.

(** Lines 291-295: four stores into the [Uint8ClampedArray]; a store past
    the end of a typed array does nothing. *)
Definition put_pixel (idx : nat) (value : number) (d : list Z) : list Z :=
  let d := <[idx := toUint8Clamp value]> d in
  let d := <[(idx + 1)%nat := toUint8Clamp value]> d in
  let d := <[(idx + 2)%nat := toUint8Clamp value]> d in
  <[(idx + 3)%nat := toUint8Clamp (num_of_Z 255)]> d.

(** Line 291: [(y * actualWidth + x) * 4]. *)
Definition byte_index (actualWidth : Z) (y x : nat) : nat :=
  Z.to_nat ((Z.of_nat y * actualWidth + Z.of_nat x) * 4).

(** The loop of lines 284-297. *)
Definition paint (data : TileData) (actualHeight actualWidth : Z)
    (min range : number) (d : list Z) : list Z :=
  for_lt actualHeight (λ y d,
    for_lt actualWidth (λ x d,
      let rawValue := data_get data y x in
      let value := normalize_value rawValue min range in
      let idx := byte_index actualWidth y x in
      put_pixel idx value d) d) d.

(** Lines 279-281: the pair and range the loop works with, from the stored
    fields and the local [min], [max]. *)
Definition effective_min (t : OmeZarrTileSource) (min : option number) : number :=
  or_number (or_else (minValue t) min) (num_of_Z 0).

Definition effective_max (t : OmeZarrTileSource) (max : option number) : number :=
  or_number (or_else (maxValue t) max) (num_of_Z 255).

Definition effective_range (min max : number) : number :=
  let d := num_sub max min in
  if truthy_num d then d else num_of_Z 1.

Definition dataToCanvas (env : Env) (data : TileData) (width height : Z)
  : M Canvas :=
  do emit (DataToCanvas (data_shape data)) then
  let* d := createImageData env width height in
  let actualHeight := data_shape data !!! 0%nat in
  let actualWidth := data_shape data !!! 1%nat in
  let* t := get_this in
  let min := minValue t in
  let max := maxValue t in
  let* (min, max) :=
    if autoNormalize t && (is_null min || is_null max) then
      let '(min, max) := scan_minmax data actualHeight actualWidth in
      do (if is_null (minValue t) then modify_this (set_minValue (Some min))
          else ret tt) then
      do (if is_null (maxValue t) then modify_this (set_maxValue (Some max))
          else ret tt) then
      ret (Some min, Some max)
    else ret (min, max) in
  let* t := get_this in
  let min := effective_min t min in
  let max := effective_max t max in
  let range := effective_range min max in
  ret {| width := width; height := height;
         imageData := paint data actualHeight actualWidth min range d |}.

(** ** getTileImage and downloadTileStart *)

Record Tile : Type := {
  level : Z;
  x : Z;
  y : Z;
}.

(** The request context of the tile engine; [tile] may be missing. *)
Record Context : Type := {
  tile : option Tile;
}.

Definition cacheKey (level x y : Z) : string :=
  pretty level +:+ "-" +:+ pretty x +:+ "-" +:+ pretty y.

(** Line 159: [this.zarrArrays.length - 1 - level]. *)
Definition zarrLevelIndex (total level : Z) : Z := total - 1 - level.

Definition invalid_level_message (zarrLevelIndex total : Z) : string :=
  "Invalid zarr level index: " +:+ pretty zarrLevelIndex +:+
  " (total levels: " +:+ pretty total +:+ ")".

(** [await array.get(selection)]: the read is issued, and [getTileImage]
    goes on with what the read settles to, if it settles. *)
Definition await_get (env : Env) (zarrLevelIndex : Z) (channel : option Z)
    (rows cols : Z * Z) : M TileData :=
  do emit (ArrayGet zarrLevelIndex channel rows cols) then
  λ w, (w, array_get env zarrLevelIndex channel rows cols).

(** [img.src = canvas.toDataURL()] with its [onload] and [onerror]
    handlers: exactly one of the two fires. *)
Definition load_image (env : Env) (canvas : Canvas) (onerror : string) : M unit :=
  emit (Finish (if image_loads env canvas then Image canvas else Failure onerror)).

(** [error.message || 'Unknown error'] *)
Definition message_or_unknown (message : string) : string :=
  match message with
  | EmptyString => "Unknown error"
  | _ => message
  end.

Definition getTileImage (env : Env) (context : Context) : M unit :=
  let* (level, x, y) :=
    match tile context with
    | Some t => ret (level t, x t, y t)
    | None => throw (type_error env)
    end in
  let cacheKey := cacheKey level x y in
  try_catch
    (let* t := get_this in
     if Map_has cacheKey (tileCache t) then
       match Map_get cacheKey (tileCache t) with
       | Some canvas => load_image env canvas "Failed to load cached tile"
       | None => throw (type_error env)
       end
     else
       let total := Z.of_nat (length (zarrArrays t)) in
       let zarrLevelIndex := zarrLevelIndex total level in
       if (zarrLevelIndex <? 0) || (zarrLevelIndex >=? total) then
         throw (invalid_level_message zarrLevelIndex total)
       else
         match zarrArrays t !! Z.to_nat zarrLevelIndex with
         | None => throw (type_error env)
         | Some zarrLevel =>
             let array := array zarrLevel in
             let shape := shape array in
             let chunks := chunks array in
             let hasChannels := (length shape =? 3)%nat in
             let tileWidth :=
               if hasChannels then chunks !!! 2%nat else chunks !!! 1%nat in
             let tileHeight :=
               if hasChannels then chunks !!! 1%nat else chunks !!! 0%nat in
             let* tileData :=
               if hasChannels then
                 let channel := 0 in
                 let yStart := y * tileHeight in
                 let xStart := x * tileWidth in
                 let yEnd := Z.min (yStart + tileHeight) (shape !!! 1%nat) in
                 let xEnd := Z.min (xStart + tileWidth) (shape !!! 2%nat) in
                 await_get env zarrLevelIndex (Some channel)
                   (yStart, yEnd) (xStart, xEnd)
               else
                 let yStart := y * tileHeight in
                 let xStart := x * tileWidth in
                 let yEnd := Z.min (yStart + tileHeight) (shape !!! 0%nat) in
                 let xEnd := Z.min (xStart + tileWidth) (shape !!! 1%nat) in
                 await_get env zarrLevelIndex None
                   (yStart, yEnd) (xStart, xEnd) in
             let* canvas := dataToCanvas env tileData tileWidth tileHeight in
             do addToCache cacheKey canvas then
             load_image env canvas "Failed to create image from canvas"
         end)
    (λ message, emit (Finish (Failure (message_or_unknown message)))).

(** The [downloadTileStart] of the tile source object: a rejection of
    [getTileImage] is turned into a failed delivery; while [getTileImage]
    awaits a read that never settles, nothing more happens. *)
Definition downloadTileStart (env : Env) (context : Context) (w : World) : World :=
  match getTileImage env context w with
  | (w', Ok _) => w'
  | (w', Throw message) => (emit (Finish (Failure message)) w').1
  | (w', Pending) => w'
  end.

(** ** Sessions and cache operation sequences *)

(** The deliveries made to request contexts, in order. *)
Definition deliveries (l : list Event) : list Delivery :=
  omap (λ e, match e with Finish d => Some d | _ => None end) l.

(** The region reads issued, in order. *)
Definition region_reads (l : list Event)
  : list (Z * option Z * (Z * Z) * (Z * Z)) :=
  omap (λ e, match e with
             | ArrayGet i c rows cols => Some (i, c, rows, cols)
             | _ => None
             end) l.

(** The shapes of the buffers handed to [dataToCanvas], in order. *)
Definition normalizer_calls (l : list Event) : list (list Z) :=
  omap (λ e, match e with DataToCanvas sh => Some sh | _ => None end) l.

(** An operation on the tile cache: [tileCache.get(key)] (together with
    [has]) or [addToCache(key, canvas)]. *)
Inductive CacheOp : Type :=
| OpGet (key : string)
| OpPut (key : string) (canvas : Canvas).

Definition cache_step (cap : jsval) (cache : list (string * Canvas))
    (op : CacheOp) : list (string * Canvas) :=
  match op with
  | OpGet _ => cache
  | OpPut key canvas => addToCache_map cap key canvas cache
  end.

Definition run_ops (cap : jsval) (ops : list CacheOp)
    (cache : list (string * Canvas)) : list (string * Canvas) :=
  foldl (cache_step cap) cache ops.

Definition is_put (op : CacheOp) : bool :=
  match op with OpPut _ _ => true | OpGet _ => false end.

Definition put_keys (ops : list CacheOp) : list string :=
  omap (λ op, match op with OpPut k _ => Some k | OpGet _ => None end) ops.

(** ** Concrete inputs *)

(** A sample buffer given by its rows of integer samples. *)
Definition data_of_rows (rows : list (list Z)) : TileData :=
  {| data_shape := [Z.of_nat (length rows); Z.of_nat (length (hd [] rows))];
     data_get := λ y x, num_of_Z ((rows !!! y) !!! x) |}.

Definition level_of (p : string) (shape chunks : list Z) : ZarrLevel :=
  {| path := p; array := {| shape := shape; chunks := chunks |} |}.

(** An environment whose region reads all resolve to the same buffer and in
    which every image loads. *)
Definition env_serving (rows : list (list Z)) : Env :=
  {| array_get := λ _ _ _ _, Ok (data_of_rows rows);
     image_loads := λ _, true;
     type_error := "Cannot destructure property 'level' of undefined";
     index_size_error := "The source width or height is 0" |}.

(** An environment whose region reads are all rejected with the given
    message. *)
Definition env_rejecting (message : string) : Env :=
  {| array_get := λ _ _ _ _, Throw message;
     image_loads := λ _, true;
     type_error := "Cannot destructure property 'level' of undefined";
     index_size_error := "The source width or height is 0" |}.

Definition fresh_world (options : Options) (levels : list ZarrLevel) : World :=
  {| this := set_zarrArrays levels (constructor "zarr" options); log := [] |}.

(** Three levels, the finest of shape [3, 1000, 1000] in chunks of
    [1, 256, 256]. *)
Definition pyramid_1000 : list ZarrLevel :=
  [ level_of "0" [3; 1000; 1000] [1; 256; 256];
    level_of "1" [3; 500; 500] [1; 256; 256];
    level_of "2" [3; 250; 250] [1; 256; 256] ].

(** One level of shape [1, 3, 3] in chunks of [1, 2, 2]. *)
Definition pyramid_3 : list ZarrLevel :=
  [ level_of "0" [1; 3; 3] [1; 2; 2] ].

Definition black_pixel : Canvas :=
  {| width := 1; height := 1; imageData := [0; 0; 0; 255] |}.

(** ** The normaliser as functions of the instance and the buffer *)

(** The condition of line 261: the buffer is scanned. *)
Definition scans (t : OmeZarrTileSource) : bool :=
  autoNormalize t && (is_null (minValue t) || is_null (maxValue t)).

(** The local [min], [max] after the block of lines 261-276. *)
Definition local_min_max (t : OmeZarrTileSource) (data : TileData)
  : option number * option number :=
  if scans t then
    let '(min, max) :=
      scan_minmax data (data_shape data !!! 0%nat) (data_shape data !!! 1%nat) in
    (Some min, Some max)
  else (minValue t, maxValue t).

(** The instance after the block of lines 261-276. *)
Definition store_min_max (t : OmeZarrTileSource) (data : TileData)
  : OmeZarrTileSource :=
  if scans t then
    let '(min, max) :=
      scan_minmax data (data_shape data !!! 0%nat) (data_shape data !!! 1%nat) in
    let t1 := if is_null (minValue t) then set_minValue (Some min) t else t in
    if is_null (maxValue t) then set_maxValue (Some max) t1 else t1
  else t.

(** The [min], [max] and [range] of lines 279-281. *)
Definition min_used (t : OmeZarrTileSource) (data : TileData) : number :=
  effective_min (store_min_max t data) (local_min_max t data).1.

Definition max_used (t : OmeZarrTileSource) (data : TileData) : number :=
  effective_max (store_min_max t data) (local_min_max t data).2.

Definition range_used (t : OmeZarrTileSource) (data : TileData) : number :=
  effective_range (min_used t data) (max_used t data).

(** The sample of the buffer that the loop reads at its [k]-th iteration,
    rows of [actualWidth] samples. *)
Definition sample_at (data : TileData) (actualWidth : Z) (k : nat) : number :=
  data_get data (k / Z.to_nat actualWidth)%nat (k mod Z.to_nat actualWidth)%nat.

(** ** The per-sample mapping as the design document words it *)

(** [clamp(v, lo, hi)] *)
Definition clamp (v lo hi : number) : number := Math_min hi (Math_max lo v).

(** [round(clamp((value - min) / (max - min || 1), 0, 1) * 255)] *)
Definition spec_intensity (value min max : number) : number :=
  let range :=
    let d := num_sub max min in if truthy_num d then d else num_of_Z 1 in
  Math_round
    (num_mul
       (clamp (num_div (num_sub value min) range) (num_of_Z 0) (num_of_Z 1))
       (num_of_Z 255)).

(** The raster the design document asks for from a buffer and a pair: as
    many pixels as the buffer has samples, row by row, each
    [(v, v, v, 255)] with [v] the intensity of the sample. *)
Definition spec_raster (data : TileData) (min max : number) : list Z :=
  let h := Z.to_nat (data_shape data !!! 0%nat) in
  let w := Z.to_nat (data_shape data !!! 1%nat) in
  mjoin ((λ y, mjoin ((λ x,
      let v := toUint8Clamp (spec_intensity (data_get data y x) min max) in
      [v; v; v; 255]) <$> seq 0 w)) <$> seq 0 h).

(** The loop of lines 284-297 as one pass over the samples in row-major
    order: the [k]-th sample goes to the bytes [4k .. 4k+3]. *)
Definition writes (f : nat → number) (n : nat) (d : list Z) : list Z :=
  foldl (λ d k, put_pixel (4 * k) (f k) d) d (seq 0 n).

(** A session of the normaliser: the buffers of successive tiles, each with
    the nominal tile size it is rasterised at, handed to [dataToCanvas] one
    after the other on the same instance. *)
Fixpoint dataToCanvas_all (env : Env) (tiles : list (TileData * Z * Z))
    (w : World) : World * list (Result Canvas) :=
  match tiles with
  | [] => (w, [])
  | (data, width, height) :: tiles =>
      let '(w1, r) := dataToCanvas env data width height w in
      let '(w2, rs) := dataToCanvas_all env tiles w1 in
      (w2, r :: rs)
  end.

(** The raster for a buffer when every sample is mapped with the pair
    [(min, max)]: what [dataToCanvas] writes when that pair is in use. *)
Definition raster_with (min max : number) (data : TileData)
    (width height : Z) : list Z :=
  writes
    (λ k, spec_intensity (sample_at data (data_shape data !!! 1%nat) k) min max)
    (Z.to_nat (data_shape data !!! 0%nat) * Z.to_nat (data_shape data !!! 1%nat))
    (replicate (Z.to_nat (Z.abs width * Z.abs height * 4)) 0).

(** Options that ask for the fixed range [0, 1000]. *)
Definition fixed_range_options : Options :=
  {| opt_maxCacheSize := JUndefined; opt_autoNormalize := JUndefined;
     opt_fixedMin := JNum (num_of_Z 0); opt_fixedMax := JNum (num_of_Z 1000) |}.

(** The selection of lines 178-197 for tile [(x, y)] of an array: the
    channel (if the array has a channel axis) and the row and column
    ranges. *)
Definition tile_region (a : ZarrArray) (x y : Z)
  : option Z * (Z * Z) * (Z * Z) :=
  let hasChannels := (length (shape a) =? 3)%nat in
  let tileWidth :=
    if hasChannels then chunks a !!! 2%nat else chunks a !!! 1%nat in
  let tileHeight :=
    if hasChannels then chunks a !!! 1%nat else chunks a !!! 0%nat in
  let levelHeight :=
    if hasChannels then shape a !!! 1%nat else shape a !!! 0%nat in
  let levelWidth :=
    if hasChannels then shape a !!! 2%nat else shape a !!! 1%nat in
  (if hasChannels then Some 0 else None,
   (y * tileHeight, Z.min (y * tileHeight + tileHeight) levelHeight),
   (x * tileWidth, Z.min (x * tileWidth + tileWidth) levelWidth)).

(** The nominal tile size [(tileWidth, tileHeight)] of an array. *)
Definition tile_size (a : ZarrArray) : Z * Z :=
  let hasChannels := (length (shape a) =? 3)%nat in
  (if hasChannels then chunks a !!! 2%nat else chunks a !!! 1%nat,
   if hasChannels then chunks a !!! 1%nat else chunks a !!! 0%nat).

(** A session: tile requests resolved one after the other, each in the
    environment it meets. *)
Definition run_session (requests : list (Env * Context)) (w : World) : World :=
  foldl (λ w r, downloadTileStart r.1 r.2 w) w requests.

(** Every key of the cache is the key of a tile of an existing level. *)
Definition valid_keys (total : Z) (cache : list (string * Canvas)) : Prop :=
  ∀ k, k ∈ Map_keys cache →
    ∃ L x y, k = cacheKey L x y ∧ 0 ≤ L ≤ total - 1.

(** ** Decimal digits *)

Definition is_digit (c : ascii) : bool :=
  match c with
  | "0" | "1" | "2" | "3" | "4" | "5" | "6" | "7" | "8" | "9" => true
  | _ => false
  end%char.

Fixpoint all_digits (s : string) : bool :=
  match s with
  | EmptyString => true
  | String c s => is_digit c && all_digits s
  end.


(** * Further definitions *)

(** The state of the scan: no sample seen so far is below [min] or above
    [max], and each of the two is still the initial infinity or a sample
    seen. *)
Definition scanned (data : TileData) (seen : nat → nat → Prop)
    (mm : number * number) : Prop :=
  (∀ y x, seen y x →
     num_lt (data_get data y x) mm.1 = false ∧
     num_gt (data_get data y x) mm.2 = false) ∧
  (mm.1 = Infinity ∨ ∃ y x, seen y x ∧ mm.1 = data_get data y x) ∧
  (mm.2 = NegInfinity ∨ ∃ y x, seen y x ∧ mm.2 = data_get data y x).


(** The extent [(levelWidth, levelHeight)] of an array, as lines 183-191
    read it from its shape. *)
Definition level_extent (a : ZarrArray) : Z * Z :=
  let hasChannels := (length (shape a) =? 3)%nat in
  (if hasChannels then shape a !!! 2%nat else shape a !!! 1%nat,
   if hasChannels then shape a !!! 1%nat else shape a !!! 0%nat).

(** Pixel [(row, col)] lies in a selection of rows and columns. *)
Definition in_region (region : option Z * (Z * Z) * (Z * Z)) (row col : Z)
  : Prop :=
  let '(_, (yStart, yEnd), (xStart, xEnd)) := region in
  yStart ≤ row < yEnd ∧ xStart ≤ col < xEnd.

(** [Number.MAX_VALUE], the largest finite double.  Finite numbers are
    carried here as exact rationals; a difference of two doubles that does
    not exceed it in size is finite in double arithmetic too. *)
Definition MAX_VALUE : Q := inject_Z (2 ^ 1024 - 2 ^ 971).

(** ** createTileSource *)

(** The geometry fields of the tile source object handed to the tile
    engine; its [getTileUrl] and [downloadTileStart] are the functions of
    those names. *)
Module TileSource.
Record t : Type := {
  height : Z;
  width : Z;
  tileWidth : Z;
  tileHeight : Z;
  tileSize : Z;
  minLevel : Z;
  maxLevel : Z;
}.
End TileSource.

(** Reading [highestRes.array] throws a TypeError when [zarrArrays] is
    empty. *)
Definition createTileSource (env : Env) : M TileSource.t :=
  let* t := get_this in
  match zarrArrays t !! 0%nat with
  | None => throw (type_error env)
  | Some highestRes =>
      let shape := shape (array highestRes) in
      let chunks := chunks (array highestRes) in
      let hasChannels := (length shape =? 3)%nat in
      let height := if hasChannels then shape !!! 1%nat else shape !!! 0%nat in
      let width := if hasChannels then shape !!! 2%nat else shape !!! 1%nat in
      let tileWidth :=
        if hasChannels then chunks !!! 2%nat else chunks !!! 1%nat in
      let tileHeight :=
        if hasChannels then chunks !!! 1%nat else chunks !!! 0%nat in
      ret {| TileSource.height := height;
             TileSource.width := width;
             TileSource.tileWidth := tileWidth;
             TileSource.tileHeight := tileHeight;
             TileSource.tileSize := Z.max tileWidth tileHeight;
             TileSource.minLevel := 0;
             TileSource.maxLevel := Z.of_nat (length (zarrArrays t)) - 1 |}
  end.

(** The placeholder URL [tile://level/x/y]. *)
Definition getTileUrl (level x y : Z) : string :=
  "tile://" +:+ pretty level +:+ "/" +:+ pretty x +:+ "/" +:+ pretty y.

(** ** The outcome of a request that misses the cache *)

(** The canvas [dataToCanvas] makes from a buffer on an instance, at a
    tile size that is not 0. *)
Definition tile_canvas (t : OmeZarrTileSource) (data : TileData)
    (tileWidth tileHeight : Z) : Canvas :=
  {| width := tileWidth; height := tileHeight;
     imageData :=
       paint data (data_shape data !!! 0%nat) (data_shape data !!! 1%nat)
         (min_used t data) (range_used t data)
         (replicate (Z.to_nat (Z.abs tileWidth * Z.abs tileHeight * 4)) 0) |}.

(** The world after a request for tile [(L, x, y)] that misses the cache
    and whose level exists, [zarrLevel] being the level it resolves to. *)
Definition miss_outcome (env : Env) (L x y : Z) (zarrLevel : ZarrLevel)
    (w : World) : World :=
  let total := Z.of_nat (length (zarrArrays (this w))) in
  let '(channel, rows, cols) := tile_region (array zarrLevel) x y in
  let '(tileWidth, tileHeight) := tile_size (array zarrLevel) in
  let read := ArrayGet (total - 1 - L) channel rows cols in
  match array_get env (total - 1 - L) channel rows cols with
  | Throw message =>
      {| this := this w;
         log := log w ++
           [read; Finish (Failure (message_or_unknown message))] |}
  | Pending => {| this := this w; log := log w ++ [read] |}
  | Ok tileData =>
      if decide (tileWidth = 0 ∨ tileHeight = 0) then
        {| this := this w;
           log := log w ++
             [read; DataToCanvas (data_shape tileData);
              Finish (Failure (message_or_unknown (index_size_error env)))] |}
      else
        let t := store_min_max (this w) tileData in
        let canvas := tile_canvas (this w) tileData tileWidth tileHeight in
        {| this :=
             set_tileCache
               (addToCache_map (maxCacheSize t) (cacheKey L x y) canvas
                  (tileCache t)) t;
           log := log w ++
             [read; DataToCanvas (data_shape tileData);
              Finish (if image_loads env canvas then Image canvas
                      else Failure "Failed to create image from canvas")] |}
  end.

(** Tile [(L, x, y)] is asked for by one of the requests. *)
Definition requested (requests : list (Env * Context)) (L x y : Z) : Prop :=
  ∃ env, (env, {| tile := Some {| level := L; x := x; y := y |} |}) ∈ requests.

(** A cache entry that belongs to a requested tile of an existing level and
    has the nominal tile size of that level. *)
Definition entry_of_requested_tile (levels : list ZarrLevel)
    (requests : list (Env * Context)) (e : string * Canvas) : Prop :=
  ∃ L x y zarrLevel,
    e.1 = cacheKey L x y ∧
    requested requests L x y ∧
    0 ≤ L ≤ Z.of_nat (length levels) - 1 ∧
    levels !! Z.to_nat (Z.of_nat (length levels) - 1 - L) = Some zarrLevel ∧
    (width e.2, height e.2) = tile_size (array zarrLevel).

(** ** initialize, createOmeZarrTileSource and getOmeroMetadata *)

(** The parts of the [.zattrs] document that the adapter reads.  A key that
    may be missing is an option; [axes] is kept as the JSON text it holds.
    The [omero] entry is a JSON value, of which the adapter reads the
    truthiness: an object or array is kept as its text.  A document that
    is not an object (a number, a string, [false]) has neither key, and
    reads like an object without them. *)
Module Json.
Inductive Value : Type :=
| Null
| Boolean (b : bool)
| Number (n : number)
| Text (s : string)
| Object (text : string).

(** ToBoolean of a JSON value: [null], [false], 0 and the empty string are
    falsy. *)
Definition truthy (v : Value) : bool :=
  match v with
  | Null => false
  | Boolean b => b
  | Number n => truthy_num n
  | Text EmptyString => false
  | Text (String _ _) => true
  | Object _ => true
  end.

Record Dataset : Type := {
  path : string;
}.
Record Multiscale : Type := {
  datasets : option (list Dataset);
  axes : option string;
}.
Record Metadata : Type := {
  multiscales : option (list Multiscale);
  omero : option Value;
}.
End Json.

(** What [fetch] resolves to: [ok], [status] and the outcome of [json()],
    which is [None] for the JSON value [null]. *)
Record Response : Type := {
  ok : bool;
  status : Z;
  json : Result (option Json.Metadata);
}.

(** The network as [initialize] meets it: [fetch(url)] and
    [openArray({ store })] for the store at a URL. *)
Record Network : Type := {
  fetch : string → Result Response;
  openArray : string → Result ZarrArray;
}.

Inductive NetCall : Type :=
| Fetch (url : string)
| OpenArray (url : string).

(** The instance with the fields that only [initialize] writes, and the
    network calls made so far. *)
Record Adapter : Type := {
  world : World;
  metadata : option Json.Metadata;
  datasets : option (list Json.Dataset);
  axes : option string;
  calls : list NetCall;
}.

Definition MA (A : Type) : Type := Adapter → Adapter * Result A.

Definition retA {A} (a : A) : MA A := λ s, (s, Ok a).

Definition bindA {A B} (m : MA A) (f : A → MA B) : MA B :=
  λ s, match m s with
       | (s', Ok a) => f a s'
       | (s', Throw e) => (s', Throw e)
       | (s', Pending) => (s', Pending)
       end.

Definition throwA {A} (message : string) : MA A := λ s, (s, Throw message).

Definition try_catchA {A} (body : MA A) (handler : string → MA A) : MA A :=
  λ s, match body s with
       | (s', Ok a) => (s', Ok a)
       | (s', Throw e) => handler e s'
       | (s', Pending) => (s', Pending)
       end.

(** A method of the instance run inside [initialize]. *)
Definition liftM {A} (m : M A) : MA A :=
  λ s, let '(w', r) := m (world s) in
       ({| world := w'; metadata := metadata s; datasets := datasets s;
           axes := axes s; calls := calls s |}, r).

Notation "'let+' x ':=' m 'in' k" := (bindA m (λ x, k))
  (at level 10, x pattern, m at level 100, k at level 200) : js_scope.

Definition record_call (c : NetCall) : MA unit :=
  λ s, ({| world := world s; metadata := metadata s; datasets := datasets s;
           axes := axes s; calls := calls s ++ [c] |}, Ok tt).

(** [await fetch(url)] *)
Definition await_fetch (net : Network) (url : string) : MA Response :=
  let+ _ := record_call (Fetch url) in
  λ s, (s, fetch net url).

(** [await openArray({ store })] *)
Definition await_openArray (net : Network) (url : string) : MA ZarrArray :=
  let+ _ := record_call (OpenArray url) in
  λ s, (s, openArray net url).

Definition set_metadata (m : option Json.Metadata) : MA unit :=
  λ s, ({| world := world s; metadata := m; datasets := datasets s;
           axes := axes s; calls := calls s |}, Ok tt).

Definition set_datasets_axes (d : option (list Json.Dataset))
    (a : option string) : MA unit :=
  λ s, ({| world := world s; metadata := metadata s; datasets := d;
           axes := a; calls := calls s |}, Ok tt).

(** [this.zarrArrays.push(level)] *)
Definition push_level (level : ZarrLevel) : M unit :=
  modify_this (λ t, set_zarrArrays (zarrArrays t ++ [level]) t).

(** [for (const x of l) body] *)
Fixpoint for_of {A} (l : list A) (body : A → MA unit) : MA unit :=
  match l with
  | [] => retA tt
  | x :: l => let+ _ := body x in for_of l body
  end.

Definition http_error_message (status : Z) (zattrsUrl : string) : string :=
  "HTTP " +:+ pretty status +:+ ": Failed to fetch .zattrs from " +:+
  zattrsUrl +:+ ". Check if nginx is running and CORS is configured.".

Definition level_error_message (path message : string) : string :=
  "Failed to load zarr array for " +:+ path +:+ ": " +:+ message.

(** Lines 48-71: open one dataset and push its level. *)
Definition load_level (net : Network) (zarrUrl : string)
    (dataset : Json.Dataset) : MA unit :=
  try_catchA
    (let+ zarrArray :=
       await_openArray net (zarrUrl +:+ "/" +:+ Json.path dataset) in
     liftM (push_level {| path := Json.path dataset; array := zarrArray |}))
    (λ message,
       throwA (level_error_message (Json.path dataset) message)).

(** The outer [catch] of [initialize] logs and throws the error again.
    The [scale] of a level is stored by the source but never read, and is
    left out of [ZarrLevel]. *)
Definition initialize (env : Env) (net : Network) : MA TileSource.t :=
  try_catchA
    (let+ t := liftM get_this in
     let zattrsUrl := zarrUrl t +:+ "/.zattrs" in
     let+ response := await_fetch net zattrsUrl in
     if negb (ok response) then
       throwA (http_error_message (status response) zattrsUrl)
     else
       let+ md := (λ s, (s, json response)) in
       let+ _ := set_metadata md in
       match md with
       | None => throwA (type_error env)
       | Some m =>
           match Json.multiscales m with
           | None | Some [] =>
               throwA "Invalid OME-Zarr metadata: missing multiscales"
           | Some (multiscales :: _) =>
               let+ _ := set_datasets_axes (Json.datasets multiscales)
                           (Json.axes multiscales) in
               match Json.datasets multiscales with
               | None => throwA (type_error env)
               | Some ds =>
                   let+ _ := for_of ds (load_level net (zarrUrl t)) in
                   liftM (createTileSource env)
               end
           end
       end)
    (λ error, throwA error).

Definition new_adapter (url : string) (options : Options) : Adapter :=
  {| world := {| this := constructor url options; log := [] |};
     metadata := None; datasets := None; axes := None; calls := [] |}.

(** The factory: construct, initialize, and return the instance. *)
Definition createOmeZarrTileSource (env : Env) (net : Network) (url : string)
    (options : Options) : Adapter * Result unit :=
  match initialize env net (new_adapter url options) with
  | (a, Ok _) => (a, Ok tt)
  | (a, Throw e) => (a, Throw e)
  | (a, Pending) => (a, Pending)
  end.

(** [a || null] for an entry [a] that may be missing: the entry when it is
    there and truthy, and null otherwise. *)
Definition or_null (a : option Json.Value) : option Json.Value :=
  match a with
  | Some v => if Json.truthy v then Some v else None
  | None => None
  end.

(** [this.metadata?.omero || null] *)
Definition getOmeroMetadata (a : Adapter) : option Json.Value :=
  match metadata a with
  | Some m => or_null (Json.omero m)
  | None => None
  end.

(** The level that [initialize] pushes for a dataset and its array. *)
Definition level_for (d : Json.Dataset) (zarrArray : ZarrArray) : ZarrLevel :=
  {| path := Json.path d; array := zarrArray |}.

(** [openArray] resolves for each of the datasets, to the arrays given. *)
Definition all_open (net : Network) (zarrUrl : string)
    (ds : list Json.Dataset) (arrays : list ZarrArray) : Prop :=
  Forall2 (λ d zarrArray,
             openArray net (zarrUrl +:+ "/" +:+ Json.path d) = Ok zarrArray)
    ds arrays.

(** The adapter with further levels pushed and further network calls
    made. *)
Definition with_levels (levels : list ZarrLevel) (cs : list NetCall)
    (a : Adapter) : Adapter :=
  {| world :=
       {| this := set_zarrArrays (zarrArrays (this (world a)) ++ levels)
                    (this (world a));
          log := log (world a) |};
     metadata := metadata a; datasets := datasets a; axes := axes a;
     calls := calls a ++ cs |}.

(** The adapter once the metadata document is read. *)
Definition with_metadata (m : option Json.Metadata)
    (ds : option (list Json.Dataset)) (ax : option string)
    (cs : list NetCall) (a : Adapter) : Adapter :=
  {| world := world a; metadata := m; datasets := ds; axes := ax;
     calls := calls a ++ cs |}.

Definition store_url (zarrUrl : string) (d : Json.Dataset) : string :=
  zarrUrl +:+ "/" +:+ Json.path d.

(** [initialize] stopped before any level was opened: the instance is as it
    was and the only network call is the fetch of [.zattrs]. *)
Definition stopped_before_levels (a a' : Adapter) : Prop :=
  world a' = world a ∧
  calls a' = calls a ++ [Fetch (zarrUrl (this (world a)) +:+ "/.zattrs")].

(** A network that serves one metadata document and the arrays of a list of
    stores. *)
Definition network_serving (zattrsUrl : string) (m : Json.Metadata)
    (stores : list (string * ZarrArray)) : Network :=
  {| fetch := λ url,
       if decide (url = zattrsUrl)
       then Ok {| ok := true; status := 200; json := Ok (Some m) |}
       else Ok {| ok := false; status := 404; json := Throw "not JSON" |};
     openArray := λ url,
       match Map_get url stores with
       | Some zarrArray => Ok zarrArray
       | None => Throw "store not found"
       end |}.

Definition metadata_of (paths : list string) (omero : option Json.Value)
    : Json.Metadata :=
  {| Json.multiscales :=
       Some [ {| Json.datasets := Some (Json.Build_Dataset <$> paths);
                 Json.axes := Some "cyx" |} ];
     Json.omero := omero |}.

Definition array_of (shape chunks : list Z) : ZarrArray :=
  {| shape := shape; chunks := chunks |}.

(** A store of two levels under [zarr], listed finest first. *)
Definition two_level_arrays : list ZarrArray :=
  [ array_of [3; 1000; 1000] [1; 256; 256];
    array_of [3; 500; 500] [1; 256; 256] ].

Definition two_level_net : Network :=
  network_serving "zarr/.zattrs" (metadata_of ["0"; "1"] (Some (Json.Object "channels")))
    [ ("zarr/0", array_of [3; 1000; 1000] [1; 256; 256]);
      ("zarr/1", array_of [3; 500; 500] [1; 256; 256]) ].

(** A document with three levels over a store whose second level is
    missing. *)
Definition broken_level_net : Network :=
  network_serving "zarr/.zattrs" (metadata_of ["0"; "1"; "2"] None)
    [ ("zarr/0", array_of [3; 1000; 1000] [1; 256; 256]);
      ("zarr/2", array_of [3; 250; 250] [1; 256; 256]) ].

(** A document whose [omero] entry is [false], over a store whose only
    level is missing. *)
Definition falsy_omero_net : Network :=
  network_serving "zarr/.zattrs"
    (metadata_of ["0"] (Some (Json.Boolean false))) [].

(** An environment whose region reads never settle. *)
Definition env_hanging : Env :=
  {| array_get := λ _ _ _ _, Pending;
     image_loads := λ _, true;
     type_error := "Cannot destructure property 'level' of undefined";
     index_size_error := "The source width or height is 0" |}.

(** * The viewer component: src/views/OpenSeadragonTest.vue

    The script of the component keeps the drawn strokes, the regions of
    interest and the form that adds them, and the two canvas overlays.  Its
    functions are embedded as functions on the state of the component.
    - The painting of a canvas is an effect: a call of [redraw] of the
      drawing overlay is logged as [Redraw], a call of [setRois] of the ROI
      overlay, which repaints, as [SetRois] with the list it is given, and
      [alert] as [Alert].  Console output and the styling of the DOM other
      than [pointerEvents] and [cursor] are left out.
    - A pointer or mouse handler takes the image point that the viewport of
      the viewer gives for the position of its event.
    - A field of the form bound with [v-model.number] holds a number, or the
      empty string of a blank input. *)

(** [Math.abs] *)
Definition Math_abs (a : number) : number :=
  match a with
  | NaN => NaN
  | NegInfinity | Infinity => Infinity
  | Fin q => Fin (Qabs q)
  end.

(** [Math.floor] *)
Definition Math_floor (a : number) : number :=
  match a with
  | Fin q => Fin (inject_Z (Qfloor q))
  | _ => a
  end.

Inductive field : Type :=
| Blank
| Num (n : number).

(** ToBoolean of a form field: the empty string is falsy. *)
Definition truthy_field (v : field) : bool :=
  match v with
  | Blank => false
  | Num n => truthy_num n
  end.

Module Point.
Record t : Type := {
  x : number;
  y : number;
}.
End Point.

Module Stroke.
Record t : Type := {
  points : list Point.t;
  color : string;
  lineWidth : number;
}.
End Stroke.

Module Roi.
Record t : Type := {
  x : field;
  y : field;
  width : field;
  height : field;
  label : string;
  color : string;
}.
End Roi.

Module NewRoi.
Record t : Type := {
  x : field;
  y : field;
  width : field;
  height : field;
  label : string;
}.
End NewRoi.

Module MouseCoords.
Record t : Type := {
  x : option number;
  y : option number;
}.
End MouseCoords.

Inductive Effect : Type :=
| Alert (message : string)
| Redraw
| SetRois (rois : list Roi.t)
| Uncaught (message : string).

(** The variables in the closure of [createDrawingOverlay], and the two
    style properties of its canvas that [setDrawMode] writes. *)
Record DrawingOverlay : Type := {
  liveStroke : option Stroke.t;
  isPointerDown : bool;
  pointerEvents : string;
  cursor : string;
}.

(** The state of the component.  [roiOverlay] and [drawingOverlay] are null
    until the image opens; [mouseNavEnabled] is the flag of the viewer that
    [setMouseNavEnabled] writes. *)
Record Component : Type := {
  strokes : list Stroke.t;
  drawMode : bool;
  drawColor : string;
  drawLineWidth : number;
  drawingOverlay : option DrawingOverlay;
  mouseCoords : MouseCoords.t;
  roiList : list Roi.t;
  newRoi : NewRoi.t;
  roiOverlay : bool;
  mouseNavEnabled : bool;
  effects : list Effect;
}.

Definition ROI_COLORS : list string :=
  ["#FF4444"; "#44BBFF"; "#44FF88"; "#FFCC00"; "#FF44FF"; "#FF8800"].

(** The state when the script has run and nothing is open yet. *)
Definition setup : Component :=
  {| strokes := [];
     drawMode := false;
     drawColor := "#FF4444";
     drawLineWidth := num_of_Z 3;
     drawingOverlay := None;
     mouseCoords := {| MouseCoords.x := None; MouseCoords.y := None |};
     roiList := [];
     newRoi := {| NewRoi.x := Num (num_of_Z 0); NewRoi.y := Num (num_of_Z 0);
                  NewRoi.width := Num (num_of_Z 100);
                  NewRoi.height := Num (num_of_Z 100);
                  NewRoi.label := EmptyString |};
     roiOverlay := false;
     mouseNavEnabled := true;
     effects := [] |}.

Definition set_strokes (l : list Stroke.t) (s : Component) : Component :=
  {| strokes := l; drawMode := drawMode s; drawColor := drawColor s;
     drawLineWidth := drawLineWidth s; drawingOverlay := drawingOverlay s;
     mouseCoords := mouseCoords s; roiList := roiList s; newRoi := newRoi s;
     roiOverlay := roiOverlay s; mouseNavEnabled := mouseNavEnabled s;
     effects := effects s |}.

Definition set_drawMode (b : bool) (s : Component) : Component :=
  {| strokes := strokes s; drawMode := b; drawColor := drawColor s;
     drawLineWidth := drawLineWidth s; drawingOverlay := drawingOverlay s;
     mouseCoords := mouseCoords s; roiList := roiList s; newRoi := newRoi s;
     roiOverlay := roiOverlay s; mouseNavEnabled := mouseNavEnabled s;
     effects := effects s |}.

Definition set_drawColor (c : string) (s : Component) : Component :=
  {| strokes := strokes s; drawMode := drawMode s; drawColor := c;
     drawLineWidth := drawLineWidth s; drawingOverlay := drawingOverlay s;
     mouseCoords := mouseCoords s; roiList := roiList s; newRoi := newRoi s;
     roiOverlay := roiOverlay s; mouseNavEnabled := mouseNavEnabled s;
     effects := effects s |}.

Definition set_drawLineWidth (n : number) (s : Component) : Component :=
  {| strokes := strokes s; drawMode := drawMode s; drawColor := drawColor s;
     drawLineWidth := n; drawingOverlay := drawingOverlay s;
     mouseCoords := mouseCoords s; roiList := roiList s; newRoi := newRoi s;
     roiOverlay := roiOverlay s; mouseNavEnabled := mouseNavEnabled s;
     effects := effects s |}.

Definition set_drawingOverlay (o : option DrawingOverlay) (s : Component)
    : Component :=
  {| strokes := strokes s; drawMode := drawMode s; drawColor := drawColor s;
     drawLineWidth := drawLineWidth s; drawingOverlay := o;
     mouseCoords := mouseCoords s; roiList := roiList s; newRoi := newRoi s;
     roiOverlay := roiOverlay s; mouseNavEnabled := mouseNavEnabled s;
     effects := effects s |}.

Definition set_mouseCoords (m : MouseCoords.t) (s : Component) : Component :=
  {| strokes := strokes s; drawMode := drawMode s; drawColor := drawColor s;
     drawLineWidth := drawLineWidth s; drawingOverlay := drawingOverlay s;
     mouseCoords := m; roiList := roiList s; newRoi := newRoi s;
     roiOverlay := roiOverlay s; mouseNavEnabled := mouseNavEnabled s;
     effects := effects s |}.

Definition set_roiList (l : list Roi.t) (s : Component) : Component :=
  {| strokes := strokes s; drawMode := drawMode s; drawColor := drawColor s;
     drawLineWidth := drawLineWidth s; drawingOverlay := drawingOverlay s;
     mouseCoords := mouseCoords s; roiList := l; newRoi := newRoi s;
     roiOverlay := roiOverlay s; mouseNavEnabled := mouseNavEnabled s;
     effects := effects s |}.

Definition set_newRoi (f : NewRoi.t) (s : Component) : Component :=
  {| strokes := strokes s; drawMode := drawMode s; drawColor := drawColor s;
     drawLineWidth := drawLineWidth s; drawingOverlay := drawingOverlay s;
     mouseCoords := mouseCoords s; roiList := roiList s; newRoi := f;
     roiOverlay := roiOverlay s; mouseNavEnabled := mouseNavEnabled s;
     effects := effects s |}.

Definition set_roiOverlay (b : bool) (s : Component) : Component :=
  {| strokes := strokes s; drawMode := drawMode s; drawColor := drawColor s;
     drawLineWidth := drawLineWidth s; drawingOverlay := drawingOverlay s;
     mouseCoords := mouseCoords s; roiList := roiList s; newRoi := newRoi s;
     roiOverlay := b; mouseNavEnabled := mouseNavEnabled s;
     effects := effects s |}.

Definition set_mouseNavEnabled (b : bool) (s : Component) : Component :=
  {| strokes := strokes s; drawMode := drawMode s; drawColor := drawColor s;
     drawLineWidth := drawLineWidth s; drawingOverlay := drawingOverlay s;
     mouseCoords := mouseCoords s; roiList := roiList s; newRoi := newRoi s;
     roiOverlay := roiOverlay s; mouseNavEnabled := b;
     effects := effects s |}.

Definition effect (e : Effect) (s : Component) : Component :=
  {| strokes := strokes s; drawMode := drawMode s; drawColor := drawColor s;
     drawLineWidth := drawLineWidth s; drawingOverlay := drawingOverlay s;
     mouseCoords := mouseCoords s; roiList := roiList s; newRoi := newRoi s;
     roiOverlay := roiOverlay s; mouseNavEnabled := mouseNavEnabled s;
     effects := effects s ++ [e] |}.

Definition set_liveStroke (l : option Stroke.t) (o : DrawingOverlay)
    : DrawingOverlay :=
  {| liveStroke := l; isPointerDown := isPointerDown o;
     pointerEvents := pointerEvents o; cursor := cursor o |}.

Definition set_isPointerDown (b : bool) (o : DrawingOverlay)
    : DrawingOverlay :=
  {| liveStroke := liveStroke o; isPointerDown := b;
     pointerEvents := pointerEvents o; cursor := cursor o |}.

(** ** The drawing overlay *)

(** [drawingOverlay.redraw()] *)
Definition redraw : Component → Component := effect Redraw.

(** [if (drawingOverlay) drawingOverlay.redraw()] *)
Definition redraw_if_overlay (s : Component) : Component :=
  match drawingOverlay s with
  | Some _ => redraw s
  | None => s
  end.

(** [setDrawMode(active)] of the overlay [o]: what it writes on the
    canvas of the overlay, and then on the viewer. *)
Definition setDrawMode_overlay (active : bool) (o : DrawingOverlay)
    : DrawingOverlay :=
  {| liveStroke := liveStroke o;
     isPointerDown := isPointerDown o;
     pointerEvents := if active then "auto" else "none";
     cursor := if active then "crosshair" else "default" |}.

Definition setDrawMode (active : bool) (o : DrawingOverlay) (s : Component)
    : Component :=
  set_mouseNavEnabled (negb active)
    (set_drawingOverlay (Some (setDrawMode_overlay active o)) s).

Definition toggleDrawMode (s : Component) : Component :=
  let s := set_drawMode (negb (drawMode s)) s in
  match drawingOverlay s with
  | Some o => setDrawMode (drawMode s) o s
  | None => s
  end.

(** [strokes.value.slice(0, -1)] *)
Definition undoLastStroke (s : Component) : Component :=
  if (length (strokes s) =? 0)%nat then s
  else
    redraw_if_overlay
      (set_strokes (take (length (strokes s) - 1) (strokes s)) s).

Definition clearAllStrokes (s : Component) : Component :=
  redraw_if_overlay (set_strokes [] s).

(** The test of line 495 on the last point of the live stroke and the
    point of the event: more than half a pixel along one axis. *)
Definition moved (last p : Point.t) : bool :=
  num_gt (Math_abs (num_sub (Point.x p) (Point.x last))) (Fin (1 # 2))
  || num_gt (Math_abs (num_sub (Point.y p) (Point.y last))) (Fin (1 # 2)).

(** The handlers of the canvas of the overlay; they are attached when the
    overlay is created, so they do nothing while there is none.  [p] is
    what [canvasToImage] returns for the position of the event. *)
Definition onPointerDown (p : Point.t) (s : Component) : Component :=
  match drawingOverlay s with
  | None => s
  | Some o =>
      let o := set_isPointerDown true o in
      let o :=
        set_liveStroke
          (Some {| Stroke.points := [p];
                   Stroke.color := drawColor s;
                   Stroke.lineWidth := drawLineWidth s |}) o in
      redraw (set_drawingOverlay (Some o) s)
  end.

(** Reading [last.x] when [points] is empty is a TypeError that leaves the
    handler. *)
Definition onPointerMove (p : Point.t) (s : Component) : Component :=
  match drawingOverlay s with
  | None => s
  | Some o =>
      if negb (isPointerDown o) then s
      else
        match liveStroke o with
        | None => s
        | Some live =>
            match last (Stroke.points live) with
            | None =>
                effect (Uncaught "Cannot read properties of undefined") s
            | Some last =>
                if moved last p then
                  let live :=
                    {| Stroke.points := Stroke.points live ++ [p];
                       Stroke.color := Stroke.color live;
                       Stroke.lineWidth := Stroke.lineWidth live |} in
                  redraw
                    (set_drawingOverlay
                       (Some (set_liveStroke (Some live) o)) s)
                else s
            end
        end
  end.

(** Also the handler of [pointercancel]. *)
Definition onPointerUp (s : Component) : Component :=
  match drawingOverlay s with
  | None => s
  | Some o =>
      if negb (isPointerDown o) then s
      else
        let o := set_isPointerDown false o in
        let s :=
          match liveStroke o with
          | Some live =>
              if (2 <=? length (Stroke.points live))%nat
              then set_strokes (strokes s ++ [live]) s
              else s
          | None => s
          end in
        redraw (set_drawingOverlay (Some (set_liveStroke None o)) s)
  end.

(** ** Regions of interest *)

(** [roiOverlay.setRois(l)], when there is an overlay. *)
Definition setRois_if_overlay (l : list Roi.t) (s : Component) : Component :=
  if roiOverlay s then effect (SetRois l) s else s.

(** [Array.prototype.splice(index, 1)] for an integer [index]: a negative
    index counts from the end, and an index past either end is brought
    back to it. *)
Definition splice1 {A} (index : Z) (l : list A) : list A :=
  let len := Z.of_nat (length l) in
  let start := if index <? 0 then Z.max (len + index) 0
               else Z.min index len in
  delete (Z.to_nat start) l.

Section Trim.

(** [String.prototype.trim] *)
Variable trim : string → string.

Definition truthy_string (s : string) : bool :=
  match s with
  | EmptyString => false
  | String _ _ => true
  end.

Definition addRoi (s : Component) : Component :=
  let form := newRoi s in
  if negb (truthy_field (NewRoi.width form))
     || negb (truthy_field (NewRoi.height form)) then
    effect (Alert "Please enter valid width and height") s
  else
    let n := length (roiList s) in
    let roi :=
      {| Roi.x := NewRoi.x form;
         Roi.y := NewRoi.y form;
         Roi.width := NewRoi.width form;
         Roi.height := NewRoi.height form;
         Roi.label :=
           if truthy_string (trim (NewRoi.label form))
           then trim (NewRoi.label form)
           else "ROI " +:+ pretty (Z.of_nat n + 1);
         Roi.color := ROI_COLORS !!! (n mod length ROI_COLORS)%nat |} in
    let s := set_roiList (roiList s ++ [roi]) s in
    setRois_if_overlay (roiList s) s.

End Trim.

Definition useMouseCoordsForRoi (s : Component) : Component :=
  match MouseCoords.x (mouseCoords s), MouseCoords.y (mouseCoords s) with
  | Some mx, Some my =>
      set_newRoi
        {| NewRoi.x := Num mx; NewRoi.y := Num my;
           NewRoi.width := NewRoi.width (newRoi s);
           NewRoi.height := NewRoi.height (newRoi s);
           NewRoi.label := NewRoi.label (newRoi s) |} s
  | _, _ => s
  end.

Definition removeRoi (index : Z) (s : Component) : Component :=
  let s := set_roiList (splice1 index (roiList s)) s in
  setRois_if_overlay (roiList s) s.

Definition clearAllRois (s : Component) : Component :=
  setRois_if_overlay [] (set_roiList [] s).

(** ** Mouse tracking *)

(** [moveHandler]; [imagePoint] is the image point of the event. *)
Definition moveHandler (imagePoint : Point.t) (s : Component) : Component :=
  set_mouseCoords
    {| MouseCoords.x := Some (Math_floor (Point.x imagePoint));
       MouseCoords.y := Some (Math_floor (Point.y imagePoint)) |} s.

Definition exitHandler (s : Component) : Component :=
  set_mouseCoords {| MouseCoords.x := None; MouseCoords.y := None |} s.

(** ** Opening and unmounting *)

(** The overlay as [createDrawingOverlay] returns it. *)
Definition createDrawingOverlay : DrawingOverlay :=
  {| liveStroke := None; isPointerDown := false; pointerEvents := "none";
     cursor := EmptyString |}.

(** The handler of [open] of the viewer (lines 608-639); [tiledImage] tells
    whether [viewer.world.getItemAt(0)] is there. *)
Definition onOpen (tiledImage : bool) (s : Component) : Component :=
  if tiledImage then
    let s :=
      if roiOverlay s then s
      else effect (SetRois (roiList s)) (set_roiOverlay true s) in
    match drawingOverlay s with
    | Some _ => s
    | None => set_drawingOverlay (Some createDrawingOverlay) s
    end
  else s.

(** [onUnmounted]: [destroy] of the drawing overlay turns the mouse
    navigation of the viewer on again. *)
Definition onUnmounted (s : Component) : Component :=
  let s :=
    match drawingOverlay s with
    | Some _ => set_drawingOverlay None (set_mouseNavEnabled true s)
    | None => s
    end in
  if roiOverlay s then set_roiOverlay false s else s.

(** ** Sessions *)

(** What can happen to the mounted component: the buttons, the inputs of
    the form and of the pen, the pointer on the drawing canvas, the mouse
    over the viewer, and the events of the viewer. *)
Inductive Action : Type :=
| ToggleDrawMode
| UndoLastStroke
| ClearAllStrokes
| InputDrawColor (c : string)
| InputDrawLineWidth (n : number)
| PointerDown (p : Point.t)
| PointerMove (p : Point.t)
| PointerUp
| AddRoi
| InputNewRoi (form : NewRoi.t)
| UseMouseCoordsForRoi
| RemoveRoi (index : Z)
| ClearAllRois
| MouseMove (imagePoint : Point.t)
| MouseExit
| Open (tiledImage : bool)
| Unmounted.

Definition act (trim : string → string) (s : Component) (a : Action)
    : Component :=
  match a with
  | ToggleDrawMode => toggleDrawMode s
  | UndoLastStroke => undoLastStroke s
  | ClearAllStrokes => clearAllStrokes s
  | InputDrawColor c => set_drawColor c s
  | InputDrawLineWidth n => set_drawLineWidth n s
  | PointerDown p => onPointerDown p s
  | PointerMove p => onPointerMove p s
  | PointerUp => onPointerUp s
  | AddRoi => addRoi trim s
  | InputNewRoi form => set_newRoi form s
  | UseMouseCoordsForRoi => useMouseCoordsForRoi s
  | RemoveRoi index => removeRoi index s
  | ClearAllRois => clearAllRois s
  | MouseMove imagePoint => moveHandler imagePoint s
  | MouseExit => exitHandler s
  | Open tiledImage => onOpen tiledImage s
  | Unmounted => onUnmounted s
  end.

Definition session (trim : string → string) (actions : list Action)
    : Component :=
  foldl (act trim) setup actions.

(** Consecutive points of a stroke pass the test of line 495. *)
Definition well_spaced (ps : list Point.t) : Prop :=
  ∀ i a b, ps !! i = Some a → ps !! S i = Some b → moved a b = true.

Definition stroke_ok (st : Stroke.t) : Prop :=
  (2 ≤ length (Stroke.points st))%nat ∧ well_spaced (Stroke.points st).

Definition live_ok (s : Component) : Prop :=
  ∀ o live, drawingOverlay s = Some o → liveStroke o = Some live →
    (1 ≤ length (Stroke.points live))%nat ∧ well_spaced (Stroke.points live).

Definition roi_ok (roi : Roi.t) : Prop :=
  truthy_field (Roi.width roi) = true ∧
  truthy_field (Roi.height roi) = true ∧
  Roi.label roi ≠ EmptyString ∧
  Roi.color roi ∈ ROI_COLORS.

(** The points of the live stroke after the pointer has moved through
    [ps], from the points [pts] it had. *)
Fixpoint extend (pts ps : list Point.t) : list Point.t :=
  match ps with
  | [] => pts
  | q :: ps =>
      match last pts with
      | Some l => if moved l q then extend (pts ++ [q]) ps else extend pts ps
      | None => pts
      end
  end.

(** The list that the ROI overlay was last given to paint. *)
Fixpoint shown_rois (es : list Effect) : option (list Roi.t) :=
  match es with
  | [] => None
  | e :: es =>
      match shown_rois es with
      | Some l => Some l
      | None => match e with SetRois l => Some l | _ => None end
      end
  end.

Definition is_RemoveRoi (a : Action) : bool :=
  match a with
  | RemoveRoi _ => true
  | _ => false
  end.

(** One drag of the pointer: down at [p], moves through [ps], up. *)
Definition gesture (p : Point.t) (ps : list Point.t) : list Action :=
  PointerDown p :: (PointerMove <$> ps) ++ [PointerUp].

(** A trim for the examples: the label as it is. *)
Definition no_trim (s : string) : string := s.

(** What holds of the strokes in every state of a session. *)
Definition strokes_inv (s : Component) : Prop :=
  Forall stroke_ok (strokes s) ∧ live_ok s ∧
  ∀ message, Uncaught message ∉ effects s.

Definition point_at (px py : Z) : Point.t :=
  {| Point.x := num_of_Z px; Point.y := num_of_Z py |}.

(** The component after its image has opened. *)
Definition opened : Component := onOpen true setup.

(** What holds of draw mode in every state of a session. *)
Definition drawMode_inv (s : Component) : Prop :=
  match drawingOverlay s with
  | None => mouseNavEnabled s = true
  | Some o =>
      (pointerEvents o = "auto" ∧ mouseNavEnabled s = false ∧
       drawMode s = true) ∨
      (pointerEvents o = "none" ∧ mouseNavEnabled s = true)
  end.

(** What holds of the regions of interest in every state of a session. *)
Definition roi_inv (s : Component) : Prop :=
  Forall roi_ok (roiList s) ∧
  (roiOverlay s = true → shown_rois (effects s) = Some (roiList s)).

(** The colour of each region is the colour of the palette at its
    position in the list. *)
Definition coloured_by_position (l : list Roi.t) : Prop :=
  ∀ i roi, l !! i = Some roi →
    Roi.color roi = ROI_COLORS !!! (i mod length ROI_COLORS)%nat.

(** The component whose form is [form], with the list [l]. *)
Definition with_rois (l : list Roi.t) (form : NewRoi.t) : Component :=
  set_newRoi form (set_roiList l setup).

Definition roi_at (n : nat) : Roi.t :=
  {| Roi.x := Num (num_of_Z 0); Roi.y := Num (num_of_Z 0);
     Roi.width := Num (num_of_Z 100); Roi.height := Num (num_of_Z 100);
     Roi.label := "ROI " +:+ pretty (Z.of_nat n + 1);
     Roi.color := ROI_COLORS !!! (n mod length ROI_COLORS)%nat |}.

(** ** The coordinate helpers of the drawing overlay (lines 402-416) *)

(** [a + b] *)
Definition num_add (a b : number) : number :=
  match a, b with
  | NaN, _ | _, NaN => NaN
  | Infinity, NegInfinity | NegInfinity, Infinity => NaN
  | Infinity, _ | _, Infinity => Infinity
  | NegInfinity, _ | _, NegInfinity => NegInfinity
  | Fin p, Fin q => Fin (p + q)%Q
  end.

(** The four methods of [viewer.viewport] that the helpers call.  The
    second argument of [pixelFromPoint] and of [pointFromPixel] is
    [current]: true for the view as it is drawn at the moment, false, or
    left out, for the view that a running animation will end at. *)
Record Viewport : Type := {
  imageToViewportCoordinates : number → number → Point.t;
  pixelFromPoint : Point.t → bool → Point.t;
  pointFromPixel : Point.t → bool → Point.t;
  viewportToImageCoordinates : Point.t → Point.t;
}.

(** Image pixel to canvas pixel. *)
Definition imageToCanvas (viewport : Viewport) (x y : number) : Point.t :=
  let vp := imageToViewportCoordinates viewport x y in
  let px := pixelFromPoint viewport vp true in
  {| Point.x := Point.x px; Point.y := Point.y px |}.

(** Canvas pixel to image pixel: [pointFromPixel] is called with the point
    alone. *)
Definition canvasToImage (viewport : Viewport) (cx cy : number) : Point.t :=
  let vp :=
    pointFromPixel viewport {| Point.x := cx; Point.y := cy |} false in
  let img := viewportToImageCoordinates viewport vp in
  {| Point.x := Point.x img; Point.y := Point.y img |}.

(** [canvasToImage(imageToCanvas(x, y))] *)
Definition round_trip (viewport : Viewport) (x y : number) : Point.t :=
  let c := imageToCanvas viewport x y in
  canvasToImage viewport (Point.x c) (Point.y c).

(** The viewport of OpenSeadragon, after the documentation of the library,
    for a viewer that shows one image, is not rotated or flipped and has
    no margins.  The viewport spans the width of the image as 1.  A view is
    given by its bounds: the top-left corner and the width, in viewport
    units, of what the container shows.  While an animation runs, the
    current bounds move towards the target bounds; at rest the two are the
    same. *)
Record Bounds : Type := {
  bounds_x : Q;
  bounds_y : Q;
  bounds_width : Q;
}.

Record ViewportState : Type := {
  contentSize : Q;        (* the width of the image, in image pixels *)
  containerInnerSize : Q; (* the width of the container, in canvas pixels *)
  currentBounds : Bounds;
  targetBounds : Bounds;
}.

(** [getBounds(current)] *)
Definition getBounds (s : ViewportState) (current : bool) : Bounds :=
  if current then currentBounds s else targetBounds s.

Definition viewport_of (s : ViewportState) : Viewport :=
  {| imageToViewportCoordinates := λ imageX imageY,
       {| Point.x := num_div imageX (Fin (contentSize s));
          Point.y := num_div imageY (Fin (contentSize s)) |};
     pixelFromPoint := λ point current,
       let bounds := getBounds s current in
       let scale :=
         num_div (Fin (containerInnerSize s)) (Fin (bounds_width bounds)) in
       {| Point.x :=
            num_mul (num_sub (Point.x point) (Fin (bounds_x bounds))) scale;
          Point.y :=
            num_mul (num_sub (Point.y point) (Fin (bounds_y bounds))) scale |};
     pointFromPixel := λ pixel current,
       let bounds := getBounds s current in
       let scale :=
         num_div (Fin (containerInnerSize s)) (Fin (bounds_width bounds)) in
       {| Point.x :=
            num_add (num_div (Point.x pixel) scale) (Fin (bounds_x bounds));
          Point.y :=
            num_add (num_div (Point.y pixel) scale) (Fin (bounds_y bounds)) |};
     viewportToImageCoordinates := λ point,
       {| Point.x := num_mul (Point.x point) (Fin (contentSize s));
          Point.y := num_mul (Point.y point) (Fin (contentSize s)) |} |}.

(** Two numbers are the same value. *)
Definition same_number (a b : number) : Prop :=
  match a, b with
  | Fin p, Fin q => (p == q)%Q
  | NaN, NaN | Infinity, Infinity | NegInfinity, NegInfinity => True
  | _, _ => False
  end.

Definition same_point (p q : Point.t) : Prop :=
  same_number (Point.x p) (Point.x q) ∧ same_number (Point.y p) (Point.y q).

(** An image of 1000 pixels in a container of 1000 pixels, at the first
    frame of a zoom to twice the size about the centre: the whole image is
    still drawn, the animation will end on its middle half. *)
Definition zooming_in : ViewportState :=
  {| contentSize := 1000 # 1;
     containerInnerSize := 1000 # 1;
     currentBounds :=
       {| bounds_x := 0 # 1; bounds_y := 0 # 1; bounds_width := 1 # 1 |};
     targetBounds :=
       {| bounds_x := 1 # 4; bounds_y := 1 # 4; bounds_width := 1 # 2 |} |}.

(** The same viewer once the animation has ended. *)
Definition zoomed_in : ViewportState :=
  {| contentSize := 1000 # 1;
     containerInnerSize := 1000 # 1;
     currentBounds :=
       {| bounds_x := 1 # 4; bounds_y := 1 # 4; bounds_width := 1 # 2 |};
     targetBounds :=
       {| bounds_x := 1 # 4; bounds_y := 1 # 4; bounds_width := 1 # 2 |} |}.
(** * Properties *)

(** ** Construction *)

Lemma constructor_capacity_truthy url options :
  truthy (maxCacheSize (constructor url options)) = true.
Proof.
  unfold constructor, js_or; simpl.
  destruct (truthy (opt_maxCacheSize options)) eqn:E; [exact E | reflexivity].
Qed.

(** C10: when [options.maxCacheSize] is falsy (in particular absent, [null],
    0 or NaN) the constructed adapter has [maxCacheSize] 100; so passing 0
    yields the default capacity. *)
Theorem C10_falsy_maxCacheSize_gives_100 (url : string) (options : Options) :
  truthy (opt_maxCacheSize options) = false ∨
  opt_maxCacheSize options ∈
    [JUndefined; JNull; JNum (num_of_Z 0); JNum NaN] →
  maxCacheSize (constructor url options) = JNum (num_of_Z 100).
Proof.
  intros H.
  assert (Hf : truthy (opt_maxCacheSize options) = false).
  { destruct H as [H | H]; [exact H |].
    rewrite !elem_of_cons in H.
    destruct H as [-> | [-> | [-> | [-> | H]]]]; try reflexivity.
    by apply elem_of_nil in H. }
  unfold constructor, js_or; simpl. by rewrite Hf.
Qed.

Lemma C10_witness :
  maxCacheSize
    (constructor "http://localhost:8080/zarr/mosaic.ome.zarr"
       {| opt_maxCacheSize := JNum (num_of_Z 0);
          opt_autoNormalize := JUndefined;
          opt_fixedMin := JUndefined; opt_fixedMax := JUndefined |})
  = JNum (num_of_Z 100).
Proof.
  apply C10_falsy_maxCacheSize_gives_100.
  left. reflexivity.
Defined.

(** ** Running the monad *)

Ltac unfold_M :=
  unfold bind, ret, throw, try_catch, get_this, modify_this, emit in *.

Lemma Map_get_has {V} (k : string) (m : list (string * V)) (v : V) :
  Map_get k m = Some v → Map_has k m = true.
Proof.
  induction m as [| [k' v'] m IH]; simpl; [discriminate |].
  destruct (String.eqb k k'); [reflexivity | exact IH].
Qed.

Lemma Map_has_get {V} (k : string) (m : list (string * V)) :
  Map_has k m = true → is_Some (Map_get k m).
Proof.
  induction m as [| [k' v'] m IH]; simpl; [discriminate |].
  destruct (String.eqb k k'); [eauto | exact IH].
Qed.

(** ** Cache hits *)

(** C7: when the cache holds a canvas under the key of the requested tile,
    resolving the tile delivers the image made from that cached canvas (or
    the cached-tile failure if the browser cannot load it), issues no region
    read, does not call [dataToCanvas], and leaves the instance unchanged. *)
Theorem C7_cache_hit_skips_fetch_and_normalizer
    (env : Env) (level x y : Z) (canvas : Canvas) (w : World) :
  Map_get (cacheKey level x y) (tileCache (this w)) = Some canvas →
  let w' := downloadTileStart env
              {| tile := Some {| level := level; x := x; y := y |} |} w in
  this w' = this w ∧
  log w' = log w ++
    [Finish (if image_loads env canvas then Image canvas
             else Failure "Failed to load cached tile")] ∧
  region_reads (log w') = region_reads (log w) ∧
  normalizer_calls (log w') = normalizer_calls (log w).
Proof.
  intros Hget w'.
  assert (Hw' : w' = {| this := this w;
                        log := log w ++
                          [Finish (if image_loads env canvas then Image canvas
                                   else Failure "Failed to load cached tile")] |}).
  { subst w'. unfold downloadTileStart, getTileImage, load_image. unfold_M.
    simpl. rewrite (Map_get_has _ _ _ Hget), Hget. reflexivity. }
  rewrite Hw'. simpl. repeat split.
  - unfold region_reads. rewrite omap_app. simpl. apply app_nil_r.
  - unfold normalizer_calls. rewrite omap_app. simpl. apply app_nil_r.
Qed.

(** ** Exactly one delivery per request *)

Lemma deliveries_app (l1 l2 : list Event) :
  deliveries (l1 ++ l2) = deliveries l1 ++ deliveries l2.
Proof. apply omap_app. Qed.

(** [dataToCanvas] never delivers: it only records its own call. *)
Lemma dataToCanvas_log (env : Env) (data : TileData) (width height : Z)
    (w w' : World) (r : Result Canvas) :
  dataToCanvas env data width height w = (w', r) →
  log w' = log w ++ [DataToCanvas (data_shape data)].
Proof.
  unfold dataToCanvas, createImageData. unfold_M. simpl.
  repeat case_match; intros; simplify_eq; reflexivity.
Qed.

(** [dataToCanvas] awaits nothing. *)
Lemma dataToCanvas_settles (env : Env) (data : TileData) (width height : Z)
    (w w' : World) :
  dataToCanvas env data width height w ≠ (w', Pending).
Proof.
  unfold dataToCanvas, createImageData. unfold_M. simpl.
  repeat case_match; intros; simplify_eq; discriminate.
Qed.

Lemma message_or_unknown_nonempty (message : string) :
  message_or_unknown message ≠ EmptyString.
Proof. by destruct message. Qed.

(** ** Level inversion *)

Lemma region_reads_app (l1 l2 : list Event) :
  region_reads (l1 ++ l2) = region_reads l1 ++ region_reads l2.
Proof. apply omap_app. Qed.

(** On a cache miss, an engine level [L] with [0 <= L <= total - 1] is
    read from storage level [total - 1 - L] (exactly one region read, on
    that level's array), and whenever [total - 1 - L] falls outside
    [0, total - 1] the request fails with the invalid-level message, without
    any read and without changing the instance. *)
Lemma level_inversion_on_miss (env : Env) (L x y : Z) (w : World) :
  Map_has (cacheKey L x y) (tileCache (this w)) = false →
  let total := Z.of_nat (length (zarrArrays (this w))) in
  let w' := downloadTileStart env
              {| tile := Some {| level := L; x := x; y := y |} |} w in
  zarrLevelIndex total L = total - 1 - L ∧
  (0 ≤ L ≤ total - 1 →
     ∃ channel rows cols,
       region_reads (log w') =
       region_reads (log w) ++ [(total - 1 - L, channel, rows, cols)]) ∧
  (¬ (0 ≤ zarrLevelIndex total L ≤ total - 1) →
     w' = {| this := this w;
             log := log w ++
               [Finish (Failure
                  (invalid_level_message (zarrLevelIndex total L) total))] |}).
Proof.
  intros Hmiss total w'. split; [reflexivity |].
  subst w'. unfold downloadTileStart, getTileImage. unfold_M. simpl.
  rewrite Hmiss. fold total. split.
  - intros HL.
    assert (Hin : (zarrLevelIndex total L <? 0)
                  || (zarrLevelIndex total L >=? total) = false).
    { unfold zarrLevelIndex. apply orb_false_iff. split; lia. }
    rewrite Hin.
    destruct (zarrArrays (this w) !! Z.to_nat (zarrLevelIndex total L))
      as [zarrLevel |] eqn:Hlk.
    2:{ apply lookup_ge_None in Hlk. unfold zarrLevelIndex in Hlk. lia. }
    set (sel := if (length (shape (array zarrLevel)) =? 3)%nat then _ else _).
    assert (Hsel : ∃ c rows cols,
               sel = await_get env (zarrLevelIndex total L) c rows cols).
    { subst sel. destruct (_ =? _)%nat; eauto 8. }
    destruct Hsel as (c & rows & cols & ->).
    exists c, rows, cols.
    unfold await_get. unfold_M. simpl.
    destruct (array_get env _ c rows cols) as [tileData | message |]; simpl.
    2, 3: rewrite !region_reads_app; simpl; by rewrite ?app_nil_r.
    destruct (dataToCanvas env tileData _ _ _) as [w1 [canvas | message |]]
      eqn:Hd; [| | by destruct (dataToCanvas_settles _ _ _ _ _ _ Hd)];
      apply dataToCanvas_log in Hd; simpl in Hd.
    + unfold addToCache, load_image. unfold_M. simpl.
      rewrite Hd, !region_reads_app. simpl. by rewrite !app_nil_r.
    + simpl. rewrite Hd, !region_reads_app. simpl. by rewrite !app_nil_r.
  - intros Hout.
    assert (Hin : (zarrLevelIndex total L <? 0)
                  || (zarrLevelIndex total L >=? total) = true).
    { apply orb_true_iff. lia. }
    rewrite Hin. reflexivity.
Qed.

(** ** The FIFO tile cache *)

Lemma Map_delete_first_key {V} (e : string * V) (m : list (string * V)) :
  Map_delete e.1 (e :: m) = m.
Proof. destruct e as [k v]. simpl. by rewrite String.eqb_refl. Qed.

Lemma Map_keys_set {V} (k : string) (v : V) (m : list (string * V)) :
  Map_keys (Map_set k v m) =
  if Map_has k m then Map_keys m else Map_keys m ++ [k].
Proof.
  unfold Map_keys.
  induction m as [| [k' v'] m IH]; [reflexivity |].
  cbn [Map_set Map_has existsb fst].
  destruct (String.eqb k k') eqn:E; cbn [orb]; rewrite !fmap_cons.
  - apply String.eqb_eq in E. subst. reflexivity.
  - rewrite IH. unfold Map_has. destruct (existsb _ m); reflexivity.
Qed.

Lemma Map_has_keys {V} (k : string) (m : list (string * V)) :
  Map_has k m = true ↔ k ∈ Map_keys m.
Proof.
  unfold Map_keys.
  induction m as [| [k' v'] m IH].
  - split; [discriminate | by intros ?%elem_of_nil].
  - rewrite fmap_cons, elem_of_cons, <- IH. unfold Map_has.
    cbn [existsb fst]. rewrite orb_true_iff, String.eqb_eq. reflexivity.
Qed.

Lemma Map_set_length {V} (k : string) (v : V) (m : list (string * V)) :
  length (Map_set k v m) =
  if Map_has k m then length m else S (length m).
Proof.
  induction m as [| [k' v'] m IH]; simpl; [reflexivity |].
  destruct (String.eqb k k'); simpl; [reflexivity |].
  rewrite IH. by destruct (Map_has k m).
Qed.

Lemma Map_get_set {V} (k : string) (v : V) (m : list (string * V)) :
  Map_get k (Map_set k v m) = Some v.
Proof.
  induction m as [| [k' v'] m IH]; simpl.
  - by rewrite String.eqb_refl.
  - destruct (String.eqb k k') eqn:E; simpl.
    + by rewrite String.eqb_refl.
    + by rewrite E.
Qed.

Lemma cache_is_full (n : nat) {V} (m : list (string * V)) :
  num_ge (Map_size m) (to_number (JNum (num_of_Z (Z.of_nat n)))) =
  bool_decide (n ≤ length m)%nat.
Proof.
  unfold Map_size, num_of_Z; simpl. unfold Qle_bool; simpl.
  rewrite !Z.mul_1_r.
  destruct (Z.leb_spec (Z.of_nat n) (Z.of_nat (length m)));
    symmetry; [apply bool_decide_eq_true | apply bool_decide_eq_false]; lia.
Qed.

Section Fifo.
Variable N : nat.
Hypothesis N_positive : (1 ≤ N)%nat.

Let cap : jsval := JNum (num_of_Z (Z.of_nat N)).

Lemma addToCache_map_room key canvas (cache : list (string * Canvas)) :
  (length cache < N)%nat →
  addToCache_map cap key canvas cache = Map_set key canvas cache.
Proof.
  intros Hlen. unfold addToCache_map, cap. rewrite cache_is_full.
  rewrite bool_decide_eq_false_2; [reflexivity | lia].
Qed.

Lemma addToCache_map_full key canvas e (cache : list (string * Canvas)) :
  (N ≤ length (e :: cache))%nat →
  addToCache_map cap key canvas (e :: cache) = Map_set key canvas cache.
Proof.
  intros Hlen. unfold addToCache_map, cap. rewrite cache_is_full.
  rewrite bool_decide_eq_true_2 by exact Hlen.
  destruct e as [k v]. simpl. by rewrite String.eqb_refl.
Qed.

Lemma addToCache_map_bound key canvas (cache : list (string * Canvas)) :
  (length cache ≤ N)%nat →
  (length (addToCache_map cap key canvas cache) ≤ N)%nat.
Proof.
  intros Hlen.
  destruct (decide (length cache < N)%nat) as [Hlt | Hge].
  - rewrite addToCache_map_room by exact Hlt.
    rewrite Map_set_length. destruct (Map_has key cache); lia.
  - destruct cache as [| e cache]; [simpl in *; lia |].
    rewrite addToCache_map_full by lia.
    rewrite Map_set_length. simpl in Hlen.
    destruct (Map_has key cache); lia.
Qed.

Lemma run_ops_bound ops (cache : list (string * Canvas)) :
  (length cache ≤ N)%nat → (length (run_ops cap ops cache) ≤ N)%nat.
Proof.
  revert cache. induction ops as [| op ops IH]; intros cache Hlen; simpl.
  - exact Hlen.
  - apply IH. destruct op; simpl; [exact Hlen |].
    by apply addToCache_map_bound.
Qed.

Lemma run_ops_ignores_gets ops (cache : list (string * Canvas)) :
  run_ops cap ops cache = run_ops cap (List.filter is_put ops) cache.
Proof.
  revert cache. induction ops as [| op ops IH]; intros cache; simpl.
  - reflexivity.
  - destruct op; simpl; apply IH.
Qed.

Lemma put_keys_snoc ops op :
  put_keys (ops ++ [op]) =
  put_keys ops ++ match op with OpPut k _ => [k] | OpGet _ => [] end.
Proof. unfold put_keys. rewrite omap_app. by destruct op. Qed.

Lemma run_ops_distinct_keys ops :
  NoDup (put_keys ops) →
  Map_keys (run_ops cap ops []) =
  drop (length (put_keys ops) - N) (put_keys ops).
Proof.
  induction ops as [| op ops IH] using rev_ind; intros Hnd.
  - reflexivity.
  - unfold run_ops in *. rewrite foldl_app. simpl.
    rewrite put_keys_snoc in *.
    destruct op as [k | k c]; simpl.
    { rewrite app_nil_r in *. by apply IH. }
    apply NoDup_app in Hnd as (Hnd & Hfresh & _).
    specialize (IH Hnd).
    assert (Hk : k ∉ put_keys ops).
    { intros Hin. apply (Hfresh k Hin). by apply list_elem_of_singleton. }
    set (cache := foldl (cache_step cap) [] ops) in *.
    assert (Hlen : length cache = length (Map_keys cache)).
    { unfold Map_keys. by rewrite length_fmap. }
    rewrite IH, length_drop in Hlen.
    rewrite length_app. simpl.
    destruct (decide (length cache < N)%nat) as [Hlt | Hge].
    + rewrite addToCache_map_room by exact Hlt.
      rewrite Map_keys_set.
      destruct (Map_has k cache) eqn:Hhas.
      { apply Map_has_keys in Hhas. rewrite IH in Hhas.
        by apply (subseteq_drop _ _ k), Hk in Hhas. }
      rewrite IH.
      replace (length (put_keys ops) - N)%nat with 0%nat by lia.
      replace (length (put_keys ops) + 1 - N)%nat with 0%nat by lia.
      reflexivity.
    + destruct cache as [| e cache'] eqn:Hc; [simpl in *; lia |].
      simpl in Hlen, Hge.
      rewrite addToCache_map_full by (simpl; lia).
      rewrite Map_keys_set.
      assert (Hkeys : Map_keys cache' =
                      drop (length (put_keys ops) + 1 - N) (put_keys ops)).
      { change (Map_keys cache') with (drop 1 (Map_keys (e :: cache'))).
        rewrite IH, drop_drop. f_equal. lia. }
      destruct (Map_has k cache') eqn:Hhas.
      { apply Map_has_keys in Hhas. rewrite Hkeys in Hhas.
        by apply (subseteq_drop _ _ k), Hk in Hhas. }
      rewrite Hkeys.
      rewrite drop_app_le by lia. reflexivity.
Qed.
End Fifo.

(** C4: for a capacity [N >= 1], starting from the empty cache of a new
    adapter: the cache never holds more than [N] entries; a put on a full
    cache drops exactly the first entry in insertion order and then sets the
    key, and a put on a cache with room drops nothing; gets do not affect
    the outcome; after puts of distinct keys the cache holds exactly the
    last [N] of them in insertion order; with capacity 2, putting distinct
    [A], [B], [C] leaves exactly [B], [C]. *)
Theorem C4_fifo_cache (N : nat) :
  (1 ≤ N)%nat →
  let cap := JNum (num_of_Z (Z.of_nat N)) in
  (∀ ops, (length (run_ops cap ops []) ≤ N)%nat) ∧
  (∀ key canvas e cache,
     length (e :: cache) = N →
     addToCache_map cap key canvas (e :: cache) = Map_set key canvas cache) ∧
  (∀ key canvas cache,
     (length cache < N)%nat →
     addToCache_map cap key canvas cache = Map_set key canvas cache) ∧
  (∀ ops, run_ops cap ops [] = run_ops cap (List.filter is_put ops) []) ∧
  (∀ ops,
     NoDup (put_keys ops) →
     Map_keys (run_ops cap ops []) =
     drop (length (put_keys ops) - N) (put_keys ops)) ∧
  (N = 2%nat →
   ∀ A B C a b c,
     A ≠ B → A ≠ C → B ≠ C →
     Map_keys (run_ops cap [OpPut A a; OpPut B b; OpPut C c] []) = [B; C]).
Proof.
  intros HN cap. repeat split.
  - intros ops. apply run_ops_bound; simpl; lia.
  - intros key canvas e cache Hlen. apply addToCache_map_full. lia.
  - intros key canvas cache Hlen. by apply addToCache_map_room.
  - intros ops. apply run_ops_ignores_gets.
  - intros ops Hnd. by apply run_ops_distinct_keys.
  - intros -> A B C a b c HAB HAC HBC.
    apply (run_ops_distinct_keys 2 HN [OpPut A a; OpPut B b; OpPut C c]).
    simpl. rewrite !NoDup_cons, !elem_of_cons, !elem_of_nil.
    split; [tauto |]. split; [tauto |]. split; [tauto |]. apply NoDup_nil_2.
Qed.

Lemma C4_witness :
  Map_keys
    (run_ops (JNum (num_of_Z 2))
       [OpPut "A" black_pixel; OpPut "B" black_pixel; OpPut "C" black_pixel] [])
  = ["B"; "C"].
Proof.
  destruct (C4_fifo_cache 2 (le_S 1 1 (le_n 1))) as (_ & _ & _ & _ & _ & H).
  apply (H eq_refl "A" "B" "C"); discriminate.
Defined.

Lemma C7_witness :
  let w := {| this := set_tileCache [("1-0-0", black_pixel)]
                        (constructor "zarr" no_options);
              log := [] |} in
  log (downloadTileStart (env_serving [])
         {| tile := Some {| level := 1; x := 0; y := 0 |} |} w)
  = [Finish (Image black_pixel)].
Proof.
  intros w.
  destruct (C7_cache_hit_skips_fetch_and_normalizer
              (env_serving []) 1 0 0 black_pixel w eq_refl) as (_ & H & _).
  exact H.
Defined.


(** ** The intensity normaliser *)

(** *** Arithmetic of the per-sample mapping *)

Lemma Qle_bool_false (p q : Q) : Qle_bool p q = false ↔ (q < p)%Q.
Proof.
  split.
  - intros H. apply Qnot_le_lt. intros Hle. apply Qle_bool_iff in Hle. congruence.
  - intros H. destruct (Qle_bool p q) eqn:E; [| reflexivity].
    apply Qle_bool_iff in E. exfalso. by apply (Qlt_not_le q p).
Qed.

Lemma Math_round_Qeq (p q : Q) :
  (p == q)%Q → Math_round (Fin p) = Math_round (Fin q).
Proof.
  intros H. unfold Math_round. f_equal.
  apply Qfloor_comp. by rewrite H.
Qed.

Ltac q_reflect :=
  repeat match goal with
  | H : Qle_bool _ _ = true |- _ => apply Qle_bool_iff in H
  | H : Qle_bool _ _ = false |- _ => apply Qle_bool_false in H
  end.

Lemma scale_clamp (q : number) :
  Math_round
    (Math_min (num_of_Z 255)
       (Math_max (num_of_Z 0) (num_mul q (num_of_Z 255)))) =
  Math_round (num_mul (clamp q (num_of_Z 0) (num_of_Z 1)) (num_of_Z 255)).
Proof.
  destruct q as [| | | q]; try reflexivity.
  unfold clamp, num_mul, num_of_Z, Math_max, Math_min, num_lt.
  destruct (Qle_bool (q * inject_Z 255) (inject_Z 0)) eqn:E1;
  destruct (Qle_bool q (inject_Z 0)) eqn:E2; cbn [negb].
  all: try (change (Qle_bool (inject_Z 255) (inject_Z 0)) with false; cbn [negb]).
  all: try (change (Qle_bool (inject_Z 1) (inject_Z 0)) with false; cbn [negb]).
  all: try destruct (Qle_bool (inject_Z 255) (q * inject_Z 255)) eqn:E3.
  all: try destruct (Qle_bool (inject_Z 1) q) eqn:E4.
  all: cbn [negb]; q_reflect; unfold inject_Z in *.
  all: first [reflexivity | exfalso; lra | apply Math_round_Qeq; lra].
Qed.

(** Lines 288-289 compute the mapping of the design document. *)
Lemma normalize_value_spec (value min max : number) :
  normalize_value value min (effective_range min max) =
  spec_intensity value min max.
Proof. unfold normalize_value, spec_intensity, effective_range. apply scale_clamp. Qed.

Lemma toUint8Clamp_bounds (v : number) : 0 ≤ toUint8Clamp v ≤ 255.
Proof. destruct v; simpl; lia. Qed.

Lemma toUint8Clamp_integer (z : Z) :
  0 ≤ z ≤ 255 → toUint8Clamp (num_of_Z z) = z.
Proof.
  intros Hz. unfold toUint8Clamp, num_of_Z, round_half_even.
  rewrite Qfloor_Z.
  assert (H : ((inject_Z z - inject_Z z) ?= (1 # 2))%Q = Lt)
    by (apply (proj1 (Qlt_alt _ _)); lra).
  rewrite H. lia.
Qed.

(** On finite numbers the mapping yields an integer between 0 and 255. *)
Lemma spec_intensity_finite (value min max : Q) :
  ∃ z : Z, 0 ≤ z ≤ 255 ∧
    spec_intensity (Fin value) (Fin min) (Fin max) = num_of_Z z.
Proof.
  unfold spec_intensity.
  set (range := if truthy_num _ then _ else _).
  assert (Hr : ∃ r : Q, range = Fin r ∧ Qnum r ≠ 0).
  { subst range. cbn [num_sub truthy_num].
    destruct (Qnum (max - min) =? 0) eqn:E; cbn [negb].
    - exists (inject_Z 1). split; [reflexivity | simpl; lia].
    - exists (max - min)%Q. split; [reflexivity |]. by apply Z.eqb_neq. }
  destruct Hr as (r & -> & Hr).
  cbn [num_sub num_div]. apply Z.eqb_neq in Hr. rewrite Hr.
  set (q := ((value - min) / r)%Q).
  unfold clamp, Math_max, Math_min, num_of_Z, num_lt.
  destruct (Qle_bool q (inject_Z 0)) eqn:E1; cbn [negb].
  - exists 0. split; [lia | reflexivity].
  - destruct (Qle_bool (inject_Z 1) q) eqn:E2; cbn [negb].
    + exists 255. split; [lia | reflexivity].
    + q_reflect. unfold inject_Z in *. cbn [num_mul Math_round].
      eexists. split; [| reflexivity].
      split.
      * apply (Qfloor_resp_le (0 # 1)). lra.
      * apply (Qfloor_resp_le _ (511 # 2)). lra.
Qed.

(** *** The loops *)

Lemma dataToCanvas_run (env : Env) (data : TileData) (width height : Z)
    (w : World) :
  width ≠ 0 → height ≠ 0 →
  dataToCanvas env data width height w =
  ({| this := store_min_max (this w) data;
      log := log w ++ [DataToCanvas (data_shape data)] |},
   Ok {| width := width; height := height;
         imageData :=
           paint data (data_shape data !!! 0%nat) (data_shape data !!! 1%nat)
             (min_used (this w) data) (range_used (this w) data)
             (replicate (Z.to_nat (Z.abs width * Z.abs height * 4)) 0) |}).
Proof.
  intros Hw Hh.
  unfold dataToCanvas, createImageData.
  apply Z.eqb_neq in Hw, Hh. rewrite Hw, Hh. unfold_M. cbn [orb].
  unfold range_used, min_used, max_used, store_min_max, local_min_max, scans.
  cbn [this log].
  destruct (autoNormalize (this w) && _) eqn:Hscan.
  - destruct (scan_minmax _ _ _) as [mn mx].
    destruct (minValue (this w)), (maxValue (this w)); reflexivity.
  - reflexivity.
Qed.

Lemma dataToCanvas_throws (env : Env) (data : TileData) (width height : Z)
    (w : World) :
  width = 0 ∨ height = 0 →
  dataToCanvas env data width height w =
  ({| this := this w; log := log w ++ [DataToCanvas (data_shape data)] |},
   Throw (index_size_error env)).
Proof.
  intros H. unfold dataToCanvas, createImageData. unfold_M. cbn [this log].
  replace ((width =? 0) || (height =? 0)) with true; [reflexivity |].
  symmetry. apply orb_true_iff. lia.
Qed.

Lemma put_pixel_length idx v d : length (put_pixel idx v d) = length d.
Proof. unfold put_pixel. by rewrite !length_insert. Qed.

Lemma put_pixel_lookup idx v d (i : nat) :
  put_pixel idx v d !! i =
  if decide (idx ≤ i < idx + 4 ∧ i < length d)%nat
  then Some (if decide (i = idx + 3)%nat then 255 else toUint8Clamp v)
  else d !! i.
Proof.
  unfold put_pixel. rewrite !list_lookup_insert, !length_insert.
  change (toUint8Clamp (num_of_Z 255)) with 255.
  repeat case_decide; try reflexivity; try lia.
Qed.

Lemma writes_S f n d : writes f (S n) d = put_pixel (4 * n) (f n) (writes f n d).
Proof. unfold writes. rewrite seq_S, foldl_app. reflexivity. Qed.

Lemma writes_length f n d : length (writes f n d) = length d.
Proof.
  induction n as [| n IH]; [reflexivity |].
  by rewrite writes_S, put_pixel_length.
Qed.

Lemma writes_lookup f n d (i : nat) :
  writes f n d !! i =
  if decide (i < 4 * n ∧ i < length d)%nat
  then Some (if decide (i mod 4 = 3)%nat then 255 else toUint8Clamp (f (i / 4)%nat))
  else d !! i.
Proof.
  induction n as [| n IH].
  - change (writes f 0 d) with d. rewrite decide_False by lia. reflexivity.
  - rewrite writes_S, put_pixel_lookup, writes_length, IH.
    repeat case_decide; try reflexivity; try (exfalso; lia).
    do 3 f_equal. lia.
Qed.

Lemma writes_ext f g n d :
  (∀ k, f k = g k) → writes f n d = writes g n d.
Proof.
  intros Hfg. induction n as [| n IH]; [reflexivity |].
  by rewrite !writes_S, IH, Hfg.
Qed.

Lemma writes_lookup_pixel f n d (k c : nat) :
  (k < n)%nat → (c < 4)%nat → (4 * k + c < length d)%nat →
  writes f n d !! (4 * k + c)%nat =
  Some (if decide (c = 3)%nat then 255 else toUint8Clamp (f k)).
Proof.
  intros Hk Hc Hlen. rewrite writes_lookup, decide_True by lia.
  replace ((4 * k + c) / 4)%nat with k by lia.
  replace ((4 * k + c) mod 4)%nat with c by lia.
  reflexivity.
Qed.

Lemma writes_bounded f n d :
  Forall (λ b, 0 ≤ b ≤ 255) d → Forall (λ b, 0 ≤ b ≤ 255) (writes f n d).
Proof.
  intros Hd. induction n as [| n IH]; [exact Hd |].
  rewrite writes_S. unfold put_pixel.
  assert (Hb : ∀ v, 0 ≤ toUint8Clamp v ≤ 255).
  { intros [| | | q]; simpl; lia. }
  repeat apply Forall_insert; auto.
Qed.

Lemma for_lt_S {S : Type} (n : nat) (body : nat → S → S) (s : S) :
  for_lt (Z.of_nat (Datatypes.S n)) body s = body n (for_lt (Z.of_nat n) body s).
Proof.
  unfold for_lt. rewrite !Nat2Z.id, seq_S, foldl_app. reflexivity.
Qed.

Lemma for_lt_to_nat {S : Type} (n : Z) (body : nat → S → S) (s : S) :
  for_lt n body s = for_lt (Z.of_nat (Z.to_nat n)) body s.
Proof. unfold for_lt. by rewrite Nat2Z.id. Qed.

Lemma paint_writes data ah aw min range d :
  paint data ah aw min range d =
  writes (λ k, normalize_value (sample_at data aw k) min range)
    (Z.to_nat ah * Z.to_nat aw) d.
Proof.
  unfold paint. rewrite (for_lt_to_nat ah).
  induction (Z.to_nat ah) as [| h IH]; [reflexivity |].
  rewrite for_lt_S, IH. clear IH.
  replace (S h * Z.to_nat aw)%nat with (h * Z.to_nat aw + Z.to_nat aw)%nat by lia.
  rewrite (for_lt_to_nat aw).
  assert (Hgen : ∀ n, (n ≤ Z.to_nat aw)%nat →
    for_lt (Z.of_nat n)
      (λ x d1, put_pixel (byte_index aw h x)
                 (normalize_value (data_get data h x) min range) d1)
      (writes (λ k, normalize_value (sample_at data aw k) min range)
         (h * Z.to_nat aw) d) =
    writes (λ k, normalize_value (sample_at data aw k) min range)
      (h * Z.to_nat aw + n) d).
  { induction n as [| n IHn]; intros Hn.
    - rewrite Nat.add_0_r. reflexivity.
    - rewrite for_lt_S, IHn by lia.
      replace (h * Z.to_nat aw + S n)%nat with (S (h * Z.to_nat aw + n)) by lia.
      rewrite writes_S. f_equal.
      + unfold byte_index.
        rewrite <- (Z2Nat.id aw) at 1 by lia. lia.
      + unfold sample_at. f_equal. f_equal.
        * apply Nat.div_unique with n; lia.
        * apply Nat.mod_unique with h; lia. }
  apply Hgen. lia.
Qed.

Lemma dataToCanvas_ok_inv (env : Env) (data : TileData) (width height : Z)
    (w w' : World) (canvas : Canvas) :
  dataToCanvas env data width height w = (w', Ok canvas) →
  w' = {| this := store_min_max (this w) data;
          log := log w ++ [DataToCanvas (data_shape data)] |} ∧
  canvas =
    {| width := width; height := height;
       imageData :=
         writes
           (λ k, normalize_value
                   (sample_at data (data_shape data !!! 1%nat) k)
                   (min_used (this w) data) (range_used (this w) data))
           (Z.to_nat (data_shape data !!! 0%nat) *
            Z.to_nat (data_shape data !!! 1%nat))
           (replicate (Z.to_nat (Z.abs width * Z.abs height * 4)) 0) |}.
Proof.
  intros Hrun.
  destruct (decide (width = 0 ∨ height = 0)) as [Hz | Hnz].
  - rewrite dataToCanvas_throws in Hrun by exact Hz. discriminate.
  - rewrite dataToCanvas_run, paint_writes in Hrun by lia.
    by simplify_eq.
Qed.

(** C5: for every buffer that [dataToCanvas] rasterises, with [min] and
    [max] the pair of lines 279-280: each sample [(y, x)] whose four bytes
    lie within the image data is written as [(v, v, v, 255)] where [v] is
    [round(clamp((value - min) / (max - min || 1), 0, 1) * 255)] stored as a
    clamped byte; on finite numbers that value is itself an integer between
    0 and 255; every byte of the raster is between 0 and 255; and a new
    adapter given the samples 10, 20, 30 takes the pair (10, 30) and maps
    20 to 128. *)
Theorem C5_per_sample_mapping (env : Env) (data : TileData)
    (width height : Z) (w w' : World) (canvas : Canvas) :
  dataToCanvas env data width height w = (w', Ok canvas) →
  let actualWidth := data_shape data !!! 1%nat in
  let actualHeight := data_shape data !!! 0%nat in
  let min := min_used (this w) data in
  let max := max_used (this w) data in
  (∀ y x : nat,
     (y < Z.to_nat actualHeight)%nat → (x < Z.to_nat actualWidth)%nat →
     let idx := byte_index actualWidth y x in
     let v := toUint8Clamp (spec_intensity (data_get data y x) min max) in
     (idx + 3 < length (imageData canvas))%nat →
     imageData canvas !! idx = Some v ∧
     imageData canvas !! (idx + 1)%nat = Some v ∧
     imageData canvas !! (idx + 2)%nat = Some v ∧
     imageData canvas !! (idx + 3)%nat = Some 255) ∧
  (∀ value min max : Q,
     ∃ z : Z, 0 ≤ z ≤ 255 ∧
       spec_intensity (Fin value) (Fin min) (Fin max) = num_of_Z z ∧
       toUint8Clamp (num_of_Z z) = z) ∧
  Forall (λ b, 0 ≤ b ≤ 255) (imageData canvas) ∧
  (let r := dataToCanvas (env_serving []) (data_of_rows [[10; 20; 30]]) 3 1
              (fresh_world no_options []) in
   minValue (this r.1) = Some (num_of_Z 10) ∧
   maxValue (this r.1) = Some (num_of_Z 30) ∧
   r.2 = Ok {| width := 3; height := 1;
               imageData := [0; 0; 0; 255; 128; 128; 128; 255;
                             255; 255; 255; 255] |}).
Proof.
  intros Hrun actualWidth actualHeight min max.
  apply dataToCanvas_ok_inv in Hrun as [-> ->]. cbn [imageData].
  fold actualWidth actualHeight min.
  split; [| split; [| split]].
  - intros y x Hy Hx.
    set (idx := byte_index actualWidth y x).
    set (v := toUint8Clamp (spec_intensity (data_get data y x) min max)).
    rewrite writes_length. intros Hin.
    assert (Hidx : idx = (4 * (y * Z.to_nat actualWidth + x))%nat).
    { subst idx. unfold byte_index.
      rewrite <- (Z2Nat.id actualWidth) at 1 by lia. lia. }
    assert (Hk : sample_at data actualWidth (y * Z.to_nat actualWidth + x)
                 = data_get data y x).
    { unfold sample_at. f_equal.
      - symmetry. apply Nat.div_unique with x; lia.
      - symmetry. apply Nat.mod_unique with y; lia. }
    assert (Hv : toUint8Clamp
                   (normalize_value (data_get data y x) min
                      (range_used (this w) data)) = v).
    { subst v. unfold range_used. fold min max.
      by rewrite normalize_value_spec. }
    assert (Hk' : (y * Z.to_nat actualWidth + x <
                   Z.to_nat actualHeight * Z.to_nat actualWidth)%nat) by nia.
    replace idx with (idx + 0)%nat at 1 by lia.
    rewrite Hidx in *.
    rewrite !writes_lookup_pixel by lia.
    rewrite Hk, Hv. done.
  - intros value mn mx.
    destruct (spec_intensity_finite value mn mx) as (z & Hz & Heq).
    exists z. split; [exact Hz |]. split; [exact Heq |].
    by apply toUint8Clamp_integer.
  - apply writes_bounded, Forall_replicate. lia.
  - vm_compute. done.
Qed.

Lemma C5_witness :
  let data := data_of_rows [[10; 20; 30]] in
  let canvas := {| width := 3; height := 1;
                   imageData := [0; 0; 0; 255; 128; 128; 128; 255;
                                 255; 255; 255; 255] |} in
  imageData canvas !! 4%nat =
  Some (toUint8Clamp
          (spec_intensity (num_of_Z 20) (num_of_Z 10) (num_of_Z 30))).
Proof.
  intros data canvas.
  refine (proj1 (proj1
    (C5_per_sample_mapping (env_serving []) data 3 1
       (fresh_world no_options [])
       {| this := set_maxValue (Some (num_of_Z 30))
                    (set_minValue (Some (num_of_Z 10))
                       (this (fresh_world no_options [])));
          log := [DataToCanvas [1; 3]] |}
       canvas eq_refl) 0%nat 1%nat _ _ _)).
  - vm_compute. lia.
  - vm_compute. lia.
  - vm_compute. lia.
Defined.

(** *** Which pair is used *)

Lemma constructor_range_unset (url : string) (options : Options) :
  minValue (constructor url options) = None ∧
  maxValue (constructor url options) = None.
Proof. split; reflexivity. Qed.

(** With both fields set nothing is scanned and nothing is stored. *)
Lemma store_min_max_set (t : OmeZarrTileSource) (data : TileData) mn mx :
  minValue t = Some mn → maxValue t = Some mx →
  store_min_max t data = t ∧ local_min_max t data = (Some mn, Some mx).
Proof.
  intros Hmn Hmx. unfold store_min_max, local_min_max, scans.
  rewrite Hmn, Hmx. cbn [is_null orb]. rewrite andb_false_r. done.
Qed.

Lemma raster_with_eq (t : OmeZarrTileSource) (data : TileData)
    (width height : Z) :
  paint data (data_shape data !!! 0%nat) (data_shape data !!! 1%nat)
    (min_used t data) (range_used t data)
    (replicate (Z.to_nat (Z.abs width * Z.abs height * 4)) 0) =
  raster_with (min_used t data) (max_used t data) data width height.
Proof.
  rewrite paint_writes. unfold raster_with, range_used.
  apply writes_ext. intros k. apply normalize_value_spec.
Qed.

(** A pair stored in the fields is the pair in use, provided the stored
    maximum is neither 0 nor NaN and the stored minimum is not NaN. *)
Lemma stored_pair_used (t : OmeZarrTileSource) (data : TileData) mn mx :
  minValue t = Some mn → maxValue t = Some mx →
  truthy_num mn = true ∨ mn = num_of_Z 0 → truthy_num mx = true →
  min_used t data = mn ∧ max_used t data = mx.
Proof.
  intros Hmn Hmx Hmin Hmax.
  unfold min_used, max_used.
  destruct (store_min_max_set t data mn mx Hmn Hmx) as [-> ->].
  unfold effective_min, effective_max, or_else, or_number, truthy_opt.
  rewrite Hmn, Hmx, Hmax. cbn [fst snd]. rewrite Hmax.
  split; [| reflexivity].
  destruct Hmin as [Ht | ->]; [by rewrite Ht, Ht | reflexivity].
Qed.

(** C3 (amended): the constructor never takes a range from its options,
    both fields start as [null]; and when the fields [minValue] and
    [maxValue] of the instance hold a pair (the maximum neither 0 nor NaN,
    the minimum not NaN), every tile of a session is mapped with exactly
    that pair and the fields are never changed, so no range is computed
    from tile data. *)
Theorem C3_stored_pair_normalises_every_tile (env : Env)
    (tiles : list (TileData * Z * Z)) (w : World) (mn mx : number) :
  minValue (this w) = Some mn → maxValue (this w) = Some mx →
  truthy_num mn = true ∨ mn = num_of_Z 0 → truthy_num mx = true →
  let r := dataToCanvas_all env tiles w in
  this r.1 = this w ∧
  r.2 = (λ '(data, width, height),
           if decide (width = 0 ∨ height = 0)
           then Throw (index_size_error env)
           else Ok {| width := width; height := height;
                      imageData := raster_with mn mx data width height |})
        <$> tiles ∧
  (∀ url options,
     minValue (constructor url options) = None ∧
     maxValue (constructor url options) = None).
Proof.
  intros Hmn Hmx Hmin Hmax r. subst r.
  split; [| split; [| apply constructor_range_unset]];
    revert w Hmn Hmx.
  - induction tiles as [| [[data width] height] tiles IH]; intros w Hmn Hmx;
      [reflexivity |].
    cbn [dataToCanvas_all].
    destruct (dataToCanvas env data width height w) as [w1 r1] eqn:Hrun.
    assert (Hthis : this w1 = this w).
    { destruct (decide (width = 0 ∨ height = 0)) as [Hz | Hnz].
      - rewrite dataToCanvas_throws in Hrun by exact Hz. by simplify_eq.
      - rewrite dataToCanvas_run in Hrun by lia. simplify_eq. cbn [this].
        by destruct (store_min_max_set (this w) data mn mx Hmn Hmx). }
    specialize (IH w1). rewrite Hthis in IH.
    destruct (dataToCanvas_all env tiles w1) as [w2 rs].
    by apply IH.
  - induction tiles as [| [[data width] height] tiles IH]; intros w Hmn Hmx;
      [reflexivity |].
    cbn [dataToCanvas_all]. rewrite fmap_cons.
    destruct (decide (width = 0 ∨ height = 0)) as [Hz | Hnz].
    + rewrite dataToCanvas_throws by exact Hz.
      specialize (IH {| this := this w;
                        log := log w ++ [DataToCanvas (data_shape data)] |}
                    Hmn Hmx).
      destruct (dataToCanvas_all env tiles _) as [w2 rs].
      cbn [snd] in *. by rewrite IH.
    + rewrite dataToCanvas_run by lia.
      destruct (store_min_max_set (this w) data mn mx Hmn Hmx) as [Hst _].
      destruct (stored_pair_used (this w) data mn mx Hmn Hmx Hmin Hmax)
        as [Hmin_used Hmax_used].
      rewrite raster_with_eq, Hmin_used, Hmax_used, Hst.
      specialize (IH {| this := this w;
                        log := log w ++ [DataToCanvas (data_shape data)] |}
                    Hmn Hmx).
      destruct (dataToCanvas_all env tiles _) as [w2 rs].
      cbn [snd] in *. by rewrite IH.
Qed.

Lemma C3_witness :
  let w := {| this := set_maxValue (Some (num_of_Z 1000))
                        (set_minValue (Some (num_of_Z 0))
                           (constructor "zarr" no_options));
              log := [] |} in
  (dataToCanvas_all (env_serving [])
     [(data_of_rows [[10; 20; 30]], 3, 1)] w).2
  = [Ok {| width := 3; height := 1;
           imageData :=
             raster_with (num_of_Z 0) (num_of_Z 1000)
               (data_of_rows [[10; 20; 30]]) 3 1 |}].
Proof.
  intros w.
  exact (proj1 (proj2
    (C3_stored_pair_normalises_every_tile (env_serving [])
       [(data_of_rows [[10; 20; 30]], 3, 1)] w
       (num_of_Z 0) (num_of_Z 1000)
       eq_refl eq_refl (or_intror eq_refl) eq_refl))).
Defined.

(** C3 as stated fails: an adapter constructed with [fixedMin: 0] and
    [fixedMax: 1000] still computes its range from the first buffer: for the
    samples 10, 20, 30 it stores (10, 30) and writes 0, 128, 255, not the
    3, 5, 8 that the pair (0, 1000) gives. *)
Lemma C3_counterexample :
  let data := data_of_rows [[10; 20; 30]] in
  let r := dataToCanvas (env_serving []) data 3 1
             (fresh_world fixed_range_options []) in
  opt_fixedMin fixed_range_options = JNum (num_of_Z 0) ∧
  opt_fixedMax fixed_range_options = JNum (num_of_Z 1000) ∧
  minValue (this r.1) = Some (num_of_Z 10) ∧
  maxValue (this r.1) = Some (num_of_Z 30) ∧
  r.2 = Ok {| width := 3; height := 1;
              imageData := [0; 0; 0; 255; 128; 128; 128; 255;
                            255; 255; 255; 255] |} ∧
  raster_with (num_of_Z 0) (num_of_Z 1000) data 3 1 =
    [3; 3; 3; 255; 5; 5; 5; 255; 8; 8; 8; 255] ∧
  r.2 ≠ Ok {| width := 3; height := 1;
              imageData := raster_with (num_of_Z 0) (num_of_Z 1000) data 3 1 |}.
Proof. vm_compute. repeat split; try reflexivity. discriminate. Qed.

(** Under auto-normalisation, the first buffer rasterised on a new adapter
    is scanned and its extremes are stored; every later buffer leaves the
    stored pair as it is. *)
Lemma auto_pair_set_once (env : Env) (data : TileData) (width height : Z)
    (tiles : list (TileData * Z * Z)) (w : World) :
  autoNormalize (this w) = true →
  minValue (this w) = None → maxValue (this w) = None →
  width ≠ 0 → height ≠ 0 →
  let mm := scan_minmax data (data_shape data !!! 0%nat)
              (data_shape data !!! 1%nat) in
  let r := dataToCanvas_all env ((data, width, height) :: tiles) w in
  minValue (this r.1) = Some mm.1 ∧ maxValue (this r.1) = Some mm.2.
Proof.
  intros Hauto Hmn Hmx Hw Hh mm r. subst r. cbn [dataToCanvas_all].
  rewrite dataToCanvas_run by assumption.
  set (w1 := {| this := store_min_max (this w) data; log := _ |}).
  assert (Hst : minValue (this w1) = Some mm.1 ∧ maxValue (this w1) = Some mm.2).
  { subst w1. cbn [this]. unfold store_min_max, scans.
    rewrite Hauto, Hmn, Hmx. cbn [is_null orb andb]. fold mm.
    destruct mm as [mn mx]. done. }
  destruct Hst as [Hmn1 Hmx1].
  assert (Hfrozen : ∀ tiles w1,
            minValue (this w1) = Some mm.1 → maxValue (this w1) = Some mm.2 →
            this (dataToCanvas_all env tiles w1).1 = this w1).
  { clear. intros tiles.
    induction tiles as [| [[data' wd] ht] tiles IH]; intros w1 H1 H2;
      [reflexivity |].
    cbn [dataToCanvas_all].
    destruct (dataToCanvas env data' wd ht w1) as [w2 r2] eqn:Hrun.
    assert (Hthis : this w2 = this w1).
    { destruct (decide (wd = 0 ∨ ht = 0)) as [Hz | Hnz].
      - rewrite dataToCanvas_throws in Hrun by exact Hz. by simplify_eq.
      - rewrite dataToCanvas_run in Hrun by lia. simplify_eq. cbn [this].
        by destruct (store_min_max_set (this w1) data' _ _ H1 H2). }
    specialize (IH w2). rewrite Hthis in IH.
    destruct (dataToCanvas_all env tiles w2) as [w3 rs].
    by apply IH. }
  specialize (Hfrozen tiles w1 Hmn1 Hmx1).
  destruct (dataToCanvas_all env tiles w1) as [w2 rs].
  cbn [fst] in *. by rewrite Hfrozen.
Qed.

(** C6 at a failing input: a new adapter whose first buffer is all zeros
    stores the pair (0, 0), yet the next buffer is not mapped with that
    pair: line 280 replaces the stored maximum 0 by 255, so the samples
    0, 100, 200, 255 come out as 0, 100, 200, 255 where the stored pair
    gives 0, 255, 255, 255. *)
Theorem C6_stored_zero_maximum_is_not_used :
  let first := data_of_rows [[0; 0]; [0; 0]] in
  let second := data_of_rows [[0; 100]; [200; 255]] in
  let r := dataToCanvas_all (env_serving [])
             [(first, 2, 2); (second, 2, 2)] (fresh_world no_options []) in
  autoNormalize (this (fresh_world no_options [])) = true ∧
  minValue (this r.1) = Some (num_of_Z 0) ∧
  maxValue (this r.1) = Some (num_of_Z 0) ∧
  max_used (this r.1) second = num_of_Z 255 ∧
  r.2 !! 1%nat =
    Some (Ok {| width := 2; height := 2;
                imageData := [0; 0; 0; 255; 100; 100; 100; 255;
                              200; 200; 200; 255; 255; 255; 255; 255] |}) ∧
  raster_with (num_of_Z 0) (num_of_Z 0) second 2 2 =
    [0; 0; 0; 255; 255; 255; 255; 255;
     255; 255; 255; 255; 255; 255; 255; 255].
Proof. vm_compute. repeat split; reflexivity. Qed.

(** *** Raster size *)

(** The canvas always has the nominal size it was asked for, whatever the
    shape of the buffer. *)
Lemma canvas_has_nominal_size (env : Env) (data : TileData)
    (tileWidth tileHeight : Z) (w w' : World) (canvas : Canvas) :
  dataToCanvas env data tileWidth tileHeight w = (w', Ok canvas) →
  width canvas = tileWidth ∧ height canvas = tileHeight ∧
  length (imageData canvas) =
    Z.to_nat (Z.abs tileWidth * Z.abs tileHeight * 4).
Proof.
  intros Hrun. apply dataToCanvas_ok_inv in Hrun as [_ ->].
  cbn [width height imageData].
  by rewrite writes_length, length_replicate.
Qed.

(** On a miss at a valid level the one region read is the clamped
    rectangle of the tile, which ends within the level's shape. *)
Lemma miss_reads_clamped_region (env : Env) (L x y : Z) (w : World)
    (zarrLevel : ZarrLevel) :
  Map_has (cacheKey L x y) (tileCache (this w)) = false →
  let total := Z.of_nat (length (zarrArrays (this w))) in
  0 ≤ L ≤ total - 1 →
  zarrArrays (this w) !! Z.to_nat (total - 1 - L) = Some zarrLevel →
  let w' := downloadTileStart env
              {| tile := Some {| level := L; x := x; y := y |} |} w in
  let '(channel, rows, cols) := tile_region (array zarrLevel) x y in
  region_reads (log w') =
    region_reads (log w) ++ [(total - 1 - L, channel, rows, cols)].
Proof.
  intros Hmiss total HL Hlk w'.
  subst w'. unfold downloadTileStart, getTileImage. unfold_M. simpl.
  rewrite Hmiss. fold total.
  assert (Hin : (zarrLevelIndex total L <? 0)
                || (zarrLevelIndex total L >=? total) = false).
  { unfold zarrLevelIndex. apply orb_false_iff. split; lia. }
  rewrite Hin. unfold zarrLevelIndex at 1. rewrite Hlk.
  unfold tile_region, zarrLevelIndex.
  destruct (length (shape (array zarrLevel)) =? 3)%nat.
  all: unfold await_get; unfold_M; simpl.
  all: destruct (array_get env _ _ _ _) as [tileData | message |]; simpl;
    [| rewrite !region_reads_app; simpl; by rewrite ?app_nil_r
     | rewrite !region_reads_app; simpl; by rewrite ?app_nil_r].
  all: destruct (dataToCanvas env tileData _ _ _) as [w1 [canvas | message |]]
      eqn:Hd; [| | by destruct (dataToCanvas_settles _ _ _ _ _ _ Hd)];
      apply dataToCanvas_log in Hd; simpl in Hd.
  all: unfold addToCache, load_image; unfold_M; simpl.
  all: rewrite Hd, !region_reads_app; simpl; by rewrite !app_nil_r.
Qed.

(** C2 at a failing input: the level has shape [1, 3, 3] in chunks of
    [1, 2, 2]; the tile [(x = 1, y = 0)] crosses the right edge.  The read
    is clamped to rows [0, 2), columns [2, 3) and the buffer is 2 by 1, but
    the canvas is the nominal 2 by 2, and the second sample, of row 1, is
    written at byte 4, the second pixel of row 0. *)
Theorem C2_edge_tile_raster_has_nominal_size :
  let data := data_of_rows [[10]; [30]] in
  let w' := downloadTileStart (env_serving [[10]; [30]])
              {| tile := Some {| level := 0; x := 1; y := 0 |} |}
              (fresh_world no_options pyramid_3) in
  let canvas := {| width := 2; height := 2;
                   imageData := [0; 0; 0; 255; 255; 255; 255; 255;
                                 0; 0; 0; 0; 0; 0; 0; 0] |} in
  log w' = [ArrayGet 0 (Some 0) (0, 2) (2, 3);
            DataToCanvas [2; 1];
            Finish (Image canvas)] ∧
  data_shape data = [2; 1] ∧
  (width canvas, height canvas) = (2, 2) ∧
  spec_raster data (num_of_Z 10) (num_of_Z 30) =
    [0; 0; 0; 255; 255; 255; 255; 255] ∧
  imageData canvas ≠ spec_raster data (num_of_Z 10) (num_of_Z 30).
Proof. vm_compute. repeat split; try reflexivity. discriminate. Qed.

(** ** Cache keys *)

Lemma pretty_N_char_digit (x : N) : is_digit (pretty_N_char x) = true.
Proof. unfold pretty_N_char. by repeat case_match. Qed.

Lemma pretty_N_go_digits (x : N) (s : string) :
  all_digits s = true → all_digits (pretty_N_go x s) = true.
Proof.
  revert s. induction (N.lt_wf_0 x) as [x _ IH]. intros s Hs.
  destruct (decide (x = 0)%N) as [-> | Hx]; [by rewrite pretty_N_go_0 |].
  rewrite pretty_N_go_step by lia.
  apply IH; [apply N.div_lt; lia |].
  simpl. by rewrite pretty_N_char_digit, Hs.
Qed.

Lemma pretty_N_go_length (x : N) (s : string) :
  (String.length s ≤ String.length (pretty_N_go x s))%nat.
Proof.
  revert s. induction (N.lt_wf_0 x) as [x _ IH]. intros s.
  destruct (decide (x = 0)%N) as [-> | Hx]; [by rewrite pretty_N_go_0 |].
  rewrite pretty_N_go_step by lia.
  etrans; [| apply IH, N.div_lt; lia]. simpl. lia.
Qed.

(** A printed natural number is a non-empty string of digits. *)
Lemma pretty_N_shape (x : N) :
  ∃ c s, pretty x = String c s ∧ is_digit c = true ∧ all_digits s = true.
Proof.
  assert (Hd : all_digits (pretty x) = true).
  { unfold pretty, pretty_N. case_decide; [reflexivity |].
    by apply pretty_N_go_digits. }
  assert (Hl : (1 ≤ String.length (pretty x))%nat).
  { unfold pretty, pretty_N. case_decide; [simpl; lia |].
    rewrite pretty_N_go_step by lia.
    etrans; [| apply pretty_N_go_length]. simpl. lia. }
  destruct (pretty x) as [| c s]; [simpl in Hl; lia |].
  simpl in Hd. apply andb_true_iff in Hd as [Hc Hs]. eauto.
Qed.

Lemma digits_then_dash (d d' r r' : string) :
  all_digits d = true → all_digits d' = true →
  d +:+ "-" +:+ r = d' +:+ "-" +:+ r' → d = d' ∧ r = r'.
Proof.
  revert d'. induction d as [| c d IH]; intros [| c' d'] Hd Hd' Heq;
    simpl in *.
  - by simplify_eq.
  - simplify_eq; try discriminate.
  - simplify_eq; try discriminate.
  - apply andb_true_iff in Hd as [_ Hd], Hd' as [_ Hd'].
    injection Heq as -> Heq. destruct (IH d' Hd Hd' Heq) as [-> ->]. done.
Qed.

Lemma pretty_Z_then_dash (a b : Z) (r r' : string) :
  pretty a +:+ "-" +:+ r = pretty b +:+ "-" +:+ r' → a = b ∧ r = r'.
Proof.
  assert (Hnonneg : ∀ z, 0 ≤ z →
            ∃ c s, pretty z = String c s ∧ is_digit c = true ∧
                   all_digits s = true).
  { intros [| p | p] Hz; [by exists "0"%char, EmptyString | | lia].
    apply (pretty_N_shape (N.pos p)). }
  assert (Hneg : ∀ z, z < 0 →
            ∃ c s, pretty z = String "-" (String c s) ∧ is_digit c = true ∧
                   all_digits s = true).
  { intros [| p | p] Hz; [lia | lia |].
    destruct (pretty_N_shape (N.pos p)) as (c & s & Hp & Hc & Hs).
    exists c, s.
    change (pretty (Z.neg p)) with ("-" +:+ pretty (N.pos p)).
    by rewrite Hp. }
  intros Heq.
  destruct (Z.lt_ge_cases a 0) as [Ha | Ha], (Z.lt_ge_cases b 0) as [Hb | Hb].
  - destruct (Hneg a Ha) as (c & s & Hpa & Hc & Hs).
    destruct (Hneg b Hb) as (c' & s' & Hpb & Hc' & Hs').
    rewrite Hpa, Hpb in Heq. simpl in Heq. injection Heq as Hcc Hrest.
    subst c'.
    destruct (digits_then_dash s s' r r' Hs Hs' Hrest) as [-> ->].
    split; [| done]. apply (inj pretty). by rewrite Hpa, Hpb.
  - destruct (Hneg a Ha) as (c & s & Hpa & Hc & Hs).
    destruct (Hnonneg b Hb) as (c' & s' & Hpb & Hc' & Hs').
    rewrite Hpa, Hpb in Heq. simpl in Heq. injection Heq as <- _.
    discriminate.
  - destruct (Hnonneg a Ha) as (c & s & Hpa & Hc & Hs).
    destruct (Hneg b Hb) as (c' & s' & Hpb & Hc' & Hs').
    rewrite Hpa, Hpb in Heq. simpl in Heq. injection Heq as -> _.
    discriminate.
  - destruct (Hnonneg a Ha) as (c & s & Hpa & Hc & Hs).
    destruct (Hnonneg b Hb) as (c' & s' & Hpb & Hc' & Hs').
    rewrite Hpa, Hpb in Heq.
    destruct (digits_then_dash (String c s) (String c' s') r r') as [Hd ->].
    { simpl. by rewrite Hc, Hs. } { simpl. by rewrite Hc', Hs'. } { exact Heq. }
    split; [| done]. apply (inj pretty). by rewrite Hpa, Hpb, Hd.
Qed.

Lemma cacheKey_level_inj (L x y L' x' y' : Z) :
  cacheKey L x y = cacheKey L' x' y' → L = L'.
Proof.
  unfold cacheKey. intros Heq. by apply pretty_Z_then_dash in Heq as [-> _].
Qed.

Lemma cacheKey_inj (L x y L' x' y' : Z) :
  cacheKey L x y = cacheKey L' x' y' → L = L' ∧ x = x' ∧ y = y'.
Proof.
  unfold cacheKey. intros Heq.
  apply pretty_Z_then_dash in Heq as [-> Heq].
  apply pretty_Z_then_dash in Heq as [-> Heq].
  by apply (inj pretty) in Heq as ->.
Qed.

(** ** Sessions *)

(** [dataToCanvas] touches only the stored range. *)
Lemma store_min_max_fields (t : OmeZarrTileSource) (data : TileData) :
  zarrArrays (store_min_max t data) = zarrArrays t ∧
  tileCache (store_min_max t data) = tileCache t ∧
  maxCacheSize (store_min_max t data) = maxCacheSize t ∧
  autoNormalize (store_min_max t data) = autoNormalize t.
Proof.
  unfold store_min_max. destruct (scans t); [| done].
  destruct (scan_minmax _ _ _) as [mn mx].
  destruct (is_null (minValue t)), (is_null (maxValue t)); done.
Qed.

Lemma dataToCanvas_fields (env : Env) (data : TileData) (width height : Z)
    (w w' : World) (r : Result Canvas) :
  dataToCanvas env data width height w = (w', r) →
  zarrArrays (this w') = zarrArrays (this w) ∧
  tileCache (this w') = tileCache (this w) ∧
  maxCacheSize (this w') = maxCacheSize (this w).
Proof.
  intros Hrun.
  destruct (decide (width = 0 ∨ height = 0)) as [Hz | Hnz].
  - rewrite dataToCanvas_throws in Hrun by exact Hz. by simplify_eq.
  - rewrite dataToCanvas_run in Hrun by lia. simplify_eq. cbn [this].
    destruct (store_min_max_fields (this w) data) as (? & ? & ? & ?). done.
Qed.

(** What a request does to the cache: nothing, or one [addToCache] under
    the key of the requested tile, whose level then exists. *)
Lemma downloadTileStart_cache (env : Env) (context : Context) (w : World) :
  let w' := downloadTileStart env context w in
  let total := Z.of_nat (length (zarrArrays (this w))) in
  zarrArrays (this w') = zarrArrays (this w) ∧
  maxCacheSize (this w') = maxCacheSize (this w) ∧
  (tileCache (this w') = tileCache (this w) ∨
   ∃ L x y canvas,
     0 ≤ L ≤ total - 1 ∧
     tileCache (this w') =
       addToCache_map (maxCacheSize (this w)) (cacheKey L x y) canvas
         (tileCache (this w))).
Proof.
  intros w' total. subst w'.
  unfold downloadTileStart, getTileImage.
  destruct (tile context) as [[L x y] |]; unfold_M; simpl; [| auto].
  destruct (Map_has _ _) eqn:Hhas.
  { destruct (Map_get _ _); unfold load_image; unfold_M; simpl; auto. }
  fold total.
  destruct (_ || _) eqn:Hlevel; simpl; [auto |].
  apply orb_false_iff in Hlevel as [Hlo Hhi]. unfold zarrLevelIndex in *.
  destruct (zarrArrays (this w) !! _) as [zarrLevel |]; simpl; [| auto].
  set (sel := if (length (shape (array zarrLevel)) =? 3)%nat then _ else _).
  assert (Hsel : ∃ i c rows cols, sel = await_get env i c rows cols).
  { subst sel. destruct (_ =? _)%nat; eauto 8. }
  destruct Hsel as (i & c & rows & cols & ->).
  unfold await_get. unfold_M. simpl.
  destruct (array_get env i c rows cols) as [tileData | message |]; simpl;
    [| auto | auto].
  destruct (dataToCanvas env tileData _ _ _) as [w1 [canvas | message |]]
    eqn:Hd; [| | by destruct (dataToCanvas_settles _ _ _ _ _ _ Hd)];
    apply dataToCanvas_fields in Hd as (Hz & Hc & Hm); simpl in Hz, Hc, Hm.
  - unfold addToCache, load_image. unfold_M. simpl.
    rewrite Hz, Hc, Hm. split; [done |]. split; [done |]. right.
    exists L, x, y, canvas. split; [lia | reflexivity].
  - simpl. rewrite Hz, Hc, Hm. auto.
Qed.

Lemma Map_delete_keys {V} (k k' : string) (m : list (string * V)) :
  k ∈ Map_keys (Map_delete k' m) → k ∈ Map_keys m.
Proof.
  unfold Map_keys. induction m as [| [k0 v0] m IH]; [done |].
  cbn [Map_delete]. destruct (String.eqb k' k0).
  - rewrite fmap_cons, elem_of_cons. by right.
  - rewrite !fmap_cons, !elem_of_cons. intros [-> | Hin]; [by left |].
    right. by apply IH.
Qed.

Lemma addToCache_map_keys (cap : jsval) (key k : string) (canvas : Canvas)
    (cache : list (string * Canvas)) :
  k ∈ Map_keys (addToCache_map cap key canvas cache) →
  k = key ∨ k ∈ Map_keys cache.
Proof.
  unfold addToCache_map.
  set (cache' := if num_ge _ _ then _ else _).
  assert (Hsub : ∀ k, k ∈ Map_keys cache' → k ∈ Map_keys cache).
  { subst cache'. intros k0. destruct (num_ge _ _); [| done].
    destruct (Map_first_key cache); [apply Map_delete_keys | done]. }
  rewrite Map_keys_set.
  destruct (Map_has key cache'); [auto |].
  rewrite elem_of_app, list_elem_of_singleton. intros [Hin | ->]; auto.
Qed.

(** The cache of a session only ever holds keys of tiles of existing
    levels. *)
Lemma session_invariant (options : Options) (levels : list ZarrLevel)
    (requests : list (Env * Context)) :
  let w := run_session requests (fresh_world options levels) in
  zarrArrays (this w) = levels ∧
  valid_keys (Z.of_nat (length levels)) (tileCache (this w)).
Proof.
  induction requests as [| [env context] requests IH] using rev_ind.
  - split; [reflexivity |]. intros k Hk. by apply elem_of_nil in Hk.
  - unfold run_session in *. rewrite foldl_app. cbn [foldl fst snd].
    set (w := foldl _ _ requests) in *. cbn zeta in IH.
    destruct IH as [Hlevels Hkeys].
    destruct (downloadTileStart_cache env context w) as (Hz & _ & Hcache).
    cbn zeta. split; [by rewrite Hz |].
    destruct Hcache as [-> | (L & x & y & canvas & HL & ->)]; [done |].
    intros k Hk. apply addToCache_map_keys in Hk as [-> | Hk]; [| by apply Hkeys].
    rewrite Hlevels in HL. eauto.
Qed.

(** C1: in any session of an adapter with [total] levels, a request for
    engine level [L]: the storage level computed is [total - 1 - L] (so
    level 0 maps to [total - 1]); if [0 <= L <= total - 1] and the tile is
    not cached, the one region read goes to the array of storage level
    [total - 1 - L], for the clamped rectangle of the tile; and whenever
    [total - 1 - L] is outside [0, total - 1] the request is failed with the
    invalid-level message, nothing is read and the instance is unchanged. *)
Theorem C1_level_inversion (options : Options) (levels : list ZarrLevel)
    (requests : list (Env * Context)) (env : Env) (L x y : Z) :
  let w := run_session requests (fresh_world options levels) in
  let total := Z.of_nat (length levels) in
  let w' := downloadTileStart env
              {| tile := Some {| level := L; x := x; y := y |} |} w in
  zarrLevelIndex total L = total - 1 - L ∧
  zarrLevelIndex total 0 = total - 1 ∧
  (0 ≤ L ≤ total - 1 →
   Map_has (cacheKey L x y) (tileCache (this w)) = false →
   ∃ zarrLevel,
     levels !! Z.to_nat (total - 1 - L) = Some zarrLevel ∧
     let '(channel, rows, cols) := tile_region (array zarrLevel) x y in
     region_reads (log w') =
       region_reads (log w) ++ [(total - 1 - L, channel, rows, cols)]) ∧
  (¬ (0 ≤ zarrLevelIndex total L ≤ total - 1) →
   w' = {| this := this w;
           log := log w ++
             [Finish (Failure
                (invalid_level_message (zarrLevelIndex total L) total))] |}).
Proof.
  intros w total w'.
  destruct (session_invariant options levels requests) as [Hlevels Hkeys].
  fold w in Hlevels, Hkeys. fold total in Hkeys.
  split; [reflexivity |]. split; [unfold zarrLevelIndex; lia |]. split.
  - intros HL Hmiss.
    destruct (lookup_lt_is_Some_2 levels (Z.to_nat (total - 1 - L)))
      as [zarrLevel Hlk]; [subst total; lia |].
    exists zarrLevel. split; [exact Hlk |].
    pose proof (miss_reads_clamped_region env L x y w zarrLevel Hmiss) as H.
    cbn zeta in H. rewrite Hlevels in H. fold total in H.
    by apply H.
  - intros Hout.
    assert (Hmiss : Map_has (cacheKey L x y) (tileCache (this w)) = false).
    { destruct (Map_has _ _) eqn:Hhas; [| reflexivity].
      apply Map_has_keys, Hkeys in Hhas as (L' & x' & y' & Heq & HL').
      apply cacheKey_inj in Heq as (-> & _ & _).
      unfold zarrLevelIndex in Hout. lia. }
    pose proof (level_inversion_on_miss env L x y w Hmiss) as H.
    cbn zeta in H. rewrite Hlevels in H. fold total in H.
    destruct H as (_ & _ & H). by apply H.
Qed.

Lemma C1_witness :
  region_reads
    (log (downloadTileStart (env_serving [])
            {| tile := Some {| level := 2; x := 0; y := 0 |} |}
            (run_session [] (fresh_world no_options pyramid_1000))))
  = [(0, Some 0, (0, 256), (0, 256))].
Proof.
  destruct (C1_level_inversion no_options pyramid_1000 [] (env_serving [])
              2 0 0) as (_ & _ & H & _).
  destruct H as (zarrLevel & Hlk & H); [simpl; lia | reflexivity |].
  injection Hlk as <-. exact H.
Defined.

(** The cache bound along a session: an adapter constructed with
    [maxCacheSize: N], [N >= 1], never caches more than [N] tiles. *)
Lemma session_cache_bound (N : nat) (options : Options)
    (levels : list ZarrLevel) (requests : list (Env * Context)) :
  (1 ≤ N)%nat →
  opt_maxCacheSize options = JNum (num_of_Z (Z.of_nat N)) →
  let w := run_session requests (fresh_world options levels) in
  maxCacheSize (this w) = JNum (num_of_Z (Z.of_nat N)) ∧
  (length (tileCache (this w)) ≤ N)%nat.
Proof.
  intros HN Hopt.
  induction requests as [| [env context] requests IH] using rev_ind.
  - cbn. unfold js_or. rewrite Hopt. cbn.
    destruct (Z.of_nat N =? 0) eqn:E; [lia |]. split; [reflexivity | lia].
  - unfold run_session in *. rewrite foldl_app. cbn [foldl fst snd].
    set (w := foldl _ _ requests) in *. cbn zeta in IH.
    destruct IH as [Hcap Hlen].
    destruct (downloadTileStart_cache env context w) as (_ & Hm & Hcache).
    cbn zeta. split; [by rewrite Hm |].
    destruct Hcache as [-> | (L & x & y & canvas & _ & ->)]; [done |].
    rewrite Hcap. by apply addToCache_map_bound.
Qed.

(** * Further properties of the adapter *)

(** ** The scan of the first buffer *)

Lemma num_lt_irrefl (a : number) : num_lt a a = false.
Proof.
  destruct a as [| | | q]; try reflexivity.
  simpl. rewrite (proj2 (Qle_bool_iff q q)); [reflexivity | apply Qle_refl].
Qed.

Lemma num_lt_trans (a b c : number) :
  num_lt a b = true → num_lt b c = true → num_lt a c = true.
Proof.
  destruct a as [| | | p], b as [| | | q], c as [| | | r];
    simpl; try done.
  rewrite !negb_true_iff. intros H1 H2. q_reflect.
  apply Qle_bool_false. lra.
Qed.

(** An invariant carried through a [for] loop. *)
Lemma for_lt_invariant {S : Type} (P : nat → S → Prop) (n : Z)
    (body : nat → S → S) (s : S) :
  P 0%nat s →
  (∀ i s, (i < Z.to_nat n)%nat → P i s → P (Datatypes.S i) (body i s)) →
  P (Z.to_nat n) (for_lt n body s).
Proof.
  intros H0 Hstep. rewrite for_lt_to_nat.
  induction (Z.to_nat n) as [| k IH]; [exact H0 |].
  rewrite for_lt_S. apply Hstep; [lia |]. apply IH.
  intros i s' Hi. apply Hstep. lia.
Qed.

Lemma scan_step (data : TileData) (seen : nat → nat → Prop)
    (mm : number * number) (y x : nat) :
  scanned data seen mm →
  scanned data (λ y' x', seen y' x' ∨ (y' = y ∧ x' = x))
    (let value := data_get data y x in
     (if num_lt value mm.1 then value else mm.1,
      if num_gt value mm.2 then value else mm.2)).
Proof.
  intros (Hb & Hmin & Hmax). cbn zeta.
  set (v := data_get data y x). split; [| split]; cbn [fst snd].
  - intros y' x' [Hseen | [-> ->]]; fold v.
    + destruct (Hb y' x' Hseen) as [H1 H2]. split.
      * destruct (num_lt v mm.1) eqn:E; [| exact H1].
        destruct (num_lt (data_get data y' x') v) eqn:E'; [| reflexivity].
        by rewrite (num_lt_trans _ _ _ E' E) in H1.
      * unfold num_gt in *.
        destruct (num_lt mm.2 v) eqn:E; [| exact H2].
        destruct (num_lt v (data_get data y' x')) eqn:E'; [| reflexivity].
        by rewrite (num_lt_trans _ _ _ E E') in H2.
    + split.
      * destruct (num_lt v mm.1) eqn:E; [apply num_lt_irrefl | exact E].
      * unfold num_gt. destruct (num_lt mm.2 v) eqn:E;
          [apply num_lt_irrefl | exact E].
  - destruct (num_lt v mm.1).
    + right. exists y, x. auto.
    + destruct Hmin as [? | (y' & x' & ? & ?)]; [by left |].
      right. exists y', x'. auto.
  - destruct (num_gt v mm.2).
    + right. exists y, x. auto.
    + destruct Hmax as [? | (y' & x' & ? & ?)]; [by left |].
      right. exists y', x'. auto.
Qed.

Lemma scanned_ext (data : TileData) (seen seen' : nat → nat → Prop)
    (mm : number * number) :
  (∀ y x, seen y x ↔ seen' y x) → scanned data seen mm → scanned data seen' mm.
Proof.
  intros Heq (Hb & Hmin & Hmax). split; [| split].
  - intros y x Hs. apply Hb, Heq, Hs.
  - destruct Hmin as [? | (y & x & ? & ?)]; [by left |].
    right. exists y, x. split; [by apply Heq | done].
  - destruct Hmax as [? | (y & x & ? & ?)]; [by left |].
    right. exists y, x. split; [by apply Heq | done].
Qed.

Lemma scan_minmax_scanned (data : TileData) (actualHeight actualWidth : Z) :
  scanned data
    (λ y x, (y < Z.to_nat actualHeight)%nat ∧ (x < Z.to_nat actualWidth)%nat)
    (scan_minmax data actualHeight actualWidth).
Proof.
  unfold scan_minmax.
  apply (scanned_ext data
           (λ y x, (y < Z.to_nat actualHeight)%nat ∧
                   (x < Z.to_nat actualWidth)%nat ∧ True));
    [intros y x; tauto |].
  pose (P := λ (h : nat) mm,
    scanned data (λ y x, (y < h)%nat ∧ (x < Z.to_nat actualWidth)%nat ∧ True) mm).
  apply (for_lt_invariant P).
  - split; [| split]; cbn; [lia | by left | by left].
  - intros h mm Hh HP. subst P. cbn beta in *.
    pose (Q := λ (n : nat) mm',
      scanned data
        (λ y x, ((y < h)%nat ∧ (x < Z.to_nat actualWidth)%nat ∧ True) ∨
                (y = h ∧ (x < n)%nat)) mm').
    apply (scanned_ext data
             (λ y x, ((y < h)%nat ∧ (x < Z.to_nat actualWidth)%nat ∧ True) ∨
                     (y = h ∧ (x < Z.to_nat actualWidth)%nat)));
      [intros y x; lia |].
    apply (for_lt_invariant Q).
    + refine (scanned_ext data _ _ mm _ HP). intros y x. lia.
    + intros n [mn mx] Hn HQ. subst Q. cbn beta in *.
      apply (scan_step data _ _ h n) in HQ.
      refine (scanned_ext data _ _ _ _ HQ). intros y x. lia.
Qed.

(** ** A closed form of the per-sample mapping *)

Lemma Qfloor_unique (x : Q) (z : Z) :
  (inject_Z z <= x)%Q → (x < inject_Z (z + 1))%Q → Qfloor x = z.
Proof.
  intros Hlo Hhi.
  pose proof (Qfloor_le x) as H1. pose proof (Qlt_floor x) as H2.
  assert (Ha : (inject_Z z < inject_Z (Qfloor x + 1))%Q)
    by (eapply Qle_lt_trans; eauto).
  assert (Hb : (inject_Z (Qfloor x) < inject_Z (z + 1))%Q)
    by (eapply Qle_lt_trans; eauto).
  rewrite <- Zlt_Qlt in Ha, Hb. lia.
Qed.

Lemma Qnum_nonzero (q : Q) : Qnum q ≠ 0 ↔ ¬ (q == 0)%Q.
Proof. unfold Qeq. simpl. lia. Qed.

(** On finite numbers and a range that is not zero, lines 288-289 and the
    store into the byte array amount to rounding and then clamping. *)
Lemma normalize_closed_form (v mn r : Q) :
  Qnum r ≠ 0 →
  toUint8Clamp (normalize_value (Fin v) (Fin mn) (Fin r)) =
  Z.min 255 (Z.max 0 (Qfloor ((v - mn) / r * (255 # 1) + (1 # 2)))).
Proof.
  intros Hr. unfold normalize_value. cbn [num_sub num_div].
  apply Z.eqb_neq in Hr. rewrite Hr.
  set (p := ((v - mn) / r)%Q).
  unfold num_mul, num_of_Z, Math_max, Math_min, num_lt.
  change (inject_Z 255) with (255 # 1)%Q. change (inject_Z 0) with (0 # 1)%Q.
  destruct (Qle_bool (p * (255 # 1)) (0 # 1)) eqn:E1; cbn [negb].
  - change (Qle_bool (255 # 1) (0 # 1)) with false. cbn [negb].
    q_reflect.
    assert (H : Qfloor (p * (255 # 1) + (1 # 2)) ≤ Qfloor (1 # 2)).
    { apply Qfloor_resp_le. lra. }
    change (Qfloor (1 # 2)) with 0 in H.
    change (toUint8Clamp (Math_round (Fin (0 # 1)))) with 0. lia.
  - destruct (Qle_bool (255 # 1) (p * (255 # 1))) eqn:E2; cbn [negb];
      q_reflect.
    + assert (H : Qfloor (511 # 2) ≤ Qfloor (p * (255 # 1) + (1 # 2))).
      { apply Qfloor_resp_le. lra. }
      change (Qfloor (511 # 2)) with 255 in H.
      change (toUint8Clamp (Math_round (Fin (255 # 1)))) with 255. lia.
    + cbn [Math_round]. fold (num_of_Z (Qfloor (p * (255 # 1) + (1 # 2)))).
      assert (H1 : Qfloor (1 # 2) ≤ Qfloor (p * (255 # 1) + (1 # 2))).
      { apply Qfloor_resp_le. lra. }
      assert (H2 : Qfloor (p * (255 # 1) + (1 # 2)) ≤ Qfloor (511 # 2)).
      { apply Qfloor_resp_le. lra. }
      change (Qfloor (1 # 2)) with 0 in H1.
      change (Qfloor (511 # 2)) with 255 in H2.
      rewrite toUint8Clamp_integer by lia. lia.
Qed.

(** The mapping preserves the order of the samples when the range is
    positive. *)
Lemma normalize_monotone (v1 v2 mn r : Q) :
  (0 < r)%Q → (v1 <= v2)%Q →
  toUint8Clamp (normalize_value (Fin v1) (Fin mn) (Fin r)) ≤
  toUint8Clamp (normalize_value (Fin v2) (Fin mn) (Fin r)).
Proof.
  intros Hr Hv.
  assert (Hnz : Qnum r ≠ 0) by (apply Qnum_nonzero; lra).
  rewrite !normalize_closed_form by exact Hnz.
  assert (H : Qfloor ((v1 - mn) / r * (255 # 1) + (1 # 2)) ≤
              Qfloor ((v2 - mn) / r * (255 # 1) + (1 # 2))).
  { apply Qfloor_resp_le.
    assert (Hd : ((v1 - mn) / r <= (v2 - mn) / r)%Q).
    { unfold Qdiv. apply Qmult_le_compat_r; [lra |].
      apply Qinv_le_0_compat. lra. }
    lra. }
  lia.
Qed.

(** ** The raster of one buffer *)

(** The byte written for a sample, in terms of lines 288-289. *)
Lemma canvas_sample_byte (env : Env) (data : TileData) (tileWidth tileHeight : Z)
    (w w' : World) (canvas : Canvas) (y x c : nat) :
  dataToCanvas env data tileWidth tileHeight w = (w', Ok canvas) →
  (y < Z.to_nat (data_shape data !!! 0%nat))%nat →
  (x < Z.to_nat (data_shape data !!! 1%nat))%nat →
  (c < 4)%nat →
  (byte_index (data_shape data !!! 1%nat) y x + c < length (imageData canvas))%nat →
  imageData canvas !! (byte_index (data_shape data !!! 1%nat) y x + c)%nat =
  Some (if decide (c = 3)%nat then 255
        else toUint8Clamp
               (normalize_value (data_get data y x)
                  (min_used (this w) data) (range_used (this w) data))).
Proof.
  intros Hrun Hy Hx Hc.
  apply dataToCanvas_ok_inv in Hrun as [_ ->]. cbn [imageData].
  set (aw := data_shape data !!! 1%nat) in *.
  set (ah := data_shape data !!! 0%nat) in *.
  rewrite writes_length. intros Hin.
  assert (Hidx : byte_index aw y x = (4 * (y * Z.to_nat aw + x))%nat).
  { unfold byte_index. rewrite <- (Z2Nat.id aw) at 1 by lia. lia. }
  assert (Hk : sample_at data aw (y * Z.to_nat aw + x) = data_get data y x).
  { unfold sample_at. f_equal.
    - symmetry. apply Nat.div_unique with x; lia.
    - symmetry. apply Nat.mod_unique with y; lia. }
  rewrite Hidx in *.
  rewrite writes_lookup_pixel by nia.
  by rewrite Hk.
Qed.

(** What a new adapter with auto-normalisation uses for its first buffer. *)
Lemma first_buffer_pair (t : OmeZarrTileSource) (data : TileData)
    (mn mx : number) :
  autoNormalize t = true → minValue t = None → maxValue t = None →
  scan_minmax data (data_shape data !!! 0%nat) (data_shape data !!! 1%nat)
    = (mn, mx) →
  store_min_max t data = set_maxValue (Some mx) (set_minValue (Some mn) t) ∧
  min_used t data = (if truthy_num mn then mn else num_of_Z 0) ∧
  max_used t data = (if truthy_num mx then mx else num_of_Z 255).
Proof.
  intros Hauto Hmn Hmx Hscan.
  unfold min_used, max_used, store_min_max, local_min_max, scans.
  rewrite Hauto, Hmn, Hmx, Hscan. cbn [is_null orb andb fst snd].
  unfold effective_min, effective_max, or_else, or_number, truthy_opt.
  cbn [minValue maxValue set_maxValue set_minValue].
  split; [reflexivity |].
  split.
  - destruct (truthy_num mn) eqn:E; cbn; rewrite ?E; reflexivity.
  - destruct (truthy_num mx) eqn:E; cbn; rewrite ?E; reflexivity.
Qed.

(** X1: the scan of lines 262-270 returns bounds of the buffer: no sample
    is below the minimum or above the maximum it returns; on a buffer
    without samples it returns (Infinity, -Infinity); and as soon as one
    sample is a finite number, both results are samples of the buffer. *)
Theorem X1_scan_finds_extremes (data : TileData) (actualHeight actualWidth : Z) :
  let mm := scan_minmax data actualHeight actualWidth in
  let inside := λ y x : nat,
    (y < Z.to_nat actualHeight)%nat ∧ (x < Z.to_nat actualWidth)%nat in
  (∀ y x, inside y x →
     num_lt (data_get data y x) mm.1 = false ∧
     num_gt (data_get data y x) mm.2 = false) ∧
  (actualHeight ≤ 0 ∨ actualWidth ≤ 0 → mm = (Infinity, NegInfinity)) ∧
  (∀ y x q, inside y x → data_get data y x = Fin q →
     (∃ y' x', inside y' x' ∧ mm.1 = data_get data y' x') ∧
     (∃ y' x', inside y' x' ∧ mm.2 = data_get data y' x')).
Proof.
  intros mm inside.
  destruct (scan_minmax_scanned data actualHeight actualWidth)
    as (Hb & Hmin & Hmax). fold mm in Hb, Hmin, Hmax. fold inside in Hb, Hmin, Hmax.
  split; [exact Hb |]. split.
  - intros Hempty.
    assert (Hnone : ∀ y x, ¬ inside y x) by (subst inside; cbn; lia).
    destruct Hmin as [Hmin | (y & x & Hin & _)]; [| by destruct (Hnone y x)].
    destruct Hmax as [Hmax | (y & x & Hin & _)]; [| by destruct (Hnone y x)].
    destruct mm as [mn mx]. cbn in *. by subst.
  - intros y x q Hin Hq. destruct (Hb y x Hin) as [H1 H2]. rewrite Hq in H1, H2.
    split.
    + destruct Hmin as [Hmin | Hmin]; [| exact Hmin].
      rewrite Hmin in H1. discriminate.
    + destruct Hmax as [Hmax | Hmax]; [| exact Hmax].
      rewrite Hmax in H2. discriminate.
Qed.

Lemma X1_witness :
  let data := data_of_rows [[10; 20; 30]] in
  ∃ y' x', ((y' < 1)%nat ∧ (x' < 3)%nat) ∧
           (scan_minmax data 1 3).1 = data_get data y' x'.
Proof.
  intros data.
  exact (proj1 (proj2 (proj2 (X1_scan_finds_extremes data 1 3))
                 0%nat 0%nat (inject_Z 10)
                 (conj (le_n 1) (le_S 1 2 (le_S 1 1 (le_n 1)))) eq_refl)).
Defined.

Lemma num_lt_false_Qle (p q : Q) : num_lt (Fin p) (Fin q) = false → (q <= p)%Q.
Proof. simpl. rewrite negb_false_iff. apply Qle_bool_iff. Qed.

Lemma scan_bounds_finite (data : TileData) (y x : nat) (v a b : Q) :
  (y < Z.to_nat (data_shape data !!! 0%nat))%nat →
  (x < Z.to_nat (data_shape data !!! 1%nat))%nat →
  data_get data y x = Fin v →
  scan_minmax data (data_shape data !!! 0%nat) (data_shape data !!! 1%nat)
    = (Fin a, Fin b) →
  (a <= v)%Q ∧ (v <= b)%Q.
Proof.
  intros Hy Hx Hv Hscan.
  destruct (scan_minmax_scanned data (data_shape data !!! 0%nat)
              (data_shape data !!! 1%nat)) as (Hb & _ & _).
  destruct (Hb y x (conj Hy Hx)) as [H1 H2].
  rewrite Hscan, Hv in H1, H2. cbn [fst snd] in *. unfold num_gt in H2.
  split; by apply num_lt_false_Qle.
Qed.

(** X2: on a new adapter with auto-normalisation, when the first buffer
    has finite extremes [a < b], [b] is not 0, and the range [b - a] does
    not exceed [Number.MAX_VALUE] (so that the subtraction of line 281 does
    not overflow), the pair (a, b) is stored and the buffer spans the whole
    scale: its smallest sample is written as 0 and its largest as 255. *)
Theorem X2_first_buffer_spans_full_range (env : Env) (data : TileData)
    (tileWidth tileHeight : Z) (w w' : World) (canvas : Canvas) (a b : Q) :
  autoNormalize (this w) = true →
  minValue (this w) = None → maxValue (this w) = None →
  dataToCanvas env data tileWidth tileHeight w = (w', Ok canvas) →
  scan_minmax data (data_shape data !!! 0%nat) (data_shape data !!! 1%nat)
    = (Fin a, Fin b) →
  (a < b)%Q → ¬ (b == 0)%Q → (b - a <= MAX_VALUE)%Q →
  minValue (this w') = Some (Fin a) ∧ maxValue (this w') = Some (Fin b) ∧
  ∀ (y x : nat) (v : Q),
    (y < Z.to_nat (data_shape data !!! 0%nat))%nat →
    (x < Z.to_nat (data_shape data !!! 1%nat))%nat →
    (byte_index (data_shape data !!! 1%nat) y x + 0 <
       length (imageData canvas))%nat →
    data_get data y x = Fin v →
    let byte := imageData canvas
                  !! (byte_index (data_shape data !!! 1%nat) y x + 0)%nat in
    ((v == a)%Q → byte = Some 0) ∧
    ((v == b)%Q → byte = Some 255).
Proof.
  intros Hauto Hmn Hmx Hrun Hscan Hab Hb _.
  destruct (first_buffer_pair (this w) data _ _ Hauto Hmn Hmx Hscan)
    as (Hst & Hmin & Hmax).
  pose proof (dataToCanvas_ok_inv _ _ _ _ _ _ _ Hrun) as [Hw' _].
  split; [by rewrite Hw', Hst |]. split; [by rewrite Hw', Hst |].
  intros y x v Hy Hx Hin Hv byte. subst byte.
  rewrite (canvas_sample_byte _ _ _ _ _ _ _ y x 0 Hrun Hy Hx) by (lia || exact Hin).
  rewrite decide_False by lia. rewrite Hv.
  destruct (scan_bounds_finite data y x v a b Hy Hx Hv Hscan) as [Hav Hvb].
  assert (Hmin' : ∃ a', min_used (this w) data = Fin a' ∧ (a' == a)%Q).
  { rewrite Hmin. cbn [truthy_num].
    destruct (Qnum a =? 0) eqn:E; cbn [negb].
    - exists (inject_Z 0). split; [reflexivity |].
      apply Z.eqb_eq in E. unfold Qeq. simpl. lia.
    - exists a. split; [reflexivity | reflexivity]. }
  destruct Hmin' as (a' & Hmin' & Ha').
  assert (Hmax' : max_used (this w) data = Fin b).
  { rewrite Hmax. cbn [truthy_num].
    apply Qnum_nonzero, Z.eqb_neq in Hb. by rewrite Hb. }
  assert (Hrange : range_used (this w) data = Fin (b - a')).
  { unfold range_used, effective_range. rewrite Hmin', Hmax'.
    cbn [num_sub truthy_num].
    assert (Hnz : Qnum (b - a') ≠ 0) by (apply Qnum_nonzero; lra).
    apply Z.eqb_neq in Hnz. by rewrite Hnz. }
  rewrite Hmin', Hrange.
  rewrite normalize_closed_form by (apply Qnum_nonzero; lra).
  assert (Heq : ((v - a') / (b - a') * (255 # 1) + (1 # 2) ==
                 (v - a) / (b - a) * (255 # 1) + (1 # 2))%Q)
    by (by rewrite Ha').
  rewrite (Qfloor_comp _ _ Heq).
  set (p := ((v - a) / (b - a))%Q).
  split.
  - intros Hva. f_equal.
    assert (Hpz : (p == 0)%Q).
    { subst p. rewrite Hva. unfold Qdiv.
      setoid_replace (a - a)%Q with 0%Q using relation Qeq by ring.
      ring. }
    assert (E : (p * (255 # 1) + (1 # 2) == 1 # 2)%Q) by (rewrite Hpz; ring).
    rewrite (Qfloor_comp _ _ E). reflexivity.
  - intros Hvb'. f_equal.
    assert (Hpz : (p == 1)%Q).
    { subst p. rewrite Hvb'. apply Qmult_inv_r. lra. }
    assert (E : (p * (255 # 1) + (1 # 2) == 511 # 2)%Q) by (rewrite Hpz; ring).
    rewrite (Qfloor_comp _ _ E). reflexivity.
Qed.

Lemma X2_witness :
  let canvas := {| width := 3; height := 1;
                   imageData := [0; 0; 0; 255; 128; 128; 128; 255;
                                 255; 255; 255; 255] |} in
  imageData canvas !! 0%nat = Some 0 ∧ imageData canvas !! 8%nat = Some 255.
Proof.
  intros canvas.
  pose (w := fresh_world no_options []).
  pose (data := data_of_rows [[10; 20; 30]]).
  assert (Hb : ¬ (inject_Z 30 == 0)%Q) by (intros H; discriminate H).
  assert (Hmax : (inject_Z 30 - inject_Z 10 <= MAX_VALUE)%Q)
    by (apply Qle_bool_iff; vm_compute; reflexivity).
  destruct (X2_first_buffer_spans_full_range (env_serving []) data 3 1 w
              (dataToCanvas (env_serving []) data 3 1 w).1 canvas
              (inject_Z 10) (inject_Z 30)
              eq_refl eq_refl eq_refl eq_refl eq_refl eq_refl Hb Hmax)
    as (_ & _ & H).
  split.
  - refine (proj1 (H 0%nat 0%nat (inject_Z 10) _ _ _ eq_refl) _);
      [vm_compute; lia .. | reflexivity].
  - refine (proj2 (H 0%nat 2%nat (inject_Z 30) _ _ _ eq_refl) _);
      [vm_compute; lia .. | reflexivity].
Defined.

(** X3: with [autoNormalize] off and no stored range, nothing is scanned or
    stored (so the same holds for every later buffer) and the pair is
    (0, 255): an integer sample [z] is written as [z] clamped to
    [0, 255], so 8-bit data passes through unchanged. *)
Theorem X3_without_auto_normalize_8bit_passes_through (env : Env)
    (data : TileData) (tileWidth tileHeight : Z) (w w' : World)
    (canvas : Canvas) :
  autoNormalize (this w) = false →
  minValue (this w) = None → maxValue (this w) = None →
  dataToCanvas env data tileWidth tileHeight w = (w', Ok canvas) →
  this w' = this w ∧
  ∀ (y x : nat) (z : Z),
    (y < Z.to_nat (data_shape data !!! 0%nat))%nat →
    (x < Z.to_nat (data_shape data !!! 1%nat))%nat →
    (byte_index (data_shape data !!! 1%nat) y x + 0 <
       length (imageData canvas))%nat →
    data_get data y x = num_of_Z z →
    imageData canvas !! (byte_index (data_shape data !!! 1%nat) y x + 0)%nat
    = Some (Z.min 255 (Z.max 0 z)).
Proof.
  intros Hauto Hmn Hmx Hrun.
  assert (Hscans : scans (this w) = false) by (unfold scans; by rewrite Hauto).
  assert (Hst : store_min_max (this w) data = this w)
    by (unfold store_min_max; by rewrite Hscans).
  assert (Hmin : min_used (this w) data = num_of_Z 0).
  { unfold min_used, local_min_max. rewrite Hst, Hscans, Hmn.
    unfold effective_min. rewrite Hmn. reflexivity. }
  assert (Hmax : max_used (this w) data = num_of_Z 255).
  { unfold max_used, local_min_max. rewrite Hst, Hscans, Hmx, Hmn.
    unfold effective_max. rewrite Hmx. reflexivity. }
  pose proof (dataToCanvas_ok_inv _ _ _ _ _ _ _ Hrun) as [Hw' _].
  split; [by rewrite Hw', Hst |].
  intros y x z Hy Hx Hin Hz.
  rewrite (canvas_sample_byte _ _ _ _ _ _ _ y x 0 Hrun Hy Hx) by (lia || exact Hin).
  rewrite decide_False by lia.
  unfold range_used. rewrite Hz, Hmin, Hmax.
  change (effective_range (num_of_Z 0) (num_of_Z 255))
    with (Fin (inject_Z 255 - inject_Z 0)).
  unfold num_of_Z. rewrite normalize_closed_form by (simpl; lia).
  do 3 f_equal. apply Qfloor_unique.
  - assert (E : ((inject_Z z - inject_Z 0) / (inject_Z 255 - inject_Z 0)
                 * (255 # 1) == inject_Z z)%Q) by (unfold inject_Z; field).
    rewrite E. lra.
  - assert (E : ((inject_Z z - inject_Z 0) / (inject_Z 255 - inject_Z 0)
                 * (255 # 1) == inject_Z z)%Q) by (unfold inject_Z; field).
    rewrite E, inject_Z_plus. unfold inject_Z at 3. lra.
Qed.

Lemma X3_witness :
  let w := fresh_world {| opt_maxCacheSize := JUndefined;
                          opt_autoNormalize := JBool false;
                          opt_fixedMin := JUndefined;
                          opt_fixedMax := JUndefined |} [] in
  let data := data_of_rows [[7; 300]] in
  let r := dataToCanvas (env_serving []) data 2 1 w in
  this r.1 = this w ∧
  ∀ canvas, r.2 = Ok canvas → imageData canvas !! 4%nat = Some 255.
Proof.
  intros w data r. split.
  - exact (proj1 (X3_without_auto_normalize_8bit_passes_through
                    (env_serving []) data 2 1 w r.1
                    {| width := 2; height := 1;
                       imageData := [7; 7; 7; 255; 255; 255; 255; 255] |}
                    eq_refl eq_refl eq_refl eq_refl)).
  - intros canvas Hc. injection Hc as <-. reflexivity.
Defined.

(** X4: within one raster the mapping keeps the order of brightness: when
    the pair in use is finite with a positive range, a sample that is not
    smaller than another one is written as a byte that is not smaller. *)
Theorem X4_brighter_sample_brighter_pixel (env : Env) (data : TileData)
    (tileWidth tileHeight : Z) (w w' : World) (canvas : Canvas) (mn r : Q) :
  dataToCanvas env data tileWidth tileHeight w = (w', Ok canvas) →
  min_used (this w) data = Fin mn →
  range_used (this w) data = Fin r →
  (0 < r)%Q →
  ∀ (y1 x1 y2 x2 : nat) (v1 v2 : Q),
    (y1 < Z.to_nat (data_shape data !!! 0%nat))%nat →
    (x1 < Z.to_nat (data_shape data !!! 1%nat))%nat →
    (y2 < Z.to_nat (data_shape data !!! 0%nat))%nat →
    (x2 < Z.to_nat (data_shape data !!! 1%nat))%nat →
    (byte_index (data_shape data !!! 1%nat) y1 x1 + 0 <
       length (imageData canvas))%nat →
    (byte_index (data_shape data !!! 1%nat) y2 x2 + 0 <
       length (imageData canvas))%nat →
    data_get data y1 x1 = Fin v1 → data_get data y2 x2 = Fin v2 →
    (v1 <= v2)%Q →
    ∃ b1 b2,
      imageData canvas
        !! (byte_index (data_shape data !!! 1%nat) y1 x1 + 0)%nat = Some b1 ∧
      imageData canvas
        !! (byte_index (data_shape data !!! 1%nat) y2 x2 + 0)%nat = Some b2 ∧
      b1 ≤ b2.
Proof.
  intros Hrun Hmin Hrange Hr y1 x1 y2 x2 v1 v2 Hy1 Hx1 Hy2 Hx2 Hin1 Hin2
    Hv1 Hv2 Hle.
  rewrite (canvas_sample_byte _ _ _ _ _ _ _ y1 x1 0 Hrun Hy1 Hx1)
    by (lia || exact Hin1).
  rewrite (canvas_sample_byte _ _ _ _ _ _ _ y2 x2 0 Hrun Hy2 Hx2)
    by (lia || exact Hin2).
  rewrite !decide_False by lia.
  rewrite Hv1, Hv2, Hmin, Hrange.
  do 2 eexists. split; [reflexivity |]. split; [reflexivity |].
  by apply normalize_monotone.
Qed.

Lemma X4_witness :
  let canvas := {| width := 3; height := 1;
                   imageData := [0; 0; 0; 255; 128; 128; 128; 255;
                                 255; 255; 255; 255] |} in
  ∃ b1 b2,
    imageData canvas !! 4%nat = Some b1 ∧
    imageData canvas !! 8%nat = Some b2 ∧ b1 ≤ b2.
Proof.
  intros canvas.
  pose (w := fresh_world no_options []).
  pose (data := data_of_rows [[10; 20; 30]]).
  assert (Hr : (0 < inject_Z 30 - inject_Z 10)%Q) by reflexivity.
  assert (Hle : (inject_Z 20 <= inject_Z 30)%Q) by (intros H; discriminate H).
  refine (X4_brighter_sample_brighter_pixel (env_serving []) data 3 1 w
            (dataToCanvas (env_serving []) data 3 1 w).1 canvas
            (inject_Z 10) (inject_Z 30 - inject_Z 10)
            eq_refl eq_refl eq_refl Hr
            0%nat 1%nat 0%nat 2%nat (inject_Z 20) (inject_Z 30)
            _ _ _ _ _ _ eq_refl eq_refl Hle); vm_compute; lia.
Defined.

(** X5: [dataToCanvas] fails only when the tile width or height is 0;
    otherwise it returns a canvas of exactly the nominal size whatever the
    shape of the buffer (empty, smaller or larger than the tile), and every
    byte past the [actualHeight * actualWidth] pixels of the buffer is left
    0, i.e. transparent. *)
Theorem X5_raster_outside_buffer_stays_blank (env : Env) (data : TileData)
    (tileWidth tileHeight : Z) (w : World) :
  tileWidth ≠ 0 → tileHeight ≠ 0 →
  ∃ w' canvas,
    dataToCanvas env data tileWidth tileHeight w = (w', Ok canvas) ∧
    width canvas = tileWidth ∧ height canvas = tileHeight ∧
    length (imageData canvas) =
      Z.to_nat (Z.abs tileWidth * Z.abs tileHeight * 4) ∧
    ∀ i : nat,
      (4 * (Z.to_nat (data_shape data !!! 0%nat) *
            Z.to_nat (data_shape data !!! 1%nat)) ≤ i)%nat →
      (i < length (imageData canvas))%nat →
      imageData canvas !! i = Some 0.
Proof.
  intros Hw Hh. do 2 eexists. split; [by apply dataToCanvas_run |].
  cbn [width height imageData]. rewrite paint_writes, writes_length.
  split; [reflexivity |]. split; [reflexivity |].
  split; [by rewrite length_replicate |].
  intros i Hi Hlen. rewrite writes_lookup, decide_False by lia.
  apply lookup_replicate_2. by rewrite length_replicate in Hlen.
Qed.

Lemma X5_witness :
  ∃ w' canvas,
    dataToCanvas (env_serving []) (data_of_rows [[10]; [30]]) 2 2
      (fresh_world no_options pyramid_3) = (w', Ok canvas) ∧
    width canvas = 2 ∧ height canvas = 2 ∧
    length (imageData canvas) = Z.to_nat (Z.abs 2 * Z.abs 2 * 4) ∧
    ∀ i : nat,
      (4 * (Z.to_nat 2 * Z.to_nat 1) ≤ i)%nat →
      (i < length (imageData canvas))%nat →
      imageData canvas !! i = Some 0.
Proof.
  apply (X5_raster_outside_buffer_stays_blank (env_serving [])
           (data_of_rows [[10]; [30]]) 2 2
           (fresh_world no_options pyramid_3)); lia.
Defined.

(** ** The rectangle read for a tile *)

Lemma tile_region_eq (a : ZarrArray) (x y : Z) :
  tile_region a x y =
  (if (length (shape a) =? 3)%nat then Some 0 else None,
   (y * (tile_size a).2,
    Z.min (y * (tile_size a).2 + (tile_size a).2) (level_extent a).2),
   (x * (tile_size a).1,
    Z.min (x * (tile_size a).1 + (tile_size a).1) (level_extent a).1)).
Proof.
  unfold tile_region, tile_size, level_extent.
  by destruct (length (shape a) =? 3)%nat.
Qed.

(** X6: on a miss at a valid level, for a tile inside the grid of that
    level (positive chunk sizes, [0 <= x], [0 <= y],
    [x * tileWidth < levelWidth], [y * tileHeight < levelHeight]) the one
    region read is a non-empty rectangle inside the level, no larger than
    the tile, and exactly tile-sized when the tile does not cross the right
    or bottom edge. *)
Theorem X6_region_read_within_level (env : Env) (L x y : Z) (w : World)
    (zarrLevel : ZarrLevel) :
  let total := Z.of_nat (length (zarrArrays (this w))) in
  let '(tileWidth, tileHeight) := tile_size (array zarrLevel) in
  let '(levelWidth, levelHeight) := level_extent (array zarrLevel) in
  Map_has (cacheKey L x y) (tileCache (this w)) = false →
  0 ≤ L ≤ total - 1 →
  zarrArrays (this w) !! Z.to_nat (total - 1 - L) = Some zarrLevel →
  0 < tileWidth → 0 < tileHeight →
  0 ≤ x → 0 ≤ y → x * tileWidth < levelWidth → y * tileHeight < levelHeight →
  ∃ channel yStart yEnd xStart xEnd,
    region_reads
      (log (downloadTileStart env
              {| tile := Some {| level := L; x := x; y := y |} |} w)) =
      region_reads (log w) ++
        [(total - 1 - L, channel, (yStart, yEnd), (xStart, xEnd))] ∧
    0 ≤ yStart < yEnd ∧ yEnd ≤ levelHeight ∧ yEnd - yStart ≤ tileHeight ∧
    0 ≤ xStart < xEnd ∧ xEnd ≤ levelWidth ∧ xEnd - xStart ≤ tileWidth ∧
    ((y + 1) * tileHeight ≤ levelHeight → yEnd - yStart = tileHeight) ∧
    ((x + 1) * tileWidth ≤ levelWidth → xEnd - xStart = tileWidth).
Proof.
  intros total.
  destruct (tile_size (array zarrLevel)) as [tw th] eqn:Hts.
  destruct (level_extent (array zarrLevel)) as [lw lh] eqn:Hle.
  intros Hmiss HL Hlk Htw Hth Hx Hy Hxin Hyin.
  pose proof (miss_reads_clamped_region env L x y w zarrLevel Hmiss HL Hlk)
    as Hread. cbn zeta in Hread.
  rewrite tile_region_eq, Hts, Hle in Hread. cbn [fst snd] in Hread.
  do 5 eexists. split; [exact Hread |]. nia.
Qed.

(** X7: the rectangles of the tiles partition a level: with positive chunk
    sizes, every pixel of the level lies in the rectangle of the tile
    [(col / tileWidth, row / tileHeight)] and in the rectangle of no other
    tile. *)
Theorem X7_tile_regions_partition_level (a : ZarrArray) (row col : Z) :
  let '(tileWidth, tileHeight) := tile_size a in
  let '(levelWidth, levelHeight) := level_extent a in
  0 < tileWidth → 0 < tileHeight →
  0 ≤ row < levelHeight → 0 ≤ col < levelWidth →
  in_region (tile_region a (col / tileWidth) (row / tileHeight)) row col ∧
  ∀ x y, in_region (tile_region a x y) row col →
         x = col / tileWidth ∧ y = row / tileHeight.
Proof.
  destruct (tile_size a) as [tw th] eqn:Hts.
  destruct (level_extent a) as [lw lh] eqn:Hle.
  intros Htw Hth Hrow Hcol. split.
  - rewrite tile_region_eq, Hts, Hle. cbn.
    pose proof (Z.mul_div_le col tw Htw).
    pose proof (Z.mul_succ_div_gt col tw Htw).
    pose proof (Z.mul_div_le row th Hth).
    pose proof (Z.mul_succ_div_gt row th Hth).
    lia.
  - intros x y. rewrite tile_region_eq, Hts, Hle. cbn.
    intros [[Hy1 Hy2] [Hx1 Hx2]]. split.
    + apply Z.div_unique with (col - x * tw); lia.
    + apply Z.div_unique with (row - y * th); lia.
Qed.

Lemma X6_witness :
  let w := fresh_world no_options pyramid_3 in
  ∃ channel yStart yEnd xStart xEnd,
    region_reads
      (log (downloadTileStart (env_serving [[10]; [30]])
              {| tile := Some {| level := 0; x := 1; y := 0 |} |} w)) =
      region_reads (log w) ++
        [(1 - 1 - 0, channel, (yStart, yEnd), (xStart, xEnd))] ∧
    0 ≤ yStart < yEnd ∧ yEnd ≤ 3 ∧ yEnd - yStart ≤ 2 ∧
    0 ≤ xStart < xEnd ∧ xEnd ≤ 3 ∧ xEnd - xStart ≤ 2 ∧
    ((0 + 1) * 2 ≤ 3 → yEnd - yStart = 2) ∧
    ((1 + 1) * 2 ≤ 3 → xEnd - xStart = 2).
Proof.
  intros w.
  refine (X6_region_read_within_level (env_serving [[10]; [30]]) 0 1 0 w
            (level_of "0" [1; 3; 3] [1; 2; 2])
            eq_refl _ eq_refl _ _ _ _ _ _); cbn; lia.
Defined.

Lemma X7_witness :
  let a := {| shape := [3; 1000; 1000]; chunks := [1; 256; 256] |} in
  in_region (tile_region a (900 / 256) (300 / 256)) 300 900 ∧
  ∀ x y, in_region (tile_region a x y) 300 900 →
         x = 900 / 256 ∧ y = 300 / 256.
Proof.
  intros a.
  refine (X7_tile_regions_partition_level a 300 900 _ _ _ _); cbn; lia.
Defined.

(** ** The published tile source *)

(** X8: [createTileSource] throws exactly when no level is loaded and never
    changes the instance.  Otherwise the levels it publishes,
    [minLevel = 0 .. maxLevel], are exactly the engine levels that pass the
    level check of [getTileImage], and [maxLevel] resolves to storage level
    0, the array whose extent and chunk size it publishes as [width],
    [height], [tileWidth], [tileHeight]; [tileSize] is the larger chunk
    side. *)
Theorem X8_published_levels_are_the_served_levels (env : Env) (w : World) :
  let total := Z.of_nat (length (zarrArrays (this w))) in
  (zarrArrays (this w) = [] →
   createTileSource env w = (w, Throw (type_error env))) ∧
  (zarrArrays (this w) ≠ [] →
   ∃ ts highestRes,
     createTileSource env w = (w, Ok ts) ∧
     zarrArrays (this w) !! 0%nat = Some highestRes ∧
     TileSource.minLevel ts = 0 ∧ TileSource.maxLevel ts = total - 1 ∧
     (∀ L, TileSource.minLevel ts ≤ L ≤ TileSource.maxLevel ts ↔
           0 ≤ zarrLevelIndex total L ≤ total - 1) ∧
     zarrLevelIndex total (TileSource.maxLevel ts) = 0 ∧
     (TileSource.width ts, TileSource.height ts)
       = level_extent (array highestRes) ∧
     (TileSource.tileWidth ts, TileSource.tileHeight ts)
       = tile_size (array highestRes) ∧
     TileSource.tileSize ts
       = Z.max (TileSource.tileWidth ts) (TileSource.tileHeight ts)).
Proof.
  intros total. unfold createTileSource. unfold_M. split.
  - intros Hnil. rewrite Hnil. destruct w. reflexivity.
  - intros Hne.
    destruct (zarrArrays (this w)) as [| highestRes rest] eqn:Hz; [done |].
    cbn [lookup list_lookup].
    eexists _, highestRes. split; [reflexivity |].
    split; [reflexivity |]. cbn.
    split; [reflexivity |]. split; [subst total; cbn; lia |].
    split; [unfold zarrLevelIndex; subst total; cbn; lia |].
    split; [unfold zarrLevelIndex; subst total; cbn; lia |].
    unfold level_extent, tile_size.
    by destruct (length (shape (array highestRes)) =? 3)%nat.
Qed.

Lemma X8_witness :
  ∃ ts highestRes,
    createTileSource (env_serving []) (fresh_world no_options pyramid_1000)
      = (fresh_world no_options pyramid_1000, Ok ts) ∧
    pyramid_1000 !! 0%nat = Some highestRes ∧
    TileSource.minLevel ts = 0 ∧ TileSource.maxLevel ts = 3 - 1 ∧
    (∀ L, TileSource.minLevel ts ≤ L ≤ TileSource.maxLevel ts ↔
          0 ≤ zarrLevelIndex 3 L ≤ 3 - 1) ∧
    zarrLevelIndex 3 (TileSource.maxLevel ts) = 0 ∧
    (TileSource.width ts, TileSource.height ts)
      = level_extent (array highestRes) ∧
    (TileSource.tileWidth ts, TileSource.tileHeight ts)
      = tile_size (array highestRes) ∧
    TileSource.tileSize ts
      = Z.max (TileSource.tileWidth ts) (TileSource.tileHeight ts).
Proof.
  refine (proj2 (X8_published_levels_are_the_served_levels (env_serving [])
                   (fresh_world no_options pyramid_1000)) _).
  discriminate.
Defined.

(** ** Tile identifiers *)

Lemma digits_then_sep (sep : ascii) (d d' r r' : string) :
  is_digit sep = false →
  all_digits d = true → all_digits d' = true →
  d +:+ String sep r = d' +:+ String sep r' → d = d' ∧ r = r'.
Proof.
  intros Hsep. revert d'.
  induction d as [| c d IH]; intros [| c' d'] Hd Hd' Heq; simpl in *.
  - by simplify_eq.
  - injection Heq as -> _. apply andb_true_iff in Hd' as [Hc _]. congruence.
  - injection Heq as -> _. apply andb_true_iff in Hd as [Hc _]. congruence.
  - apply andb_true_iff in Hd as [_ Hd], Hd' as [_ Hd'].
    injection Heq as -> Heq. destruct (IH d' Hd Hd' Heq) as [-> ->]. done.
Qed.

(** A printed integer is an optional minus sign and a non-empty string of
    digits. *)
Lemma pretty_Z_shape (z : Z) :
  ∃ c s, is_digit c = true ∧ all_digits s = true ∧
         pretty z = (if decide (z < 0) then String "-" (String c s)
                     else String c s).
Proof.
  destruct z as [| p | p].
  - by exists "0"%char, EmptyString.
  - destruct (pretty_N_shape (N.pos p)) as (c & s & Hp & Hc & Hs).
    exists c, s. rewrite decide_False by lia. done.
  - destruct (pretty_N_shape (N.pos p)) as (c & s & Hp & Hc & Hs).
    exists c, s. rewrite decide_True by lia.
    change (pretty (Z.neg p)) with ("-" +:+ pretty (N.pos p)).
    by rewrite Hp.
Qed.

Lemma pretty_Z_then_sep (sep : ascii) (a b : Z) (r r' : string) :
  is_digit sep = false →
  pretty a +:+ String sep r = pretty b +:+ String sep r' → a = b ∧ r = r'.
Proof.
  intros Hsep Heq.
  destruct (pretty_Z_shape a) as (c & s & Hc & Hs & Ha).
  destruct (pretty_Z_shape b) as (c' & s' & Hc' & Hs' & Hb).
  assert (Hdig : ∀ c0, is_digit c0 = true → c0 ≠ "-"%char)
    by (intros c0 H0 ->; discriminate).
  rewrite Ha, Hb in Heq.
  destruct (decide (a < 0)), (decide (b < 0)); simpl in Heq.
  - injection Heq as Hcc Hrest. subst c'.
    destruct (digits_then_sep sep s s' r r' Hsep Hs Hs' Hrest) as [-> ->].
    split; [| done]. apply (inj pretty). by rewrite Ha, Hb.
  - injection Heq as Hcc _. by destruct (Hdig c' Hc').
  - injection Heq as Hcc _. by destruct (Hdig c Hc).
  - injection Heq as Hcc Hrest. subst c'.
    destruct (digits_then_sep sep s s' r r' Hsep Hs Hs' Hrest) as [-> ->].
    split; [| done]. apply (inj pretty). by rewrite Ha, Hb.
Qed.

Lemma getTileUrl_inj (L x y L' x' y' : Z) :
  getTileUrl L x y = getTileUrl L' x' y' → L = L' ∧ x = x' ∧ y = y'.
Proof.
  unfold getTileUrl. intros Heq.
  change ("tile://" +:+ ?s) with (String "t" (String "i" (String "l"
    (String "e" (String ":" (String "/" (String "/" s))))))) in Heq.
  injection Heq as Heq.
  apply (pretty_Z_then_sep "/") in Heq as [-> Heq]; [| reflexivity].
  apply (pretty_Z_then_sep "/") in Heq as [-> Heq]; [| reflexivity].
  by apply (inj pretty) in Heq as ->.
Qed.

(** X9: the placeholder URL and the cache key both determine the tile:
    two tiles have the same URL, or the same cache key, only if they are the
    same [(level, x, y)]. *)
Theorem X9_url_and_cache_key_identify_the_tile (L x y L' x' y' : Z) :
  (getTileUrl L x y = getTileUrl L' x' y' ↔ (L, x, y) = (L', x', y')) ∧
  (cacheKey L x y = cacheKey L' x' y' ↔ (L, x, y) = (L', x', y')).
Proof.
  split; split.
  - intros H. by apply getTileUrl_inj in H as (-> & -> & ->).
  - by intros [= -> -> ->].
  - intros H. by apply cacheKey_inj in H as (-> & -> & ->).
  - by intros [= -> -> ->].
Qed.

Lemma X9_witness : (1, -2, 3) = (1, -2, 3) ∧ getTileUrl 1 (-2) 3 = "tile://1/-2/3".
Proof.
  split; [| reflexivity].
  exact (proj1 (proj1 (X9_url_and_cache_key_identify_the_tile 1 (-2) 3 1 (-2) 3))
           eq_refl).
Defined.

(** ** Requests that miss the cache *)

Lemma downloadTileStart_miss (env : Env) (L x y : Z) (w : World)
    (zarrLevel : ZarrLevel) :
  Map_has (cacheKey L x y) (tileCache (this w)) = false →
  0 ≤ L ≤ Z.of_nat (length (zarrArrays (this w))) - 1 →
  zarrArrays (this w)
    !! Z.to_nat (Z.of_nat (length (zarrArrays (this w))) - 1 - L)
    = Some zarrLevel →
  downloadTileStart env {| tile := Some {| level := L; x := x; y := y |} |} w
  = miss_outcome env L x y zarrLevel w.
Proof.
  intros Hmiss HL Hlk.
  unfold downloadTileStart, getTileImage, miss_outcome. unfold_M. simpl.
  rewrite Hmiss.
  set (total := Z.of_nat (length (zarrArrays (this w)))) in *.
  assert (Hin : (zarrLevelIndex total L <? 0)
                || (zarrLevelIndex total L >=? total) = false).
  { unfold zarrLevelIndex. apply orb_false_iff. split; lia. }
  rewrite Hin. unfold zarrLevelIndex. rewrite Hlk.
  unfold tile_region, tile_size.
  destruct (length (shape (array zarrLevel)) =? 3)%nat.
  all: unfold await_get; unfold_M; simpl.
  all: destruct (array_get env _ _ _ _) as [tileData | message |]; simpl;
    [| by rewrite <- !app_assoc | done].
  all: case_decide as Hz.
  all: try (rewrite dataToCanvas_throws by exact Hz; simpl;
            by rewrite <- !app_assoc).
  all: rewrite dataToCanvas_run by lia; simpl.
  all: unfold addToCache, load_image, tile_canvas; unfold_M; simpl.
  all: by rewrite <- !app_assoc.
Qed.

Lemma normalizer_calls_app (l1 l2 : list Event) :
  normalizer_calls (l1 ++ l2) = normalizer_calls l1 ++ normalizer_calls l2.
Proof. apply omap_app. Qed.

(** X10: a rejected region read changes nothing in the instance: the cache
    and the stored range are as before and [dataToCanvas] is not called;
    the request is failed with the message of the rejection, or with
    'Unknown error' when that is empty.  The failure is not remembered: the
    same tile requested again is read again. *)
Theorem X10_rejected_read_changes_nothing (env env2 : Env) (L x y : Z)
    (w : World) (zarrLevel : ZarrLevel) (message : string) :
  let total := Z.of_nat (length (zarrArrays (this w))) in
  let context := {| tile := Some {| level := L; x := x; y := y |} |} in
  let '(channel, rows, cols) := tile_region (array zarrLevel) x y in
  Map_has (cacheKey L x y) (tileCache (this w)) = false →
  0 ≤ L ≤ total - 1 →
  zarrArrays (this w) !! Z.to_nat (total - 1 - L) = Some zarrLevel →
  array_get env (total - 1 - L) channel rows cols = Throw message →
  let w' := downloadTileStart env context w in
  this w' = this w ∧
  log w' = log w ++ [ArrayGet (total - 1 - L) channel rows cols;
                     Finish (Failure (message_or_unknown message))] ∧
  region_reads (log (downloadTileStart env2 context w')) =
    region_reads (log w') ++ [(total - 1 - L, channel, rows, cols)].
Proof.
  intros total context.
  destruct (tile_region (array zarrLevel) x y) as [[channel rows] cols] eqn:Hr.
  intros Hmiss HL Hlk Hget w'.
  assert (Hw' : w' = {| this := this w;
                        log := log w ++
                          [ArrayGet (total - 1 - L) channel rows cols;
                           Finish (Failure (message_or_unknown message))] |}).
  { subst w' context. rewrite (downloadTileStart_miss env L x y w zarrLevel)
      by assumption.
    unfold miss_outcome. rewrite Hr. fold total.
    destruct (tile_size (array zarrLevel)). by rewrite Hget. }
  rewrite Hw'. cbn [this log]. split; [reflexivity |]. split; [reflexivity |].
  pose proof (miss_reads_clamped_region env2 L x y
                {| this := this w;
                   log := log w ++
                     [ArrayGet (total - 1 - L) channel rows cols;
                      Finish (Failure (message_or_unknown message))] |}
                zarrLevel Hmiss HL Hlk) as H.
  cbn zeta in H. rewrite Hr in H. exact H.
Qed.

Lemma X10_witness :
  let w := fresh_world no_options pyramid_3 in
  let context := {| tile := Some {| level := 0; x := 1; y := 0 |} |} in
  let w' := downloadTileStart (env_rejecting "HTTP 404") context w in
  this w' = this w ∧
  log w' = log w ++ [ArrayGet (1 - 1 - 0) (Some 0) (0, 2) (2, 3);
                     Finish (Failure (message_or_unknown "HTTP 404"))] ∧
  region_reads (log (downloadTileStart (env_serving [[10]; [30]]) context w')) =
    region_reads (log w') ++ [(1 - 1 - 0, Some 0, (0, 2), (2, 3))].
Proof.
  intros w context.
  refine (X10_rejected_read_changes_nothing (env_rejecting "HTTP 404")
            (env_serving [[10]; [30]]) 0 1 0 w
            (level_of "0" [1; 3; 3] [1; 2; 2]) "HTTP 404"
            eq_refl _ eq_refl eq_refl).
  cbn. lia.
Defined.

(** X11: a tile that was read and rasterised is cached under its key, also
    when the browser then fails to load the image; requested again, it is
    delivered from that very canvas, with no read, no call of
    [dataToCanvas] and no change of the instance. *)
Theorem X11_resolved_tile_is_served_from_cache (env env2 : Env) (L x y : Z)
    (w : World) (zarrLevel : ZarrLevel) (tileData : TileData) :
  let total := Z.of_nat (length (zarrArrays (this w))) in
  let context := {| tile := Some {| level := L; x := x; y := y |} |} in
  let '(channel, rows, cols) := tile_region (array zarrLevel) x y in
  let '(tileWidth, tileHeight) := tile_size (array zarrLevel) in
  Map_has (cacheKey L x y) (tileCache (this w)) = false →
  0 ≤ L ≤ total - 1 →
  zarrArrays (this w) !! Z.to_nat (total - 1 - L) = Some zarrLevel →
  array_get env (total - 1 - L) channel rows cols = Ok tileData →
  tileWidth ≠ 0 → tileHeight ≠ 0 →
  let canvas := tile_canvas (this w) tileData tileWidth tileHeight in
  let w1 := downloadTileStart env context w in
  let w2 := downloadTileStart env2 context w1 in
  Map_get (cacheKey L x y) (tileCache (this w1)) = Some canvas ∧
  this w2 = this w1 ∧
  log w2 = log w1 ++
    [Finish (if image_loads env2 canvas then Image canvas
             else Failure "Failed to load cached tile")].
Proof.
  intros total context.
  destruct (tile_region (array zarrLevel) x y) as [[channel rows] cols] eqn:Hr.
  destruct (tile_size (array zarrLevel)) as [tw th] eqn:Hts.
  intros Hmiss HL Hlk Hget Htw Hth canvas w1 w2.
  assert (Hcached : Map_get (cacheKey L x y) (tileCache (this w1)) = Some canvas).
  { subst w1 context. rewrite (downloadTileStart_miss env L x y w zarrLevel)
      by assumption.
    unfold miss_outcome. rewrite Hr, Hts. fold total. rewrite Hget.
    rewrite decide_False by lia. cbn [this tileCache set_tileCache].
    unfold addToCache_map. apply Map_get_set. }
  split; [exact Hcached |].
  subst w2 context. unfold downloadTileStart, getTileImage, load_image.
  unfold_M. simpl.
  rewrite (Map_get_has _ _ _ Hcached), Hcached. split; reflexivity.
Qed.

Lemma X11_witness :
  let w := fresh_world no_options pyramid_3 in
  let context := {| tile := Some {| level := 0; x := 1; y := 0 |} |} in
  let canvas := tile_canvas (this w) (data_of_rows [[10]; [30]]) 2 2 in
  let w1 := downloadTileStart (env_serving [[10]; [30]]) context w in
  let w2 := downloadTileStart (env_rejecting "offline") context w1 in
  Map_get (cacheKey 0 1 0) (tileCache (this w1)) = Some canvas ∧
  this w2 = this w1 ∧
  log w2 = log w1 ++ [Finish (Image canvas)].
Proof.
  intros w context.
  refine (X11_resolved_tile_is_served_from_cache (env_serving [[10]; [30]])
            (env_rejecting "offline") 0 1 0 w
            (level_of "0" [1; 3; 3] [1; 2; 2]) (data_of_rows [[10]; [30]])
            eq_refl _ eq_refl eq_refl _ _); cbn; lia.
Defined.

(** ** What a session leaves in the cache *)

Lemma downloadTileStart_this (env : Env) (context : Context) (w : World) :
  let total := Z.of_nat (length (zarrArrays (this w))) in
  let w' := downloadTileStart env context w in
  this w' = this w ∨
  ∃ L x y zarrLevel tileData,
    tile context = Some {| level := L; x := x; y := y |} ∧
    0 ≤ L ≤ total - 1 ∧
    zarrArrays (this w) !! Z.to_nat (total - 1 - L) = Some zarrLevel ∧
    this w' =
      set_tileCache
        (addToCache_map (maxCacheSize (this w)) (cacheKey L x y)
           (tile_canvas (this w) tileData (tile_size (array zarrLevel)).1
              (tile_size (array zarrLevel)).2)
           (tileCache (this w)))
        (store_min_max (this w) tileData).
Proof.
  intros total w'. subst w'.
  destruct context as [[[L x y] |]]; [| by left].
  destruct (Map_has (cacheKey L x y) (tileCache (this w))) eqn:Hhas.
  { left. destruct (Map_has_get _ _ Hhas) as [canvas Hget].
    unfold downloadTileStart, getTileImage, load_image. unfold_M. simpl.
    by rewrite Hhas, Hget. }
  destruct (decide (0 ≤ L ≤ total - 1)) as [HL | HL].
  - destruct (lookup_lt_is_Some_2 (zarrArrays (this w))
                (Z.to_nat (total - 1 - L))) as [zarrLevel Hlk];
      [subst total; lia |].
    rewrite (downloadTileStart_miss env L x y w zarrLevel) by assumption.
    unfold miss_outcome. fold total.
    destruct (tile_region (array zarrLevel) x y) as [[channel rows] cols].
    destruct (tile_size (array zarrLevel)) as [tw th] eqn:Hts.
    destruct (array_get env _ _ _ _) as [tileData | message |];
      [| by left | by left].
    case_decide; [by left |].
    right. exists L, x, y, zarrLevel, tileData.
    split; [done |]. split; [lia |]. split; [done |].
    rewrite Hts. cbn [this fst snd].
    destruct (store_min_max_fields (this w) tileData) as (_ & -> & -> & _).
    reflexivity.
  - left.
    destruct (level_inversion_on_miss env L x y w Hhas) as (_ & _ & H).
    fold total in H. rewrite H; [reflexivity |].
    unfold zarrLevelIndex. lia.
Qed.

Lemma Map_get_entry {V} (k : string) (v : V) (m : list (string * V)) :
  Map_get k m = Some v → (k, v) ∈ m.
Proof.
  induction m as [| [k' v'] m IH]; simpl; [done |].
  destruct (String.eqb k k') eqn:E.
  - apply String.eqb_eq in E. intros [= ->]. subst. apply elem_of_cons. by left.
  - intros H. apply elem_of_cons. right. by apply IH.
Qed.

Lemma Map_delete_entries {V} (k : string) (e : string * V)
    (m : list (string * V)) :
  e ∈ Map_delete k m → e ∈ m.
Proof.
  induction m as [| [k' v'] m IH]; simpl; [done |].
  destruct (String.eqb k k').
  - intros H. apply elem_of_cons. by right.
  - rewrite !elem_of_cons. intros [-> | H]; [by left | right; by apply IH].
Qed.

Lemma Map_set_entries {V} (k : string) (v : V) (e : string * V)
    (m : list (string * V)) :
  e ∈ Map_set k v m → e = (k, v) ∨ e ∈ m.
Proof.
  induction m as [| [k' v'] m IH]; simpl.
  - rewrite list_elem_of_singleton. by left.
  - destruct (String.eqb k k').
    + rewrite !elem_of_cons. intros [-> | H]; [by left | right; by right].
    + rewrite !elem_of_cons. intros [-> | H]; [right; by left |].
      destruct (IH H) as [-> | H']; [by left | right; by right].
Qed.

Lemma addToCache_map_entries (cap : jsval) (key : string) (canvas : Canvas)
    (e : string * Canvas) (cache : list (string * Canvas)) :
  e ∈ addToCache_map cap key canvas cache → e = (key, canvas) ∨ e ∈ cache.
Proof.
  unfold addToCache_map. intros H.
  apply Map_set_entries in H as [-> | H]; [by left |]. right.
  destruct (num_ge _ _); [| exact H].
  destruct (Map_first_key cache); [| exact H].
  by apply Map_delete_entries in H.
Qed.

Lemma session_entries (options : Options) (levels : list ZarrLevel)
    (requests : list (Env * Context)) :
  let w := run_session requests (fresh_world options levels) in
  zarrArrays (this w) = levels ∧
  ∀ e, e ∈ tileCache (this w) → entry_of_requested_tile levels requests e.
Proof.
  induction requests as [| [env context] requests IH] using rev_ind.
  - split; [reflexivity |]. intros e He. by apply elem_of_nil in He.
  - unfold run_session in *. rewrite foldl_app. cbn [foldl fst snd].
    set (w := foldl _ _ requests) in *. cbn zeta in IH.
    destruct IH as [Hlevels Hentries].
    assert (Hold : ∀ e, e ∈ tileCache (this w) →
              entry_of_requested_tile levels (requests ++ [(env, context)]) e).
    { intros e He. destruct (Hentries e He)
        as (L & x & y & zl & Hk & [env0 Hreq] & HL & Hlk & Hsz).
      exists L, x, y, zl. split; [done |]. split; [| done].
      exists env0. apply elem_of_app. by left. }
    cbn zeta.
    destruct (downloadTileStart_this env context w)
      as [-> | (L & x & y & zl & tileData & Htile & HL & Hlk & ->)];
      [by split |].
    destruct (store_min_max_fields (this w) tileData) as (Hz & _).
    split; [cbn [this zarrArrays set_tileCache]; by rewrite Hz |].
    intros e He. cbn [this tileCache set_tileCache] in He.
    apply addToCache_map_entries in He as [-> | He]; [| by apply Hold].
    rewrite Hlevels in HL, Hlk.
    exists L, x, y, zl. split; [done |]. split.
    { exists env. apply elem_of_app. right. apply list_elem_of_singleton.
      destruct context as [t]. cbn in Htile. by rewrite Htile. }
    split; [lia |]. split; [done |].
    unfold tile_canvas. cbn [width height snd].
    by destruct (tile_size (array zl)).
Qed.

(** X12: in any session, a canvas found in the cache under the key of a
    tile belongs to that very tile: the tile was requested earlier in the
    session, its level exists, and the canvas has the nominal tile size of
    the array that level resolves to. *)
Theorem X12_cached_canvas_belongs_to_requested_tile (options : Options)
    (levels : list ZarrLevel) (requests : list (Env * Context))
    (L x y : Z) (canvas : Canvas) :
  let w := run_session requests (fresh_world options levels) in
  let total := Z.of_nat (length levels) in
  Map_get (cacheKey L x y) (tileCache (this w)) = Some canvas →
  requested requests L x y ∧
  0 ≤ L ≤ total - 1 ∧
  ∃ zarrLevel,
    levels !! Z.to_nat (total - 1 - L) = Some zarrLevel ∧
    (width canvas, height canvas) = tile_size (array zarrLevel).
Proof.
  intros w total Hget.
  destruct (session_entries options levels requests) as [_ Hentries].
  apply Map_get_entry, Hentries in Hget
    as (L' & x' & y' & zl & Hk & Hreq & HL & Hlk & Hsz).
  cbn [fst snd] in Hk, Hsz.
  apply cacheKey_inj in Hk as (-> & -> & ->). eauto.
Qed.

Lemma X12_witness :
  let context := {| tile := Some {| level := 0; x := 1; y := 0 |} |} in
  let requests := [(env_serving [[10]; [30]], context)] in
  requested requests 0 1 0 ∧
  0 ≤ 0 ≤ 1 - 1 ∧
  ∃ zarrLevel,
    pyramid_3 !! Z.to_nat (1 - 1 - 0) = Some zarrLevel ∧
    (2, 2) = tile_size (array zarrLevel).
Proof.
  intros context requests.
  exact (X12_cached_canvas_belongs_to_requested_tile no_options pyramid_3
           requests 0 1 0
           (tile_canvas (this (fresh_world no_options pyramid_3))
              (data_of_rows [[10]; [30]]) 2 2)
           eq_refl).
Defined.

(** ** Capacities that are not positive integers *)

Lemma Map_set_length_le {V} (k : string) (v : V) (m : list (string * V)) :
  (length (Map_set k v m) ≤ S (length m))%nat.
Proof. rewrite Map_set_length. destruct (Map_has k m); lia. Qed.

Lemma Map_delete_first_length {V} (m : list (string * V)) :
  (length (match Map_first_key m with
           | Some firstKey => Map_delete firstKey m
           | None => m
           end) = length m - 1)%nat.
Proof.
  destruct m as [| [k v] m]; [reflexivity |].
  cbn [Map_first_key Map_delete]. rewrite String.eqb_refl. simpl. lia.
Qed.

(** X13: [maxCacheSize] is stored as given, so it may be any number that is
    not 0 or NaN.  For a finite capacity [q] the cache never holds more
    than [max 1 (ceiling q)] tiles: a fractional capacity rounds up, and a
    negative one gives a cache of a single tile, the last one added. *)
Theorem X13_cache_bound_for_any_finite_capacity (q : Q) (ops : list CacheOp) :
  let bound := Z.to_nat (Z.max 1 (Qceiling q)) in
  (∀ url options,
     opt_maxCacheSize options = JNum (Fin q) → ¬ (q == 0)%Q →
     maxCacheSize (constructor url options) = JNum (Fin q)) ∧
  (length (run_ops (JNum (Fin q)) ops []) ≤ bound)%nat ∧
  ((q < 0)%Q →
   ∀ key canvas,
     run_ops (JNum (Fin q)) (ops ++ [OpPut key canvas]) [] = [(key, canvas)]).
Proof.
  intros bound.
  assert (Hbound : (length (run_ops (JNum (Fin q)) ops []) ≤ bound)%nat).
  { assert (Hstep : ∀ key canvas (cache : list (string * Canvas)),
              (length cache ≤ bound)%nat →
              (length (addToCache_map (JNum (Fin q)) key canvas cache)
               ≤ bound)%nat).
    { intros key canvas cache Hlen. unfold addToCache_map.
      cbn [to_number]. unfold Map_size, num_of_Z, num_ge.
      destruct (Qle_bool q (inject_Z (Z.of_nat (length cache)))) eqn:E.
      - etrans; [apply Map_set_length_le |].
        rewrite Map_delete_first_length. subst bound. lia.
      - etrans; [apply Map_set_length_le |].
        apply Qle_bool_false in E.
        pose proof (Qle_ceiling q) as Hc.
        assert (Hlt : (inject_Z (Z.of_nat (length cache))
                       < inject_Z (Qceiling q))%Q)
          by (eapply Qlt_le_trans; eauto).
        rewrite <- Zlt_Qlt in Hlt. subst bound. lia. }
    unfold run_ops.
    assert (Hgen : ∀ cache : list (string * Canvas),
              (length cache ≤ bound)%nat →
              (length (foldl (cache_step (JNum (Fin q))) cache ops)
               ≤ bound)%nat).
    { induction ops as [| op ops IH]; intros cache Hlen; [exact Hlen |].
      simpl. apply IH. destruct op; simpl; [exact Hlen | by apply Hstep]. }
    apply Hgen. simpl. lia. }
  split; [| split; [exact Hbound |]].
  - intros url options Hopt Hq. unfold constructor, js_or. cbn.
    rewrite Hopt. cbn. apply Qnum_nonzero, Z.eqb_neq in Hq. by rewrite Hq.
  - intros Hq key canvas. unfold run_ops in *. rewrite foldl_app.
    set (cache := foldl _ _ ops) in *. cbn [foldl cache_step].
    assert (Hc : Qceiling q ≤ 0).
    { pose proof (Qceiling_lt q) as H.
      assert (H0 : (inject_Z (Qceiling q - 1) < inject_Z 0)%Q).
      { eapply Qlt_trans; [exact H |]. exact Hq. }
      rewrite <- Zlt_Qlt in H0. lia. }
    unfold addToCache_map. cbn [to_number].
    unfold Map_size, num_of_Z, num_ge.
    assert (E : Qle_bool q (inject_Z (Z.of_nat (length cache))) = true).
    { apply Qle_bool_iff.
      assert (H0 : (inject_Z 0 <= inject_Z (Z.of_nat (length cache)))%Q)
        by (rewrite <- Zle_Qle; lia).
      unfold inject_Z at 1 in H0. lra. }
    rewrite E.
    destruct cache as [| [k v] [| e cache]]; cbn [Map_first_key Map_delete];
      rewrite ?String.eqb_refl; [reflexivity | reflexivity |].
    subst bound. simpl in Hbound. lia.
Qed.

Lemma X13_witness :
  maxCacheSize
    (constructor "zarr"
       {| opt_maxCacheSize := JNum (Fin (-(1 # 1)));
          opt_autoNormalize := JUndefined;
          opt_fixedMin := JUndefined; opt_fixedMax := JUndefined |})
  = JNum (Fin (-(1 # 1))).
Proof.
  refine (proj1 (X13_cache_bound_for_any_finite_capacity (-(1 # 1))%Q [])
            "zarr"
            {| opt_maxCacheSize := JNum (Fin (-(1 # 1)));
               opt_autoNormalize := JUndefined;
               opt_fixedMin := JUndefined; opt_fixedMax := JUndefined |}
            eq_refl _).
  intros H. discriminate H.
Defined.

(** ** Lookups after [addToCache] *)

Lemma Map_get_set_ne {V} (k k' : string) (v : V) (m : list (string * V)) :
  k' ≠ k → Map_get k' (Map_set k v m) = Map_get k' m.
Proof.
  intros Hne. induction m as [| [k0 v0] m IH]; simpl.
  - destruct (String.eqb k' k) eqn:E; [| reflexivity].
    by apply String.eqb_eq in E.
  - destruct (String.eqb k k0) eqn:E; simpl.
    + apply String.eqb_eq in E. subst k0.
      destruct (String.eqb k' k) eqn:E'; [| reflexivity].
      by apply String.eqb_eq in E'.
    + by rewrite IH.
Qed.

Lemma Map_get_delete_ne {V} (k k' : string) (m : list (string * V)) :
  k' ≠ k → Map_get k' (Map_delete k m) = Map_get k' m.
Proof.
  intros Hne. induction m as [| [k0 v0] m IH]; simpl; [reflexivity |].
  destruct (String.eqb k k0) eqn:E; simpl.
  - apply String.eqb_eq in E. subst k0.
    destruct (String.eqb k' k) eqn:E'; [| reflexivity].
    by apply String.eqb_eq in E'.
  - by rewrite IH.
Qed.

Lemma Map_get_None {V} (k : string) (m : list (string * V)) :
  k ∉ Map_keys m → Map_get k m = None.
Proof.
  intros Hk. destruct (Map_get k m) as [v |] eqn:E; [| reflexivity].
  destruct Hk. by apply Map_has_keys, (Map_get_has _ _ v).
Qed.

Lemma Map_keys_cons {V} (e : string * V) (m : list (string * V)) :
  Map_keys (e :: m) = e.1 :: Map_keys m.
Proof. reflexivity. Qed.

Lemma Map_set_NoDup {V} (k : string) (v : V) (m : list (string * V)) :
  NoDup (Map_keys m) → NoDup (Map_keys (Map_set k v m)).
Proof.
  intros Hnd. rewrite Map_keys_set.
  destruct (Map_has k m) eqn:E; [exact Hnd |].
  apply NoDup_app. split; [exact Hnd |]. split; [| apply NoDup_singleton].
  intros k' Hin ->%list_elem_of_singleton.
  apply Map_has_keys in Hin. congruence.
Qed.

(** X14: the cache behaves as a map with one eviction.  Keys stay unique
    along every sequence of operations; after [addToCache(key, canvas)] the
    key is found with that canvas; and any other key is found exactly as
    before, except that the oldest key is gone when the cache was full. *)
Theorem X14_lookup_after_addToCache (cap : jsval) (key : string)
    (canvas : Canvas) (cache : list (string * Canvas)) :
  NoDup (Map_keys cache) →
  let cache' := addToCache_map cap key canvas cache in
  let evicted :=
    if num_ge (Map_size cache) (to_number cap) then Map_first_key cache
    else None in
  Map_get key cache' = Some canvas ∧
  NoDup (Map_keys cache') ∧
  (∀ k, k ≠ key →
     Map_get k cache' = if decide (evicted = Some k) then None
                        else Map_get k cache) ∧
  (∀ ops, NoDup (Map_keys (run_ops cap ops []))).
Proof.
  intros Hnd cache' evicted.
  assert (Hstep : ∀ key canvas (cache : list (string * Canvas)),
            NoDup (Map_keys cache) →
            NoDup (Map_keys (addToCache_map cap key canvas cache))).
  { clear. intros key canvas cache Hnd. unfold addToCache_map.
    apply Map_set_NoDup.
    destruct (num_ge _ _); [| exact Hnd].
    destruct cache as [| [k v] cache]; [exact Hnd |].
    cbn [Map_first_key Map_delete]. rewrite String.eqb_refl.
    rewrite Map_keys_cons in Hnd. by apply NoDup_cons in Hnd as [_ Hnd]. }
  split; [apply Map_get_set |]. split; [by apply Hstep |]. split.
  - intros k Hk. subst cache' evicted. unfold addToCache_map.
    rewrite Map_get_set_ne by exact Hk.
    destruct (num_ge _ _); [| by rewrite decide_False].
    destruct cache as [| [k0 v0] cache]; [by rewrite decide_False |].
    cbn [Map_first_key Map_delete]. rewrite String.eqb_refl.
    rewrite Map_keys_cons in Hnd. apply NoDup_cons in Hnd as [Hfresh _].
    cbn [fst] in Hfresh.
    destruct (decide (Some k0 = Some k)) as [[= ->] | Hne].
    + by apply Map_get_None.
    + simpl. destruct (String.eqb k k0) eqn:E; [| reflexivity].
      apply String.eqb_eq in E. congruence.
  - intros ops. unfold run_ops.
    assert (Hgen : ∀ cache : list (string * Canvas),
              NoDup (Map_keys cache) →
              NoDup (Map_keys (foldl (cache_step cap) cache ops))).
    { clear -Hstep. induction ops as [| op ops IH]; intros cache Hnd;
        [exact Hnd |].
      simpl. apply IH. destruct op; simpl; [exact Hnd | by apply Hstep]. }
    apply Hgen. constructor.
Qed.

Lemma X14_witness :
  let cache := [("1-0-0", black_pixel); ("1-1-0", black_pixel)] in
  let cache' := addToCache_map (JNum (num_of_Z 2)) "1-2-0" black_pixel cache in
  Map_get "1-2-0" cache' = Some black_pixel ∧
  Map_get "1-0-0" cache' = None ∧
  Map_get "1-1-0" cache' = Some black_pixel.
Proof.
  intros cache cache'.
  assert (Hnd : NoDup (Map_keys cache)).
  { unfold cache. cbn. rewrite !NoDup_cons, !elem_of_cons, !elem_of_nil.
    split; [intros [H | H]; [discriminate H | exact H] |].
    split; [tauto | apply NoDup_nil_2]. }
  destruct (X14_lookup_after_addToCache (JNum (num_of_Z 2)) "1-2-0"
              black_pixel cache Hnd) as (H1 & _ & H2 & _).
  split; [exact H1 |]. split.
  - exact (H2 "1-0-0" ltac:(discriminate)).
  - exact (H2 "1-1-0" ltac:(discriminate)).
Defined.

(** ** Initialisation *)

Lemma with_levels_nil (a : Adapter) : with_levels [] [] a = a.
Proof.
  destruct a as [[t lg] m d ax cs]. destruct t.
  unfold with_levels, set_zarrArrays. cbn. by rewrite !app_nil_r.
Qed.

Lemma with_levels_with_levels (l1 l2 : list ZarrLevel) (c1 c2 : list NetCall)
    (a : Adapter) :
  with_levels l2 c2 (with_levels l1 c1 a) = with_levels (l1 ++ l2) (c1 ++ c2) a.
Proof.
  unfold with_levels, set_zarrArrays. cbn. by rewrite !app_assoc.
Qed.

Lemma load_level_ok (net : Network) (zarrUrl : string) (d : Json.Dataset)
    (zarrArray : ZarrArray) (a : Adapter) :
  openArray net (store_url zarrUrl d) = Ok zarrArray →
  load_level net zarrUrl d a =
  (with_levels [level_for d zarrArray] [OpenArray (store_url zarrUrl d)] a,
   Ok tt).
Proof.
  intros Hopen. unfold load_level, try_catchA, await_openArray, bindA,
    record_call, liftM, push_level, modify_this. cbn.
  unfold store_url in Hopen. by rewrite Hopen.
Qed.

Lemma load_level_fail (net : Network) (zarrUrl : string) (d : Json.Dataset)
    (message : string) (a : Adapter) :
  openArray net (store_url zarrUrl d) = Throw message →
  load_level net zarrUrl d a =
  (with_levels [] [OpenArray (store_url zarrUrl d)] a,
   Throw (level_error_message (Json.path d) message)).
Proof.
  intros Hopen. unfold load_level, try_catchA, await_openArray, bindA,
    record_call, throwA. cbn.
  unfold store_url in Hopen. rewrite Hopen.
  destruct a as [[t lg] m ds ax cs]. destruct t.
  unfold with_levels, set_zarrArrays. cbn. by rewrite app_nil_r.
Qed.

Lemma load_levels_ok (net : Network) (zarrUrl : string)
    (ds : list Json.Dataset) (arrays : list ZarrArray) (a : Adapter) :
  all_open net zarrUrl ds arrays →
  for_of ds (load_level net zarrUrl) a =
  (with_levels (zip_with level_for ds arrays)
     (OpenArray ∘ store_url zarrUrl <$> ds) a, Ok tt).
Proof.
  intros Hopen. revert a.
  induction Hopen as [| d zarrArray ds arrays Hd Hopen IH]; intros a.
  - cbn. unfold retA. by rewrite with_levels_nil.
  - cbn [for_of]. unfold bindA at 1.
    rewrite (load_level_ok net zarrUrl d zarrArray a Hd), IH.
    by rewrite with_levels_with_levels.
Qed.

Lemma load_levels_fail (net : Network) (zarrUrl : string)
    (ds1 ds2 : list Json.Dataset) (d : Json.Dataset)
    (arrays : list ZarrArray) (message : string) (a : Adapter) :
  all_open net zarrUrl ds1 arrays →
  openArray net (store_url zarrUrl d) = Throw message →
  for_of (ds1 ++ d :: ds2) (load_level net zarrUrl) a =
  (with_levels (zip_with level_for ds1 arrays)
     (OpenArray ∘ store_url zarrUrl <$> ds1 ++ [d]) a,
   Throw (level_error_message (Json.path d) message)).
Proof.
  intros Hopen Hfail. revert a.
  induction Hopen as [| d1 zarrArray ds1 arrays Hd Hopen IH]; intros a.
  - cbn [app for_of]. unfold bindA.
    by rewrite (load_level_fail net zarrUrl d message a Hfail).
  - cbn [app for_of]. unfold bindA at 1.
    rewrite (load_level_ok net zarrUrl d1 zarrArray a Hd), IH.
    by rewrite with_levels_with_levels.
Qed.

(** [initialize] once the metadata document names the datasets. *)
Lemma initialize_levels (env : Env) (net : Network) (a : Adapter)
    (resp : Response) (m : Json.Metadata) (ms : Json.Multiscale)
    (rest : list Json.Multiscale) (ds : list Json.Dataset) :
  let zarrUrl := zarrUrl (this (world a)) in
  fetch net (zarrUrl +:+ "/.zattrs") = Ok resp →
  ok resp = true →
  json resp = Ok (Some m) →
  Json.multiscales m = Some (ms :: rest) →
  Json.datasets ms = Some ds →
  initialize env net a =
  match for_of ds (load_level net zarrUrl)
          (with_metadata (Some m) (Some ds) (Json.axes ms)
             [Fetch (zarrUrl +:+ "/.zattrs")] a) with
  | (a2, Ok _) => liftM (createTileSource env) a2
  | (a2, Throw e) => (a2, Throw e)
  | (a2, Pending) => (a2, Pending)
  end.
Proof.
  intros zarrUrl Hfetch Hok Hjson Hms Hds.
  unfold initialize, try_catchA, bindA at 1 2, liftM at 1, get_this,
    await_fetch, record_call. cbn [world metadata datasets axes calls].
  unfold bindA at 1. fold zarrUrl. rewrite Hfetch, Hok. cbn [negb].
  unfold bindA at 1. rewrite Hjson.
  unfold bindA at 1, set_metadata. cbn [world metadata datasets axes calls].
  rewrite Hms. unfold bindA at 1, set_datasets_axes.
  cbn [world metadata datasets axes calls]. rewrite Hds.
  unfold bindA at 1. unfold with_metadata.
  destruct (for_of ds _ _) as [a2 [[] | e |]]; [| reflexivity | reflexivity].
  by destruct (liftM (createTileSource env) a2) as [a3 [ts | e |]].
Qed.

Lemma createTileSource_levels (env : Env) (w : World) :
  zarrArrays (this w) ≠ [] →
  ∃ ts highestRes,
    createTileSource env w = (w, Ok ts) ∧
    zarrArrays (this w) !! 0%nat = Some highestRes ∧
    TileSource.minLevel ts = 0 ∧
    TileSource.maxLevel ts = Z.of_nat (length (zarrArrays (this w))) - 1 ∧
    (TileSource.width ts, TileSource.height ts)
      = level_extent (array highestRes) ∧
    (TileSource.tileWidth ts, TileSource.tileHeight ts)
      = tile_size (array highestRes).
Proof.
  intros Hne. unfold createTileSource. unfold_M.
  destruct (zarrArrays (this w)) as [| highestRes rest] eqn:Hz; [done |].
  cbn [lookup list_lookup].
  eexists _, highestRes. split; [reflexivity |].
  split; [reflexivity |]. cbn.
  split; [reflexivity |]. split; [lia |].
  unfold level_extent, tile_size.
  by destruct (length (shape (array highestRes)) =? 3)%nat.
Qed.

Lemma createTileSource_no_levels (env : Env) (w : World) :
  zarrArrays (this w) = [] →
  createTileSource env w = (w, Throw (type_error env)).
Proof.
  intros Hnil. unfold createTileSource. unfold_M. rewrite Hnil.
  by destruct w.
Qed.

Lemma all_open_length (net : Network) (zarrUrl : string)
    (ds : list Json.Dataset) (arrays : list ZarrArray) :
  all_open net zarrUrl ds arrays → length arrays = length ds.
Proof. intros H. symmetry. exact (Forall2_length _ _ _ H). Qed.

Lemma zip_with_level_for_length (ds : list Json.Dataset)
    (arrays : list ZarrArray) :
  length arrays = length ds →
  length (zip_with level_for ds arrays) = length ds.
Proof. intros H. rewrite length_zip_with. lia. Qed.

(** The run of [initialize] when the metadata names datasets that all
    open. *)
Lemma initialize_ok (env : Env) (net : Network) (a : Adapter)
    (resp : Response) (m : Json.Metadata) (ms : Json.Multiscale)
    (rest : list Json.Multiscale) (ds : list Json.Dataset)
    (arrays : list ZarrArray) :
  let zarrUrl := zarrUrl (this (world a)) in
  fetch net (zarrUrl +:+ "/.zattrs") = Ok resp →
  ok resp = true →
  json resp = Ok (Some m) →
  Json.multiscales m = Some (ms :: rest) →
  Json.datasets ms = Some ds →
  all_open net zarrUrl ds arrays →
  initialize env net a =
  liftM (createTileSource env)
    (with_levels (zip_with level_for ds arrays)
       (OpenArray ∘ store_url zarrUrl <$> ds)
       (with_metadata (Some m) (Some ds) (Json.axes ms)
          [Fetch (zarrUrl +:+ "/.zattrs")] a)).
Proof.
  intros zarrUrl Hfetch Hok Hjson Hms Hds Hopen.
  rewrite (initialize_levels env net a resp m ms rest ds Hfetch Hok Hjson
             Hms Hds).
  fold zarrUrl. by rewrite (load_levels_ok net zarrUrl ds arrays _ Hopen).
Qed.

(** X15 (initialize, lines 21-85).  When [.zattrs] is fetched with an ok
    status, parses to a document whose first multiscale lists datasets, and
    every dataset's array opens: the levels are pushed behind those already
    held, one per dataset and in the order of the document, nothing else of
    the instance changes, the network sees the fetch and then one
    [openArray] per dataset in that order, only the first multiscale is
    read, and the result is the tile source with [maxLevel] the number of
    levels held minus 1.  With no level held and no dataset listed the
    call throws the TypeError of [createTileSource] instead. *)
Theorem X15_initialize_pushes_levels_in_document_order (env : Env)
    (net : Network) (a : Adapter) (resp : Response) (m : Json.Metadata)
    (ms : Json.Multiscale) (rest : list Json.Multiscale)
    (ds : list Json.Dataset) (arrays : list ZarrArray) :
  let zarrUrl := zarrUrl (this (world a)) in
  let old := zarrArrays (this (world a)) in
  fetch net (zarrUrl +:+ "/.zattrs") = Ok resp →
  ok resp = true →
  json resp = Ok (Some m) →
  Json.multiscales m = Some (ms :: rest) →
  Json.datasets ms = Some ds →
  all_open net zarrUrl ds arrays →
  let a' := (initialize env net a).1 in
  let r := (initialize env net a).2 in
  this (world a') = set_zarrArrays (old ++ zip_with level_for ds arrays)
                      (this (world a)) ∧
  log (world a') = log (world a) ∧
  metadata a' = Some m ∧ datasets a' = Some ds ∧ axes a' = Json.axes ms ∧
  calls a' = calls a ++ Fetch (zarrUrl +:+ "/.zattrs")
                     :: (OpenArray ∘ store_url zarrUrl <$> ds) ∧
  (old = [] → ds = [] → r = Throw (type_error env)) ∧
  (old ≠ [] ∨ ds ≠ [] →
   ∃ ts, r = Ok ts ∧ TileSource.minLevel ts = 0 ∧
         TileSource.maxLevel ts
           = Z.of_nat (length old) + Z.of_nat (length ds) - 1).
Proof.
  intros zarrUrl old Hfetch Hok Hjson Hms Hds Hopen a' r.
  pose proof (initialize_ok env net a resp m ms rest ds arrays Hfetch Hok
                Hjson Hms Hds Hopen) as Hrun.
  fold zarrUrl in Hrun.
  pose proof (all_open_length _ _ _ _ Hopen) as Hlen.
  set (a1 := with_levels _ _ _) in Hrun.
  assert (Hz : zarrArrays (this (world a1))
               = old ++ zip_with level_for ds arrays) by reflexivity.
  destruct (decide (old ++ zip_with level_for ds arrays = [])) as [Hnil | Hne].
  - rewrite <- Hz in Hnil.
    pose proof (createTileSource_no_levels env (world a1) Hnil) as Hts.
    assert (Hinit : initialize env net a = (a1, Throw (type_error env))).
    { rewrite Hrun. unfold liftM. rewrite Hts. by destruct a1. }
    subst a' r. rewrite Hinit. cbn [fst snd].
    rewrite Hz in Hnil. apply app_eq_nil in Hnil as [Hold Hnew].
    assert (Hdsnil : ds = []).
    { apply length_zero_iff_nil.
      rewrite <- (zip_with_level_for_length ds arrays Hlen), Hnew. done. }
    split; [reflexivity |]. split; [reflexivity |].
    split; [reflexivity |]. split; [reflexivity |]. split; [reflexivity |].
    split; [subst a1; cbn; by rewrite <- app_assoc |].
    split; [done |].
    intros [H | H]; done.
  - rewrite <- Hz in Hne.
    destruct (createTileSource_levels env (world a1) Hne)
      as (ts & highestRes & Hts & _ & Hmin & Hmax & _).
    assert (Hinit : initialize env net a = (a1, Ok ts)).
    { rewrite Hrun. unfold liftM. rewrite Hts. by destruct a1. }
    subst a' r. rewrite Hinit. cbn [fst snd].
    split; [reflexivity |]. split; [reflexivity |].
    split; [reflexivity |]. split; [reflexivity |]. split; [reflexivity |].
    split; [subst a1; cbn; by rewrite <- app_assoc |].
    split.
    + intros Hold Hdsnil. exfalso. apply Hne. rewrite Hz.
      subst old. rewrite Hold, Hdsnil. done.
    + intros _. exists ts. split; [done |]. split; [done |].
      rewrite Hmax, Hz, length_app,
        (zip_with_level_for_length ds arrays Hlen). lia.
Qed.

Lemma X15_witness :
  ∃ ts,
    (initialize (env_serving []) two_level_net
       (new_adapter "zarr" no_options)).2 = Ok ts ∧
    TileSource.minLevel ts = 0 ∧
    TileSource.maxLevel ts = 0 + 2 - 1.
Proof.
  refine (proj2 (proj2 (proj2 (proj2 (proj2 (proj2 (proj2
    (X15_initialize_pushes_levels_in_document_order (env_serving [])
       two_level_net (new_adapter "zarr" no_options)
       {| ok := true; status := 200;
          json := Ok (Some (metadata_of ["0"; "1"] (Some (Json.Object "channels")))) |}
       (metadata_of ["0"; "1"] (Some (Json.Object "channels")))
       {| Json.datasets := Some (Json.Build_Dataset <$> ["0"; "1"]);
          Json.axes := Some "cyx" |}
       [] (Json.Build_Dataset <$> ["0"; "1"]) two_level_arrays
       eq_refl eq_refl eq_refl eq_refl eq_refl _))))))) _).
  - repeat constructor.
  - right. discriminate.
Defined.

(** X16 (initialize, lines 48-71 and 76-84).  When the array of one dataset
    fails to open, [initialize] throws the message of line 69 for that
    dataset; the levels of the datasets before it stay pushed on the
    instance, the metadata read stays stored, and no dataset after it is
    opened. *)
Theorem X16_failed_level_leaves_earlier_levels (env : Env) (net : Network)
    (a : Adapter) (resp : Response) (m : Json.Metadata)
    (ms : Json.Multiscale) (rest : list Json.Multiscale)
    (ds1 ds2 : list Json.Dataset) (d : Json.Dataset)
    (arrays : list ZarrArray) (message : string) :
  let zarrUrl := zarrUrl (this (world a)) in
  let old := zarrArrays (this (world a)) in
  fetch net (zarrUrl +:+ "/.zattrs") = Ok resp →
  ok resp = true →
  json resp = Ok (Some m) →
  Json.multiscales m = Some (ms :: rest) →
  Json.datasets ms = Some (ds1 ++ d :: ds2) →
  all_open net zarrUrl ds1 arrays →
  openArray net (store_url zarrUrl d) = Throw message →
  let a' := (initialize env net a).1 in
  (initialize env net a).2
    = Throw (level_error_message (Json.path d) message) ∧
  this (world a') = set_zarrArrays (old ++ zip_with level_for ds1 arrays)
                      (this (world a)) ∧
  length (zarrArrays (this (world a')))
    = (length old + length ds1)%nat ∧
  log (world a') = log (world a) ∧
  metadata a' = Some m ∧
  calls a' = calls a ++ Fetch (zarrUrl +:+ "/.zattrs")
                     :: (OpenArray ∘ store_url zarrUrl <$> ds1 ++ [d]).
Proof.
  intros zarrUrl old Hfetch Hok Hjson Hms Hds Hopen Hfail a'.
  pose proof (initialize_levels env net a resp m ms rest (ds1 ++ d :: ds2)
                Hfetch Hok Hjson Hms Hds) as Hrun.
  fold zarrUrl in Hrun.
  rewrite (load_levels_fail net zarrUrl ds1 ds2 d arrays message _ Hopen
             Hfail) in Hrun.
  subst a'. rewrite Hrun. cbn [fst snd].
  split; [reflexivity |]. split; [reflexivity |].
  split.
  { cbn. rewrite length_app,
      (zip_with_level_for_length ds1 arrays (all_open_length _ _ _ _ Hopen)).
    done. }
  split; [reflexivity |]. split; [reflexivity |].
  cbn. by rewrite <- app_assoc.
Qed.

Lemma X16_witness :
  let a' := (initialize (env_serving []) broken_level_net
               (new_adapter "zarr" no_options)).1 in
  (initialize (env_serving []) broken_level_net
     (new_adapter "zarr" no_options)).2
    = Throw (level_error_message "1" "store not found") ∧
  length (zarrArrays (this (world a'))) = (0 + 1)%nat ∧
  calls a' = [] ++ [Fetch "zarr/.zattrs"; OpenArray "zarr/0";
                    OpenArray "zarr/1"].
Proof.
  pose proof (X16_failed_level_leaves_earlier_levels (env_serving [])
       broken_level_net (new_adapter "zarr" no_options)
       {| ok := true; status := 200;
          json := Ok (Some (metadata_of ["0"; "1"; "2"] None)) |}
       (metadata_of ["0"; "1"; "2"] None)
       {| Json.datasets := Some (Json.Build_Dataset <$> ["0"; "1"; "2"]);
          Json.axes := Some "cyx" |}
       [] [Json.Build_Dataset "0"] [Json.Build_Dataset "2"]
       (Json.Build_Dataset "1")
       [array_of [3; 1000; 1000] [1; 256; 256]] "store not found"
       eq_refl eq_refl eq_refl eq_refl eq_refl
       ltac:(repeat constructor) eq_refl) as (Hr & _ & Hlen & _ & _ & Hcalls).
  exact (conj Hr (conj Hlen Hcalls)).
Defined.

(** [initialize] as the cases of what the network answers. *)
Lemma initialize_cases (env : Env) (net : Network) (a : Adapter) :
  let zarrUrl := zarrUrl (this (world a)) in
  let fetched := [Fetch (zarrUrl +:+ "/.zattrs")] in
  let unread := with_metadata (metadata a) (datasets a) (axes a) fetched a in
  initialize env net a =
  match fetch net (zarrUrl +:+ "/.zattrs") with
  | Throw e => (unread, Throw e)
  | Pending => (unread, Pending)
  | Ok resp =>
      if ok resp then
        match json resp with
        | Throw e => (unread, Throw e)
        | Pending => (unread, Pending)
        | Ok None =>
            (with_metadata None (datasets a) (axes a) fetched a,
             Throw (type_error env))
        | Ok (Some m) =>
            match Json.multiscales m with
            | None | Some [] =>
                (with_metadata (Some m) (datasets a) (axes a) fetched a,
                 Throw "Invalid OME-Zarr metadata: missing multiscales")
            | Some (ms :: _) =>
                match Json.datasets ms with
                | None =>
                    (with_metadata (Some m) None (Json.axes ms) fetched a,
                     Throw (type_error env))
                | Some ds =>
                    match for_of ds (load_level net zarrUrl)
                            (with_metadata (Some m) (Some ds) (Json.axes ms)
                               fetched a) with
                    | (a2, Ok _) => liftM (createTileSource env) a2
                    | (a2, Throw e) => (a2, Throw e)
                    | (a2, Pending) => (a2, Pending)
                    end
                end
            end
        end
      else
        (unread,
         Throw (http_error_message (status resp) (zarrUrl +:+ "/.zattrs")))
  end.
Proof.
  intros zarrUrl fetched unread. subst unread fetched.
  unfold initialize, try_catchA, bindA at 1 2, liftM at 1, get_this,
    await_fetch, record_call. cbn [world metadata datasets axes calls].
  unfold bindA at 1. fold zarrUrl. unfold with_metadata.
  destruct (fetch net _) as [resp | e |]; [| reflexivity | reflexivity].
  destruct (ok resp); cbn [negb]; [| reflexivity].
  unfold bindA at 1.
  destruct (json resp) as [[m |] | e |];
    [| reflexivity | reflexivity | reflexivity].
  unfold bindA at 1, set_metadata. cbn [world metadata datasets axes calls].
  destruct (Json.multiscales m) as [[| ms rest] |];
    [reflexivity | | reflexivity].
  unfold bindA at 1, set_datasets_axes.
  cbn [world metadata datasets axes calls].
  destruct (Json.datasets ms) as [ds |]; [| reflexivity].
  unfold bindA at 1.
  destruct (for_of ds _ _) as [a2 [[] | e |]]; [| reflexivity | reflexivity].
  by destruct (liftM (createTileSource env) a2) as [a3 [ts | e |]].
Qed.

(** X17 (initialize, lines 24-45 and 76-84).  Every failure met before the
    loop over the datasets is thrown on by the outer [catch] with its own
    message, leaves the instance as it was, and makes no network call but
    the fetch of [.zattrs]: a rejected fetch, a status that is not ok (the
    message of line 31 with the status and the URL), a body that does not
    parse, a body that is [null] (a TypeError, with the metadata stored as
    null), a document with no multiscales or an empty list of them (the
    message of line 39, with the document stored), and a first multiscale
    with no datasets (a TypeError at the loop). *)
Theorem X17_metadata_failures_open_no_level (env : Env) (net : Network)
    (a : Adapter) :
  let zattrsUrl := zarrUrl (this (world a)) +:+ "/.zattrs" in
  let a' := (initialize env net a).1 in
  let r := (initialize env net a).2 in
  (∀ message, fetch net zattrsUrl = Throw message →
     r = Throw message ∧ stopped_before_levels a a' ∧
     metadata a' = metadata a) ∧
  (∀ resp, fetch net zattrsUrl = Ok resp → ok resp = false →
     r = Throw (http_error_message (status resp) zattrsUrl) ∧
     stopped_before_levels a a' ∧ metadata a' = metadata a) ∧
  (∀ resp message,
     fetch net zattrsUrl = Ok resp → ok resp = true →
     json resp = Throw message →
     r = Throw message ∧ stopped_before_levels a a' ∧
     metadata a' = metadata a) ∧
  (∀ resp,
     fetch net zattrsUrl = Ok resp → ok resp = true →
     json resp = Ok None →
     r = Throw (type_error env) ∧ stopped_before_levels a a' ∧
     metadata a' = None) ∧
  (∀ resp m,
     fetch net zattrsUrl = Ok resp → ok resp = true →
     json resp = Ok (Some m) →
     Json.multiscales m = None ∨ Json.multiscales m = Some [] →
     r = Throw "Invalid OME-Zarr metadata: missing multiscales" ∧
     stopped_before_levels a a' ∧ metadata a' = Some m) ∧
  (∀ resp m ms rest,
     fetch net zattrsUrl = Ok resp → ok resp = true →
     json resp = Ok (Some m) →
     Json.multiscales m = Some (ms :: rest) →
     Json.datasets ms = None →
     r = Throw (type_error env) ∧ stopped_before_levels a a' ∧
     metadata a' = Some m ∧ datasets a' = None ∧ axes a' = Json.axes ms).
Proof.
  intros zattrsUrl a' r. subst a' r.
  unfold stopped_before_levels. fold zattrsUrl.
  rewrite (initialize_cases env net a). fold zattrsUrl.
  repeat split.
  all: intros;
    repeat match goal with
           | H : _ ∨ _ |- _ => destruct H
           end;
    repeat match goal with
           | H : fetch _ _ = _ |- _ => rewrite H; clear H
           | H : ok _ = _ |- _ => rewrite H; clear H
           | H : json _ = _ |- _ => rewrite H; clear H
           | H : Json.multiscales _ = _ |- _ => rewrite H; clear H
           | H : Json.datasets _ = _ |- _ => rewrite H; clear H
           end; reflexivity.
Qed.

Lemma X17_witness :
  (initialize (env_serving []) two_level_net
     (new_adapter "elsewhere" no_options)).2
    = Throw (http_error_message 404 "elsewhere/.zattrs") ∧
  stopped_before_levels (new_adapter "elsewhere" no_options)
    (initialize (env_serving []) two_level_net
       (new_adapter "elsewhere" no_options)).1.
Proof.
  pose proof (proj1 (proj2 (X17_metadata_failures_open_no_level
       (env_serving []) two_level_net (new_adapter "elsewhere" no_options)))
       {| ok := false; status := 404; json := Throw "not JSON" |}
       eq_refl eq_refl) as (Hr & Hstop & _).
  exact (conj Hr Hstop).
Defined.

Lemma load_level_metadata (net : Network) (zarrUrl : string)
    (d : Json.Dataset) (a : Adapter) :
  metadata (load_level net zarrUrl d a).1 = metadata a.
Proof.
  unfold load_level, try_catchA, await_openArray, bindA, record_call, liftM,
    push_level, modify_this, throwA. cbn.
  by destruct (openArray net _).
Qed.

Lemma for_of_load_level_metadata (net : Network) (zarrUrl : string)
    (ds : list Json.Dataset) (a : Adapter) :
  metadata (for_of ds (load_level net zarrUrl) a).1 = metadata a.
Proof.
  revert a. induction ds as [| d ds IH]; intros a; [reflexivity |].
  cbn [for_of]. unfold bindA.
  pose proof (load_level_metadata net zarrUrl d a) as Hd.
  destruct (load_level net zarrUrl d a) as [a1 [[] | e |]]; cbn [fst] in Hd.
  - by rewrite IH.
  - done.
  - done.
Qed.

Lemma liftM_metadata {A} (m : M A) (a : Adapter) :
  metadata (liftM m a).1 = metadata a.
Proof. unfold liftM. by destruct (m (world a)). Qed.

(** X18 (createOmeZarrTileSource, lines 314-318, with initialize and
    getTileImage).  After the factory has run over a document that lists
    [n] datasets whose arrays all open, it returns normally, and the first
    request for a tile of engine level [L] between 0 and [n - 1] reads,
    once, the region of that tile from the array opened for the dataset at
    position [n - 1 - L] of the document: the dataset listed first serves
    the engine's deepest level. *)
Theorem X18_engine_level_reads_the_dataset_counted_from_the_end (env : Env)
    (net : Network) (tile_env : Env) (url : string) (options : Options)
    (resp : Response) (m : Json.Metadata) (ms : Json.Multiscale)
    (rest : list Json.Multiscale) (ds : list Json.Dataset)
    (arrays : list ZarrArray) (L x y : Z) :
  fetch net (url +:+ "/.zattrs") = Ok resp →
  ok resp = true →
  json resp = Ok (Some m) →
  Json.multiscales m = Some (ms :: rest) →
  Json.datasets ms = Some ds →
  all_open net url ds arrays →
  let n := Z.of_nat (length ds) in
  0 ≤ L ≤ n - 1 →
  let a := (createOmeZarrTileSource env net url options).1 in
  (createOmeZarrTileSource env net url options).2 = Ok tt ∧
  ∃ d zarrArray,
    ds !! Z.to_nat (n - 1 - L) = Some d ∧
    openArray net (store_url url d) = Ok zarrArray ∧
    zarrArrays (this (world a)) !! Z.to_nat (n - 1 - L)
      = Some (level_for d zarrArray) ∧
    let '(channel, rows, cols) := tile_region zarrArray x y in
    region_reads
      (log (downloadTileStart tile_env
              {| tile := Some {| level := L; x := x; y := y |} |}
              (world a)))
    = [(n - 1 - L, channel, rows, cols)].
Proof.
  intros Hfetch Hok Hjson Hms Hds Hopen n HL a.
  pose proof (initialize_ok env net (new_adapter url options) resp m ms rest
                ds arrays Hfetch Hok Hjson Hms Hds Hopen) as Hrun.
  cbn [new_adapter world this constructor zarrUrl] in Hrun.
  pose proof (all_open_length _ _ _ _ Hopen) as Hlen.
  set (a1 := with_levels _ _ _) in Hrun.
  assert (Hz : zarrArrays (this (world a1)) = zip_with level_for ds arrays)
    by reflexivity.
  assert (Hzlen : length (zarrArrays (this (world a1))) = length ds).
  { rewrite Hz. by apply zip_with_level_for_length. }
  assert (Hne : zarrArrays (this (world a1)) ≠ []).
  { intros Hnil. rewrite Hnil in Hzlen. cbn in Hzlen. subst n. lia. }
  destruct (createTileSource_levels env (world a1) Hne)
    as (ts & highestRes & Hts & _).
  assert (Hinit : initialize env net (new_adapter url options) = (a1, Ok ts)).
  { cbn [new_adapter world this constructor zarrUrl].
    rewrite Hrun. unfold liftM. rewrite Hts. by destruct a1. }
  subst a. unfold createOmeZarrTileSource. rewrite Hinit. cbn [fst snd].
  split; [reflexivity |].
  destruct (lookup_lt_is_Some_2 ds (Z.to_nat (n - 1 - L))) as [d Hd];
    [subst n; lia |].
  destruct (lookup_lt_is_Some_2 arrays (Z.to_nat (n - 1 - L)))
    as [zarrArray Harr]; [subst n; lia |].
  exists d, zarrArray. split; [done |].
  split; [exact (Forall2_lookup_lr _ _ _ _ _ _ Hopen Hd Harr) |].
  assert (Hlev : zarrArrays (this (world a1)) !! Z.to_nat (n - 1 - L)
                 = Some (level_for d zarrArray)).
  { rewrite Hz, lookup_zip_with, Hd. cbn. by rewrite Harr. }
  split; [done |].
  assert (Htotal : Z.of_nat (length (zarrArrays (this (world a1)))) = n)
    by (subst n; lia).
  pose proof (miss_reads_clamped_region tile_env L x y (world a1)
                (level_for d zarrArray)) as Hread.
  cbn zeta in Hread. rewrite Htotal in Hread.
  specialize (Hread eq_refl HL Hlev).
  cbn [level_for array] in Hread.
  destruct (tile_region zarrArray x y) as [[channel rows] cols].
  exact Hread.
Qed.

Lemma X18_witness :
  let a := (createOmeZarrTileSource (env_serving []) two_level_net "zarr"
              no_options).1 in
  (createOmeZarrTileSource (env_serving []) two_level_net "zarr"
     no_options).2 = Ok tt ∧
  ∃ d zarrArray,
    (Json.Build_Dataset <$> ["0"; "1"]) !! Z.to_nat (2 - 1 - 1) = Some d ∧
    openArray two_level_net (store_url "zarr" d) = Ok zarrArray ∧
    zarrArrays (this (world a)) !! Z.to_nat (2 - 1 - 1)
      = Some (level_for d zarrArray) ∧
    let '(channel, rows, cols) := tile_region zarrArray 3 0 in
    region_reads
      (log (downloadTileStart (env_serving [])
              {| tile := Some {| level := 1; x := 3; y := 0 |} |}
              (world a)))
    = [(2 - 1 - 1, channel, rows, cols)].
Proof.
  refine (X18_engine_level_reads_the_dataset_counted_from_the_end
       (env_serving []) two_level_net (env_serving []) "zarr" no_options
       {| ok := true; status := 200;
          json := Ok (Some (metadata_of ["0"; "1"] (Some (Json.Object "channels")))) |}
       (metadata_of ["0"; "1"] (Some (Json.Object "channels")))
       {| Json.datasets := Some (Json.Build_Dataset <$> ["0"; "1"]);
          Json.axes := Some "cyx" |}
       [] (Json.Build_Dataset <$> ["0"; "1"]) two_level_arrays 1 3 0
       eq_refl eq_refl eq_refl eq_refl eq_refl _ _).
  - repeat constructor.
  - cbn. lia.
Defined.

(** X19 (getOmeroMetadata, lines 306-308, with initialize).  A new
    instance has no omero block.  After [initialize], whether it returned,
    threw, or is left waiting for a level, the block is the [omero] entry
    of the document when the body of an ok response parsed to a document
    and the entry is there and truthy; it is null when the entry is
    missing or falsy ([null], [false], 0, the empty string) or the body
    parsed to [null]; and it is what it was before when the fetch did not
    resolve, the status was not ok, or the body did not parse.  A level
    that fails to open afterwards does not take the block away. *)
Theorem X19_omero_block_follows_the_parsed_document (env : Env)
    (net : Network) (a : Adapter) :
  (∀ url options, getOmeroMetadata (new_adapter url options) = None) ∧
  getOmeroMetadata (initialize env net a).1 =
  match fetch net (zarrUrl (this (world a)) +:+ "/.zattrs") with
  | Ok resp =>
      if ok resp then
        match json resp with
        | Ok (Some m) =>
            match Json.omero m with
            | Some v => if Json.truthy v then Some v else None
            | None => None
            end
        | Ok None => None
        | Throw _ | Pending => getOmeroMetadata a
        end
      else getOmeroMetadata a
  | Throw _ | Pending => getOmeroMetadata a
  end.
Proof.
  split; [reflexivity |].
  unfold getOmeroMetadata. rewrite (initialize_cases env net a).
  destruct (fetch net _) as [resp | e |]; [| reflexivity | reflexivity].
  destruct (ok resp); [| reflexivity].
  destruct (json resp) as [[m |] | e |];
    [| reflexivity | reflexivity | reflexivity].
  destruct (Json.multiscales m) as [[| ms rest] |];
    [reflexivity | | reflexivity].
  destruct (Json.datasets ms) as [ds |]; [| reflexivity].
  pose proof (for_of_load_level_metadata net (zarrUrl (this (world a))) ds
                (with_metadata (Some m) (Some ds) (Json.axes ms)
                   [Fetch (zarrUrl (this (world a)) +:+ "/.zattrs")] a))
    as Hloop.
  destruct (for_of ds _ _) as [a2 [[] | e |]]; cbn [fst] in Hloop.
  - rewrite liftM_metadata, Hloop. reflexivity.
  - cbn [fst]. rewrite Hloop. reflexivity.
  - cbn [fst]. rewrite Hloop. reflexivity.
Qed.

Lemma X19_witness :
  getOmeroMetadata
    (initialize (env_serving []) two_level_net
       (new_adapter "zarr" no_options)).1
    = Some (Json.Object "channels") ∧
  getOmeroMetadata
    (initialize (env_serving []) falsy_omero_net
       (new_adapter "zarr" no_options)).1
    = None.
Proof.
  split.
  - exact (proj2 (X19_omero_block_follows_the_parsed_document
                    (env_serving []) two_level_net
                    (new_adapter "zarr" no_options))).
  - exact (proj2 (X19_omero_block_follows_the_parsed_document
                    (env_serving []) falsy_omero_net
                    (new_adapter "zarr" no_options))).
Defined.

(** * The viewer component *)

Lemma session_ind (trim : string → string) (P : Component → Prop) :
  P setup →
  (∀ s a, P s → P (act trim s a)) →
  ∀ actions, P (session trim actions).
Proof.
  intros H0 Hstep actions. unfold session.
  induction actions as [| a actions IH] using rev_ind; [exact H0 |].
  rewrite foldl_app. cbn [foldl]. by apply Hstep.
Qed.

Lemma session_snoc (trim : string → string) (actions : list Action)
    (a : Action) :
  session trim (actions ++ [a]) = act trim (session trim actions) a.
Proof. unfold session. by rewrite foldl_app. Qed.

(** ** Strokes *)

Lemma moved_irrefl (a : Point.t) : moved a a = false.
Proof.
  unfold moved, num_gt.
  assert (H : ∀ n, num_lt (Fin (1 # 2)) (Math_abs (num_sub n n)) = false).
  { intros [| | | q]; try reflexivity.
    unfold num_sub, Math_abs, num_lt.
    apply negb_false_iff, Qle_bool_iff.
    assert (Hz : (q - q == 0)%Q) by ring.
    rewrite (Qabs_wd _ _ Hz). done. }
  by rewrite !H.
Qed.

Lemma moved_neq (a b : Point.t) : moved a b = true → a ≠ b.
Proof. intros H ->. by rewrite moved_irrefl in H. Qed.

Lemma well_spaced_singleton (p : Point.t) : well_spaced [p].
Proof. intros i a b Ha Hb. by destruct i. Qed.

Lemma well_spaced_snoc (pts : list Point.t) (l p : Point.t) :
  well_spaced pts → last pts = Some l → moved l p = true →
  well_spaced (pts ++ [p]).
Proof.
  intros Hws Hlast Hmoved i a b Ha Hb.
  destruct (decide (S i < length pts)%nat) as [Hlt | Hge].
  - rewrite lookup_app_l in Ha by lia. rewrite lookup_app_l in Hb by lia.
    by apply (Hws i).
  - apply lookup_lt_Some in Hb as Hb'. rewrite length_app in Hb'.
    cbn in Hb'. assert (Hi : S i = length pts) by lia.
    rewrite lookup_app_l in Ha by lia.
    rewrite lookup_app_r in Hb by lia.
    replace (S i - length pts)%nat with 0%nat in Hb by lia.
    cbn in Hb. injection Hb as <-.
    rewrite last_lookup in Hlast.
    replace (Nat.pred (length pts)) with i in Hlast by lia.
    congruence.
Qed.

Lemma strokes_inv_frame (s s' : Component) :
  strokes s' = strokes s →
  (∀ o', drawingOverlay s' = Some o' →
         ∃ o, drawingOverlay s = Some o ∧ liveStroke o' = liveStroke o) →
  (∀ message, Uncaught message ∈ effects s' →
              Uncaught message ∈ effects s) →
  strokes_inv s → strokes_inv s'.
Proof.
  intros Hst Hov Heff (Hs & Hl & Hu). split; [by rewrite Hst |]. split.
  - intros o' live Ho' Hlive. destruct (Hov o' Ho') as (o & Ho & Heq).
    apply (Hl o live Ho). by rewrite <- Heq.
  - intros message Hin. exact (Hu message (Heff message Hin)).
Qed.

Lemma not_Uncaught_snoc (es : list Effect) (e : Effect) (message : string) :
  (∀ m, e ≠ Uncaught m) →
  Uncaught message ∈ es ++ [e] → Uncaught message ∈ es.
Proof.
  intros He Hin. apply elem_of_app in Hin as [Hin | Hin]; [done |].
  apply list_elem_of_singleton in Hin. by destruct (He message).
Qed.

Ltac frame_effects :=
  repeat match goal with
  | H : Uncaught _ ∈ effects _ |- _ => progress cbn in H
  | H : Uncaught _ ∈ _ ++ [_] |- _ =>
      apply not_Uncaught_snoc in H; [| by intros ?]
  end.

Lemma strokes_inv_step (trim : string → string) (s : Component) (a : Action) :
  strokes_inv s → strokes_inv (act trim s a).
Proof.
  intros Hinv. destruct a; cbn [act].
  - (* toggleDrawMode *)
    apply (strokes_inv_frame s); [| | | done]; unfold toggleDrawMode.
    + cbn. by destruct (drawingOverlay s).
    + cbn. destruct (drawingOverlay s) as [o |] eqn:Ho; cbn; rewrite ?Ho;
        [| done].
      intros o' [= <-]. eauto.
    + cbn. by destruct (drawingOverlay s).
  - (* undoLastStroke *)
    destruct Hinv as (Hs & Hl & Hu). unfold undoLastStroke.
    destruct (length (strokes s) =? 0)%nat; [done |].
    unfold redraw_if_overlay, redraw. cbn.
    destruct (drawingOverlay s) as [o |] eqn:Ho; cbn.
    + split; [by apply Forall_take |]. split.
      * intros o' live. cbn. rewrite Ho. intros [= <-] Hlive.
        by apply (Hl o live).
      * intros message Hin. frame_effects. by apply (Hu message).
    + split; [by apply Forall_take |]. split; [| done].
      intros o' live. cbn. by rewrite Ho.
  - (* clearAllStrokes *)
    destruct Hinv as (Hs & Hl & Hu). unfold clearAllStrokes.
    unfold redraw_if_overlay, redraw. cbn.
    destruct (drawingOverlay s) as [o |] eqn:Ho; cbn.
    + split; [done |]. split.
      * intros o' live. cbn. rewrite Ho. intros [= <-] Hlive.
        by apply (Hl o live).
      * intros message Hin. frame_effects. by apply (Hu message).
    + split; [done |]. split; [| done].
      intros o' live. cbn. by rewrite Ho.
  - by apply (strokes_inv_frame s); eauto.
  - by apply (strokes_inv_frame s); eauto.
  - (* onPointerDown *)
    destruct Hinv as (Hs & Hl & Hu). unfold onPointerDown.
    destruct (drawingOverlay s) as [o |] eqn:Ho; [| done].
    split; [done |]. split.
    + intros o' live. cbn. intros [= <-] [= <-]. cbn.
      split; [lia | apply well_spaced_singleton].
    + intros message Hin. cbn in Hin. frame_effects. by apply (Hu message).
  - (* onPointerMove *)
    destruct Hinv as (Hs & Hl & Hu). unfold onPointerMove.
    destruct (drawingOverlay s) as [o |] eqn:Ho; [| done].
    destruct (isPointerDown o); cbn [negb]; [| done].
    destruct (liveStroke o) as [live |] eqn:Hlive; [| done].
    destruct (Hl o live Ho Hlive) as [Hlen Hws].
    destruct (last (Stroke.points live)) as [l |] eqn:Hlast.
    2:{ apply last_None in Hlast. rewrite Hlast in Hlen. cbn in Hlen. lia. }
    destruct (moved l p) eqn:Hmoved; [| done].
    split; [done |]. split.
    + intros o' live'. cbn. intros [= <-] [= <-]. cbn.
      split; [rewrite length_app; lia |].
      by apply (well_spaced_snoc _ l).
    + intros message Hin. cbn in Hin. frame_effects. by apply (Hu message).
  - (* onPointerUp *)
    destruct Hinv as (Hs & Hl & Hu). unfold onPointerUp.
    destruct (drawingOverlay s) as [o |] eqn:Ho; [| done].
    destruct (isPointerDown o); cbn [negb]; [| done].
    cbn [set_isPointerDown liveStroke].
    remember (match liveStroke o with
              | Some live =>
                  if (2 <=? length (Stroke.points live))%nat
                  then set_strokes (strokes s ++ [live]) s
                  else s
              | None => s
              end) as s1 eqn:Hs1.
    assert (Hstrokes : Forall stroke_ok (strokes s1)).
    { subst s1. destruct (liveStroke o) as [live |] eqn:Hlive; [| done].
      destruct (2 <=? length (Stroke.points live))%nat eqn:H2; [| done].
      cbn. apply Forall_app. split; [done |]. apply Forall_singleton.
      split; [by apply Nat.leb_le |]. by apply (Hl o live). }
    assert (Heff : effects s1 = effects s).
    { subst s1. destruct (liveStroke o) as [live |]; [| done].
      by destruct (2 <=? length (Stroke.points live))%nat. }
    split; [exact Hstrokes |]. split.
    + intros o' live'. cbn. by intros [= <-] [=].
    + intros message Hin. cbn in Hin. rewrite Heff in Hin.
      frame_effects. by apply (Hu message).
  - (* addRoi *)
    apply (strokes_inv_frame s); [| | | done]; unfold addRoi.
    all: destruct (_ || _); unfold setRois_if_overlay; cbn;
      try destruct (roiOverlay s); cbn; eauto.
    all: intros message Hin; by frame_effects.
  - by apply (strokes_inv_frame s); eauto.
  - apply (strokes_inv_frame s); [| | | done]; unfold useMouseCoordsForRoi.
    all: destruct (MouseCoords.x (mouseCoords s)),
      (MouseCoords.y (mouseCoords s)); cbn; eauto.
  - apply (strokes_inv_frame s); [| | | done]; unfold removeRoi.
    all: unfold setRois_if_overlay; cbn; destruct (roiOverlay s); cbn; eauto.
    intros message Hin; by frame_effects.
  - apply (strokes_inv_frame s); [| | | done]; unfold clearAllRois.
    all: unfold setRois_if_overlay; cbn; destruct (roiOverlay s); cbn; eauto.
    intros message Hin; by frame_effects.
  - by apply (strokes_inv_frame s); eauto.
  - by apply (strokes_inv_frame s); eauto.
  - (* onOpen *)
    destruct Hinv as (Hs & Hl & Hu). unfold onOpen.
    destruct tiledImage; [| done].
    destruct (roiOverlay s) eqn:Hroi.
    + destruct (drawingOverlay s) as [o |] eqn:Ho; [done |].
      split; [done |]. split; [| done].
      intros o' live. cbn. by intros [= <-] [=].
    + cbn. destruct (drawingOverlay s) as [o |] eqn:Ho.
      * split; [done |]. split.
        -- intros o' live. cbn. rewrite Ho. intros [= <-] Hlive.
        by apply (Hl o live).
        -- intros message Hin. cbn in Hin. frame_effects.
           by apply (Hu message).
      * split; [done |]. split.
        -- intros o' live. cbn. by intros [= <-] [=].
        -- intros message Hin. cbn in Hin. frame_effects.
           by apply (Hu message).
  - (* onUnmounted *)
    destruct Hinv as (Hs & Hl & Hu). unfold onUnmounted.
    destruct (drawingOverlay s) as [o |] eqn:Ho; cbn.
    + destruct (roiOverlay s); cbn.
      all: split; [done |]; split; [| done].
      all: by intros o' live; cbn.
    + destruct (roiOverlay s); cbn.
      all: split; [done |]; split; [| done].
      all: intros o' live; cbn; by rewrite Ho.
Qed.

(** X20 (createDrawingOverlay, lines 467-514; undoLastStroke and
    clearAllStrokes, lines 164-179).  In every state that the component
    reaches from its setup, whatever the order of clicks, pointer events,
    inputs, and opening or unmounting: every committed stroke has at least
    two points; any two consecutive points of a stroke passed the test of
    line 495, so they are not the same point; the stroke being drawn has
    its starting point; and [onPointerMove] never reads the last point of
    an empty stroke. *)
Theorem X20_committed_strokes_have_two_spaced_points (trim : string → string)
    (actions : list Action) :
  let s := session trim actions in
  (∀ st, st ∈ strokes s →
     (2 ≤ length (Stroke.points st))%nat ∧
     ∀ i a b, Stroke.points st !! i = Some a →
              Stroke.points st !! S i = Some b →
              moved a b = true ∧ a ≠ b) ∧
  (∀ o live, drawingOverlay s = Some o → liveStroke o = Some live →
     Stroke.points live ≠ []) ∧
  (∀ message, Uncaught message ∉ effects s).
Proof.
  intros s. subst s.
  assert (Hinv : strokes_inv (session trim actions)).
  { apply session_ind.
    - split; [done |]. split; [done |]. cbn. intros message Hin.
      by apply elem_of_nil in Hin.
    - intros s a. apply strokes_inv_step. }
  destruct Hinv as (Hs & Hl & Hu). split; [| split; [| done]].
  - intros st Hin. rewrite Forall_forall in Hs.
    destruct (Hs st Hin) as [Hlen Hws]. split; [done |].
    intros i a b Ha Hb. pose proof (Hws i a b Ha Hb) as Hm.
    split; [done |]. by apply moved_neq.
  - intros o live Ho Hlive Hnil. destruct (Hl o live Ho Hlive) as [Hlen _].
    rewrite Hnil in Hlen. cbn in Hlen. lia.
Qed.

Lemma X20_witness :
  let st := {| Stroke.points := [point_at 0 0; point_at 3 4];
               Stroke.color := "#FF4444";
               Stroke.lineWidth := num_of_Z 3 |} in
  (2 ≤ length (Stroke.points st))%nat ∧
  ∀ i a b, Stroke.points st !! i = Some a →
           Stroke.points st !! S i = Some b →
           moved a b = true ∧ a ≠ b.
Proof.
  refine (proj1 (X20_committed_strokes_have_two_spaced_points no_trim
                   (Open true :: gesture (point_at 0 0) [point_at 3 4]))
            _ _).
  vm_compute. constructor.
Defined.

(** ** One drag of the pointer *)

Lemma extend_prefix (ps pts : list Point.t) : pts `prefix_of` extend pts ps.
Proof.
  revert pts. induction ps as [| q ps IH]; intros pts; cbn; [done |].
  destruct (last pts) as [l |]; [| done].
  destruct (moved l q); [| apply IH].
  etrans; [| apply IH]. by apply prefix_app_r.
Qed.

Lemma extend_sublist (ps pts : list Point.t) :
  extend pts ps `sublist_of` pts ++ ps.
Proof.
  revert pts. induction ps as [| q ps IH]; intros pts; cbn.
  - by rewrite app_nil_r.
  - destruct (last pts) as [l |].
    + destruct (moved l q).
      * specialize (IH (pts ++ [q])). by rewrite <- app_assoc in IH.
      * etrans; [apply IH |]. apply sublist_app; [done |].
        by apply sublist_cons.
    + by apply sublist_inserts_r.
Qed.

Lemma extend_still (p : Point.t) (ps : list Point.t) :
  (∀ q, q ∈ ps → moved p q = false) → extend [p] ps = [p].
Proof.
  induction ps as [| q ps IH]; intros Hall; cbn; [done |].
  rewrite (Hall q) by (apply elem_of_cons; by left).
  apply IH. intros q' Hq'. apply Hall. apply elem_of_cons. by right.
Qed.

Lemma extend_moved (p : Point.t) (ps : list Point.t) :
  (∃ q, q ∈ ps ∧ moved p q = true) →
  (2 ≤ length (extend [p] ps))%nat.
Proof.
  induction ps as [| q ps IH]; intros (q' & Hin & Hmoved).
  - by apply elem_of_nil in Hin.
  - cbn. destruct (moved p q) eqn:Hq.
    + pose proof (extend_prefix ps [p; q]) as Hpre.
      apply prefix_length in Hpre. cbn in Hpre. cbn. lia.
    + apply IH. exists q'. split; [| done].
      apply elem_of_cons in Hin as [-> | Hin]; [congruence | done].
Qed.

Lemma onPointerMove_down (q : Point.t) (s : Component)
    (o : DrawingOverlay) (live : Stroke.t) (l : Point.t) :
  drawingOverlay s = Some o →
  isPointerDown o = true →
  liveStroke o = Some live →
  last (Stroke.points live) = Some l →
  onPointerMove q s =
  if moved l q then
    redraw
      (set_drawingOverlay
         (Some (set_liveStroke
                  (Some {| Stroke.points := Stroke.points live ++ [q];
                           Stroke.color := Stroke.color live;
                           Stroke.lineWidth := Stroke.lineWidth live |}) o))
         s)
  else s.
Proof.
  intros Ho Hdown Hlive Hlast. unfold onPointerMove.
  by rewrite Ho, Hdown, Hlive, Hlast.
Qed.

Lemma moves_extend (trim : string → string) (ps : list Point.t)
    (s : Component) (o : DrawingOverlay) (live : Stroke.t) :
  drawingOverlay s = Some o →
  isPointerDown o = true →
  liveStroke o = Some live →
  Stroke.points live ≠ [] →
  let s' := foldl (act trim) s (PointerMove <$> ps) in
  strokes s' = strokes s ∧
  ∃ o', drawingOverlay s' = Some o' ∧ isPointerDown o' = true ∧
        liveStroke o' =
          Some {| Stroke.points := extend (Stroke.points live) ps;
                  Stroke.color := Stroke.color live;
                  Stroke.lineWidth := Stroke.lineWidth live |}.
Proof.
  revert s o live.
  induction ps as [| q ps IH]; intros s o live Ho Hdown Hlive Hne; cbn.
  - split; [done |]. exists o. split; [done |]. split; [done |].
    rewrite Hlive. by destruct live.
  - destruct (last (Stroke.points live)) as [l |] eqn:Hlast.
    2:{ by apply last_None in Hlast. }
    rewrite (onPointerMove_down q s o live l Ho Hdown Hlive Hlast).
    destruct (moved l q) eqn:Hq.
    + set (live' := {| Stroke.points := Stroke.points live ++ [q];
                       Stroke.color := Stroke.color live;
                       Stroke.lineWidth := Stroke.lineWidth live |}).
      destruct (IH (redraw (set_drawingOverlay
                              (Some (set_liveStroke (Some live') o)) s))
                  (set_liveStroke (Some live') o) live')
        as (Hst & o' & Ho' & Hdown' & Hlive'); try done.
      { cbn. by destruct (Stroke.points live). }
      split; [done |]. by exists o'.
    + by apply (IH s o live).
Qed.

(** X21 (createDrawingOverlay, lines 467-514; undoLastStroke, lines
    164-171).  One drag on the drawing canvas — pointer down at [p], moves
    through the points [ps], pointer up — ends with no stroke in progress.
    If no move left the half pixel around [p], no stroke is committed.  If
    one did, exactly one stroke is added behind those committed before: it
    starts at [p], its points are among [p] and [ps] in their order, and it
    has the pen colour and width of the moment the pointer went down;
    undoing then gives back the strokes there were before the drag. *)
Theorem X21_drag_commits_one_stroke_and_undo_removes_it
    (trim : string → string) (s : Component) (o : DrawingOverlay)
    (p : Point.t) (ps : list Point.t) :
  drawingOverlay s = Some o →
  let s' := foldl (act trim) s (gesture p ps) in
  (∃ o', drawingOverlay s' = Some o' ∧ liveStroke o' = None ∧
         isPointerDown o' = false) ∧
  ((∀ q, q ∈ ps → moved p q = false) → strokes s' = strokes s) ∧
  ((∃ q, q ∈ ps ∧ moved p q = true) →
   ∃ st, strokes s' = strokes s ++ [st] ∧
         head (Stroke.points st) = Some p ∧
         Stroke.points st `sublist_of` p :: ps ∧
         Stroke.color st = drawColor s ∧
         Stroke.lineWidth st = drawLineWidth s ∧
         strokes (undoLastStroke s') = strokes s).
Proof.
  intros Ho s'.
  set (live := {| Stroke.points := [p]; Stroke.color := drawColor s;
                  Stroke.lineWidth := drawLineWidth s |}).
  set (o1 := set_liveStroke (Some live) (set_isPointerDown true o)).
  assert (Hs1 : onPointerDown p s = redraw (set_drawingOverlay (Some o1) s)).
  { unfold onPointerDown. by rewrite Ho. }
  destruct (moves_extend trim ps (onPointerDown p s) o1 live)
    as (Hst & o2 & Ho2 & Hdown2 & Hlive2); try done.
  { by rewrite Hs1. }
  remember (foldl (act trim) (onPointerDown p s) (PointerMove <$> ps))
    as s2 eqn:Hs2.
  assert (Hs' : s' = onPointerUp s2).
  { subst s' s2. unfold gesture. cbn [foldl]. by rewrite foldl_app. }
  set (st := {| Stroke.points := extend [p] ps;
                Stroke.color := drawColor s;
                Stroke.lineWidth := drawLineWidth s |}).
  assert (Hup : onPointerUp s2 =
    redraw
      (set_drawingOverlay
         (Some (set_liveStroke None (set_isPointerDown false o2)))
         (if (2 <=? length (extend [p] ps))%nat
          then set_strokes (strokes s2 ++ [st]) s2 else s2))).
  { unfold onPointerUp. rewrite Ho2, Hdown2. cbn [negb].
    cbn [set_isPointerDown liveStroke]. by rewrite Hlive2. }
  assert (Hst1 : strokes s2 = strokes s) by (by rewrite Hst, Hs1).
  clearbody s'. subst s'. rewrite Hup. clear Hup Hs2 Hst Hs1.
  split; [| split].
  - eexists. split; [reflexivity |]. done.
  - intros Hstill. rewrite (extend_still p ps Hstill). cbn. exact Hst1.
  - intros Hmoved. pose proof (extend_moved p ps Hmoved) as Hlen.
    apply Nat.leb_le in Hlen. rewrite Hlen.
    exists st. split; [cbn; by rewrite Hst1 |].
    split.
    { cbn. pose proof (extend_prefix ps [p]) as [k Hk]. by rewrite Hk. }
    split; [exact (extend_sublist ps [p]) |].
    split; [done |]. split; [done |].
    unfold undoLastStroke. cbn [strokes set_strokes redraw effect
      set_drawingOverlay]. rewrite Hst1.
    rewrite length_app. cbn [length].
    replace (length (strokes s) + 1 =? 0)%nat with false
      by (symmetry; apply Nat.eqb_neq; lia).
    unfold redraw_if_overlay. cbn.
    replace (length (strokes s) + 1 - 1)%nat with (length (strokes s))
      by lia.
    by rewrite take_app_length.
Qed.

Lemma X21_witness :
  ∃ st, strokes (foldl (act no_trim) opened
                   (gesture (point_at 0 0) [point_at 0 0; point_at 3 4]))
          = strokes opened ++ [st] ∧
        head (Stroke.points st) = Some (point_at 0 0) ∧
        Stroke.points st
          `sublist_of` point_at 0 0 :: [point_at 0 0; point_at 3 4] ∧
        Stroke.color st = drawColor opened ∧
        Stroke.lineWidth st = drawLineWidth opened ∧
        strokes (undoLastStroke
                   (foldl (act no_trim) opened
                      (gesture (point_at 0 0) [point_at 0 0; point_at 3 4])))
          = strokes opened.
Proof.
  refine (proj2 (proj2
    (X21_drag_commits_one_stroke_and_undo_removes_it no_trim opened
       createDrawingOverlay (point_at 0 0) [point_at 0 0; point_at 3 4]
       eq_refl)) _).
  exists (point_at 3 4). split; [| reflexivity].
  apply elem_of_cons. right. apply elem_of_cons. by left.
Defined.

(** ** Draw mode *)

Lemma drawMode_inv_frame (s s' : Component) :
  drawMode s' = drawMode s →
  mouseNavEnabled s' = mouseNavEnabled s →
  pointerEvents <$> drawingOverlay s' = pointerEvents <$> drawingOverlay s →
  drawMode_inv s → drawMode_inv s'.
Proof.
  unfold drawMode_inv. intros Hd Hn Ho.
  destruct (drawingOverlay s) as [o |], (drawingOverlay s') as [o' |];
    cbn in Ho; try discriminate.
  - injection Ho as Ho. by rewrite Hd, Hn, Ho.
  - by rewrite Hn.
Qed.

Lemma drawMode_inv_step (trim : string → string) (s : Component)
    (a : Action) :
  drawMode_inv s → drawMode_inv (act trim s a).
Proof.
  intros Hinv. destruct a; cbn [act].
  - (* toggleDrawMode *)
    revert Hinv. unfold drawMode_inv, toggleDrawMode. cbn.
    destruct (drawingOverlay s) as [o |] eqn:Ho; cbn; rewrite ?Ho; [| done].
    intros _. destruct (drawMode s); cbn; auto.
  - apply (drawMode_inv_frame s); [| | | done]; unfold undoLastStroke.
    all: destruct (_ =? _)%nat; [done |]; unfold redraw_if_overlay; cbn.
    all: destruct (drawingOverlay s) eqn:Ho; cbn; by rewrite ?Ho.
  - apply (drawMode_inv_frame s); [| | | done]; unfold clearAllStrokes.
    all: unfold redraw_if_overlay; cbn.
    all: destruct (drawingOverlay s) eqn:Ho; cbn; by rewrite ?Ho.
  - by apply (drawMode_inv_frame s).
  - by apply (drawMode_inv_frame s).
  - apply (drawMode_inv_frame s); [| | | done]; unfold onPointerDown.
    all: destruct (drawingOverlay s) eqn:Ho; cbn; by rewrite ?Ho.
  - apply (drawMode_inv_frame s); [| | | done]; unfold onPointerMove.
    all: destruct (drawingOverlay s) as [o |] eqn:Ho; [| by rewrite ?Ho].
    all: destruct (isPointerDown o); cbn [negb]; [| by rewrite ?Ho].
    all: destruct (liveStroke o) as [live |]; [| by rewrite ?Ho].
    all: destruct (last (Stroke.points live)) as [l |];
      [| cbn; by rewrite ?Ho].
    all: destruct (moved l p); [| by rewrite ?Ho]; reflexivity.
  - apply (drawMode_inv_frame s); [| | | done]; unfold onPointerUp.
    all: destruct (drawingOverlay s) as [o |] eqn:Ho; [| by rewrite ?Ho].
    all: destruct (isPointerDown o); cbn [negb]; [| by rewrite ?Ho].
    all: cbn [set_isPointerDown liveStroke].
    all: destruct (liveStroke o) as [live |]; [| reflexivity].
    all: by destruct (2 <=? length (Stroke.points live))%nat.
  - apply (drawMode_inv_frame s); [| | | done]; unfold addRoi.
    all: destruct (_ || _); unfold setRois_if_overlay; cbn;
      try destruct (roiOverlay s); reflexivity.
  - by apply (drawMode_inv_frame s).
  - apply (drawMode_inv_frame s); [| | | done]; unfold useMouseCoordsForRoi.
    all: by destruct (MouseCoords.x (mouseCoords s)),
      (MouseCoords.y (mouseCoords s)).
  - apply (drawMode_inv_frame s); [| | | done]; unfold removeRoi.
    all: unfold setRois_if_overlay; cbn; by destruct (roiOverlay s).
  - apply (drawMode_inv_frame s); [| | | done]; unfold clearAllRois.
    all: unfold setRois_if_overlay; cbn; by destruct (roiOverlay s).
  - by apply (drawMode_inv_frame s).
  - by apply (drawMode_inv_frame s).
  - (* onOpen *)
    revert Hinv. unfold drawMode_inv, onOpen. destruct tiledImage; [| done].
    destruct (roiOverlay s); cbn.
    all: destruct (drawingOverlay s) as [o |] eqn:Ho; cbn; rewrite ?Ho;
      auto.
  - (* onUnmounted *)
    revert Hinv. unfold drawMode_inv, onUnmounted.
    destruct (drawingOverlay s) as [o |] eqn:Ho; cbn.
    all: destruct (roiOverlay s); cbn; rewrite ?Ho; auto.
Qed.

(** X22 (toggleDrawMode, lines 156-161; setDrawMode, lines 538-545; the
    open handler, lines 608-639; onUnmounted, lines 675-690).  In every
    state that the component reaches from its setup: the drawing canvas
    takes pointer events exactly when the mouse navigation of the viewer
    is off, so never both and never neither; navigation is off only in
    draw mode; and without an overlay navigation is on.  Draw mode does
    not conversely tell that the canvas takes the events: toggled before
    the image opens, draw mode is on while the overlay, created later,
    lets the events through. *)
Theorem X22_canvas_captures_iff_navigation_is_off (trim : string → string)
    (actions : list Action) :
  let s := session trim actions in
  (∀ o, drawingOverlay s = Some o →
     (pointerEvents o = "auto" ∨ pointerEvents o = "none") ∧
     (pointerEvents o = "auto" ↔ mouseNavEnabled s = false)) ∧
  (mouseNavEnabled s = false → drawMode s = true) ∧
  (drawingOverlay s = None → mouseNavEnabled s = true) ∧
  (let s' := session trim [ToggleDrawMode; Open true] in
   drawMode s' = true ∧ mouseNavEnabled s' = true ∧
   pointerEvents <$> drawingOverlay s' = Some "none").
Proof.
  intros s. subst s.
  assert (Hinv : drawMode_inv (session trim actions)).
  { apply session_ind; [reflexivity |].
    intros s a. apply drawMode_inv_step. }
  unfold drawMode_inv in Hinv.
  destruct (drawingOverlay (session trim actions)) as [o |].
  - split; [| split; [| split; [done | done]]].
    + intros o' [= <-].
      destruct Hinv as [(Hp & Hn & Hd) | (Hp & Hn)]; rewrite Hp, Hn.
      * split; [by left | done].
      * split; [by right | ]. split; discriminate.
    + intros Hoff. destruct Hinv as [(Hp & Hn & Hd) | (Hp & Hn)];
        [done | congruence].
  - split; [done |]. split; [congruence |]. done.
Qed.

Lemma X22_witness :
  (pointerEvents (setDrawMode_overlay true createDrawingOverlay) = "auto" ∨
   pointerEvents (setDrawMode_overlay true createDrawingOverlay) = "none") ∧
  (pointerEvents (setDrawMode_overlay true createDrawingOverlay) = "auto" ↔
   mouseNavEnabled (session no_trim [Open true; ToggleDrawMode]) = false).
Proof.
  exact (proj1 (X22_canvas_captures_iff_navigation_is_off no_trim
                  [Open true; ToggleDrawMode])
           (setDrawMode_overlay true createDrawingOverlay) eq_refl).
Defined.

(** ** Regions of interest *)

Lemma shown_rois_snoc (es : list Effect) (e : Effect) :
  shown_rois (es ++ [e]) =
  match e with
  | SetRois l => Some l
  | _ => shown_rois es
  end.
Proof.
  induction es as [| e' es IH]; cbn.
  - by destruct e.
  - rewrite IH. by destruct e.
Qed.

Lemma roi_inv_frame (s s' : Component) :
  roiList s' = roiList s →
  (roiOverlay s' = true → roiOverlay s = true) →
  shown_rois (effects s') = shown_rois (effects s) →
  roi_inv s → roi_inv s'.
Proof.
  intros Hl Ho He [Hok Hshown]. split; [by rewrite Hl |].
  intros Htrue. rewrite He, Hl. by apply Hshown, Ho.
Qed.

Lemma ROI_COLORS_elem (n : nat) :
  ROI_COLORS !!! (n mod length ROI_COLORS)%nat ∈ ROI_COLORS.
Proof.
  apply list_elem_of_lookup_total_2. apply Nat.mod_upper_bound. discriminate.
Qed.

Lemma truthy_string_nonempty (str : string) :
  truthy_string str = true → str ≠ EmptyString.
Proof. by destruct str. Qed.

Lemma addRoi_accepts (trim : string → string) (s : Component) :
  truthy_field (NewRoi.width (newRoi s)) = true →
  truthy_field (NewRoi.height (newRoi s)) = true →
  ∃ roi,
    roiList (addRoi trim s) = roiList s ++ [roi] ∧
    Roi.x roi = NewRoi.x (newRoi s) ∧ Roi.y roi = NewRoi.y (newRoi s) ∧
    Roi.width roi = NewRoi.width (newRoi s) ∧
    Roi.height roi = NewRoi.height (newRoi s) ∧
    Roi.label roi =
      (if truthy_string (trim (NewRoi.label (newRoi s)))
       then trim (NewRoi.label (newRoi s))
       else "ROI " +:+ pretty (Z.of_nat (length (roiList s)) + 1)) ∧
    Roi.color roi
      = ROI_COLORS !!! (length (roiList s) mod length ROI_COLORS)%nat ∧
    effects (addRoi trim s) =
      effects s ++ (if roiOverlay s then [SetRois (roiList s ++ [roi])]
                    else []) ∧
    roiOverlay (addRoi trim s) = roiOverlay s.
Proof.
  intros Hw Hh. unfold addRoi. rewrite Hw, Hh. cbn [negb orb].
  eexists. unfold setRois_if_overlay. cbn.
  destruct (roiOverlay s) eqn:Ho; cbn; rewrite ?Ho, ?app_nil_r;
    repeat split; reflexivity.
Qed.

Lemma addRoi_rejects (trim : string → string) (s : Component) :
  truthy_field (NewRoi.width (newRoi s)) = false ∨
  truthy_field (NewRoi.height (newRoi s)) = false →
  addRoi trim s = effect (Alert "Please enter valid width and height") s.
Proof.
  intros H. unfold addRoi.
  destruct H as [-> | ->]; [done |]. by rewrite orb_true_r.
Qed.

Lemma roi_inv_step (trim : string → string) (s : Component) (a : Action) :
  roi_inv s → roi_inv (act trim s a).
Proof.
  intros Hinv. destruct a; cbn [act].
  - apply (roi_inv_frame s); [| | | done]; unfold toggleDrawMode.
    all: cbn; destruct (drawingOverlay s) eqn:Ho; cbn; by rewrite ?Ho.
  - apply (roi_inv_frame s); [| | | done]; unfold undoLastStroke.
    all: destruct (_ =? _)%nat; [done |]; unfold redraw_if_overlay; cbn.
    all: destruct (drawingOverlay s) eqn:Ho; cbn; rewrite ?Ho;
      rewrite ?shown_rois_snoc; done.
  - apply (roi_inv_frame s); [| | | done]; unfold clearAllStrokes.
    all: unfold redraw_if_overlay; cbn.
    all: destruct (drawingOverlay s) eqn:Ho; cbn; rewrite ?Ho;
      rewrite ?shown_rois_snoc; done.
  - by apply (roi_inv_frame s).
  - by apply (roi_inv_frame s).
  - apply (roi_inv_frame s); [| | | done]; unfold onPointerDown.
    all: destruct (drawingOverlay s) eqn:Ho; cbn; rewrite ?Ho;
      rewrite ?shown_rois_snoc; done.
  - apply (roi_inv_frame s); [| | | done]; unfold onPointerMove.
    all: destruct (drawingOverlay s) as [o |] eqn:Ho; [| by rewrite ?Ho].
    all: destruct (isPointerDown o); cbn [negb]; [| by rewrite ?Ho].
    all: destruct (liveStroke o) as [live |]; [| by rewrite ?Ho].
    all: destruct (last (Stroke.points live)) as [l |];
      [| cbn; by rewrite ?shown_rois_snoc].
    all: destruct (moved l p); [| by rewrite ?Ho]; cbn;
      by rewrite ?shown_rois_snoc.
  - apply (roi_inv_frame s); [| | | done]; unfold onPointerUp.
    all: destruct (drawingOverlay s) as [o |] eqn:Ho; [| by rewrite ?Ho].
    all: destruct (isPointerDown o); cbn [negb]; [| by rewrite ?Ho].
    all: cbn [set_isPointerDown liveStroke].
    all: destruct (liveStroke o) as [live |];
      [| cbn; by rewrite ?shown_rois_snoc].
    all: destruct (2 <=? length (Stroke.points live))%nat; cbn;
      by rewrite ?shown_rois_snoc.
  - (* addRoi *)
    destruct Hinv as [Hok Hshown].
    destruct (truthy_field (NewRoi.width (newRoi s))) eqn:Hw.
    2:{ rewrite addRoi_rejects by (by left). split; [done |].
        cbn. rewrite shown_rois_snoc. exact Hshown. }
    destruct (truthy_field (NewRoi.height (newRoi s))) eqn:Hh.
    2:{ rewrite addRoi_rejects by (by right). split; [done |].
        cbn. rewrite shown_rois_snoc. exact Hshown. }
    destruct (addRoi_accepts trim s Hw Hh)
      as (roi & Hl & _ & _ & Hrw & Hrh & Hlabel & Hcolor & Heff & Hov).
    split.
    + rewrite Hl. apply Forall_app. split; [done |]. apply Forall_singleton.
      split; [by rewrite Hrw |]. split; [by rewrite Hrh |]. split.
      * rewrite Hlabel.
        destruct (truthy_string (trim (NewRoi.label (newRoi s)))) eqn:Ht.
        -- by apply truthy_string_nonempty.
        -- discriminate.
      * rewrite Hcolor. apply ROI_COLORS_elem.
    + rewrite Hov, Heff, Hl. intros Ho. rewrite Ho.
      by rewrite shown_rois_snoc.
  - by apply (roi_inv_frame s).
  - apply (roi_inv_frame s); [| | | done]; unfold useMouseCoordsForRoi.
    all: by destruct (MouseCoords.x (mouseCoords s)),
      (MouseCoords.y (mouseCoords s)).
  - (* removeRoi *)
    destruct Hinv as [Hok Hshown]. unfold removeRoi, setRois_if_overlay.
    cbn. destruct (roiOverlay s) eqn:Ho; cbn; rewrite ?Ho.
    + split; [by apply Forall_delete |]. intros _. cbn.
      by rewrite shown_rois_snoc.
    + split; [by apply Forall_delete |]. cbn. by rewrite Ho.
  - (* clearAllRois *)
    unfold clearAllRois, setRois_if_overlay.
    cbn. destruct (roiOverlay s) eqn:Ho; cbn; rewrite ?Ho.
    + split; [done |]. intros _. cbn. by rewrite shown_rois_snoc.
    + split; [done |]. cbn. by rewrite Ho.
  - by apply (roi_inv_frame s).
  - by apply (roi_inv_frame s).
  - (* onOpen *)
    destruct Hinv as [Hok Hshown]. unfold onOpen.
    destruct tiledImage; [| done].
    destruct (roiOverlay s) eqn:Ho; cbn.
    + destruct (drawingOverlay s); cbn.
      all: split; [done |]; intros _; cbn; by apply Hshown.
    + destruct (drawingOverlay s); cbn.
      all: split; [done |]; intros _; cbn; by rewrite shown_rois_snoc.
  - (* onUnmounted *)
    destruct Hinv as [Hok Hshown]. unfold onUnmounted.
    destruct (drawingOverlay s) as [o |]; cbn.
    all: destruct (roiOverlay s) eqn:Ho; cbn; rewrite ?Ho.
    all: split; [done |]; cbn; rewrite ?Ho; done.
Qed.

(** X23 (addRoi, removeRoi, clearAllRois, lines 184-236; the open handler,
    lines 621-626).  In every state that the component reaches from its
    setup: every region of the list has a width and a height that are
    numbers other than 0 and NaN, a label that is not empty, and a colour
    of the palette; and while the ROI overlay exists, the list it was last
    given to paint is the list of the component. *)
Theorem X23_listed_rois_are_valid_and_shown (trim : string → string)
    (actions : list Action) :
  let s := session trim actions in
  (∀ roi, roi ∈ roiList s →
     (∃ w, Roi.width roi = Num w ∧ truthy_num w = true) ∧
     (∃ h, Roi.height roi = Num h ∧ truthy_num h = true) ∧
     Roi.label roi ≠ EmptyString ∧
     Roi.color roi ∈ ROI_COLORS) ∧
  (roiOverlay s = true → shown_rois (effects s) = Some (roiList s)).
Proof.
  intros s. subst s.
  assert (Hinv : roi_inv (session trim actions)).
  { apply session_ind; [by split |]. intros s a. apply roi_inv_step. }
  destruct Hinv as [Hok Hshown]. split; [| done].
  intros roi Hin. rewrite Forall_forall in Hok.
  destruct (Hok roi Hin) as (Hw & Hh & Hl & Hc).
  split; [| split; [| done]].
  - destruct (Roi.width roi) as [| w]; [done |]. by exists w.
  - destruct (Roi.height roi) as [| h]; [done |]. by exists h.
Qed.

Lemma X23_witness :
  let roi := {| Roi.x := Num (num_of_Z 0); Roi.y := Num (num_of_Z 0);
                Roi.width := Num (num_of_Z 100);
                Roi.height := Num (num_of_Z 100);
                Roi.label := "ROI 1"; Roi.color := "#FF4444" |} in
  (∃ w, Roi.width roi = Num w ∧ truthy_num w = true) ∧
  (∃ h, Roi.height roi = Num h ∧ truthy_num h = true) ∧
  Roi.label roi ≠ EmptyString ∧
  Roi.color roi ∈ ROI_COLORS.
Proof.
  refine (proj1 (X23_listed_rois_are_valid_and_shown no_trim
                   [Open true; AddRoi]) _ _).
  vm_compute. constructor.
Defined.

Lemma roiList_act (trim : string → string) (s : Component) (a : Action) :
  roiList (act trim s a) =
  match a with
  | AddRoi =>
      if truthy_field (NewRoi.width (newRoi s))
         && truthy_field (NewRoi.height (newRoi s))
      then roiList (addRoi trim s) else roiList s
  | RemoveRoi index => splice1 index (roiList s)
  | ClearAllRois => []
  | _ => roiList s
  end.
Proof.
  destruct a; cbn [act]; try reflexivity.
  - unfold toggleDrawMode. cbn. by destruct (drawingOverlay s).
  - unfold undoLastStroke, redraw_if_overlay.
    destruct (_ =? _)%nat; [done |]. cbn. by destruct (drawingOverlay s).
  - unfold clearAllStrokes, redraw_if_overlay. cbn.
    by destruct (drawingOverlay s).
  - unfold onPointerDown. by destruct (drawingOverlay s).
  - unfold onPointerMove. destruct (drawingOverlay s) as [o |]; [| done].
    destruct (isPointerDown o); [| done]. cbn [negb].
    destruct (liveStroke o) as [live |]; [| done].
    destruct (last (Stroke.points live)) as [l |]; [| done].
    by destruct (moved l p).
  - unfold onPointerUp. destruct (drawingOverlay s) as [o |]; [| done].
    destruct (isPointerDown o); [| done]. cbn [negb].
    cbn [set_isPointerDown liveStroke].
    destruct (liveStroke o) as [live |]; [| done].
    by destruct (2 <=? length (Stroke.points live))%nat.
  - destruct (truthy_field (NewRoi.width (newRoi s))) eqn:Hw;
      [destruct (truthy_field (NewRoi.height (newRoi s))) eqn:Hh |];
      cbn [andb]; [done | |].
    + by rewrite addRoi_rejects by (by right).
    + by rewrite addRoi_rejects by (by left).
  - unfold useMouseCoordsForRoi.
    by destruct (MouseCoords.x (mouseCoords s)),
      (MouseCoords.y (mouseCoords s)).
  - unfold removeRoi, setRois_if_overlay. cbn. by destruct (roiOverlay s).
  - unfold clearAllRois, setRois_if_overlay. cbn. by destruct (roiOverlay s).
  - unfold onOpen. destruct tiledImage; [| done].
    destruct (roiOverlay s); cbn; by destruct (drawingOverlay s).
  - unfold onUnmounted.
    destruct (drawingOverlay s); cbn; by destruct (roiOverlay s).
Qed.

Lemma ROI_COLORS_NoDup : NoDup ROI_COLORS.
Proof. apply (bool_decide_unpack (NoDup ROI_COLORS)). by vm_compute. Qed.

Lemma ROI_COLORS_inj (i j : nat) :
  (i < length ROI_COLORS)%nat → (j < length ROI_COLORS)%nat →
  ROI_COLORS !!! i = ROI_COLORS !!! j → i = j.
Proof.
  intros Hi Hj Heq.
  apply (NoDup_lookup ROI_COLORS i j (ROI_COLORS !!! i) ROI_COLORS_NoDup).
  - by apply list_lookup_lookup_total_lt.
  - rewrite Heq. by apply list_lookup_lookup_total_lt.
Qed.

Lemma coloured_by_position_snoc (l : list Roi.t) (roi : Roi.t) :
  coloured_by_position l →
  Roi.color roi = ROI_COLORS !!! (length l mod length ROI_COLORS)%nat →
  coloured_by_position (l ++ [roi]).
Proof.
  intros Hl Hroi i roi' Hlk.
  apply lookup_app_Some in Hlk as [Hlk | [Hge Hlk]]; [by apply Hl |].
  destruct (i - length l)%nat as [| k] eqn:Hk; [| by destruct k].
  cbn in Hlk. injection Hlk as <-.
  replace i with (length l) by lia. done.
Qed.

(** X24 (addRoi, line 198).  As long as no region is removed one by one
    (regions may be added and all cleared), the region at position [i] of
    the list has the colour [i mod 6] of the palette: two regions have the
    same colour exactly when their positions differ by a multiple of 6, so
    neighbours in the list never do. *)
Theorem X24_colour_is_position_mod_6 (trim : string → string)
    (actions : list Action) :
  Forall (λ a, is_RemoveRoi a = false) actions →
  let l := roiList (session trim actions) in
  (∀ i roi, l !! i = Some roi →
     Roi.color roi = ROI_COLORS !!! (i mod 6)%nat) ∧
  (∀ i j r1 r2, l !! i = Some r1 → l !! j = Some r2 →
     (Roi.color r1 = Roi.color r2 ↔ (i mod 6 = j mod 6)%nat)) ∧
  (∀ i r1 r2, l !! i = Some r1 → l !! S i = Some r2 →
     Roi.color r1 ≠ Roi.color r2).
Proof.
  intros Hno l.
  assert (Hpos : coloured_by_position l).
  { subst l. induction actions as [| a actions IH] using rev_ind.
    - intros i roi Hlk. done.
    - apply Forall_app in Hno as [Hno Ha].
      apply Forall_inv in Ha. specialize (IH Hno).
      rewrite session_snoc, roiList_act.
      destruct a; try done.
      destruct (_ && _) eqn:Hwh; [| done].
      apply andb_true_iff in Hwh as [Hw Hh].
      destruct (addRoi_accepts trim (session trim actions) Hw Hh)
        as (roi & Hl & _ & _ & _ & _ & _ & Hcolor & _).
      rewrite Hl. by apply coloured_by_position_snoc. }
  assert (Hiff : ∀ i j r1 r2, l !! i = Some r1 → l !! j = Some r2 →
            (Roi.color r1 = Roi.color r2 ↔ (i mod 6 = j mod 6)%nat)).
  { intros i j r1 r2 H1 H2.
    rewrite (Hpos i r1 H1), (Hpos j r2 H2).
    change (length ROI_COLORS) with 6%nat. split.
    - apply ROI_COLORS_inj; apply Nat.mod_upper_bound; discriminate.
    - by intros ->. }
  split; [exact Hpos |]. split; [exact Hiff |].
  intros i r1 r2 H1 H2 Heq. apply (Hiff i (S i) r1 r2 H1 H2) in Heq.
  lia.
Qed.

Lemma X24_witness :
  let l := roiList (session no_trim [Open true; AddRoi; AddRoi]) in
  (∀ i roi, l !! i = Some roi →
     Roi.color roi = ROI_COLORS !!! (i mod 6)%nat) ∧
  (∀ i j r1 r2, l !! i = Some r1 → l !! j = Some r2 →
     (Roi.color r1 = Roi.color r2 ↔ (i mod 6 = j mod 6)%nat)) ∧
  (∀ i r1 r2, l !! i = Some r1 → l !! S i = Some r2 →
     Roi.color r1 ≠ Roi.color r2).
Proof.
  apply (X24_colour_is_position_mod_6 no_trim [Open true; AddRoi; AddRoi]).
  repeat constructor.
Defined.

Lemma delete_app_lt {A} (i : nat) (l k : list A) :
  (i < length l)%nat → delete i (l ++ k) = delete i l ++ k.
Proof.
  revert i. induction l as [| a l IH]; intros i Hi; cbn in Hi; [lia |].
  destruct i as [| i]; [done |]. cbn. f_equal. apply IH. lia.
Qed.

Lemma splice1_valid {A} (index : Z) (l : list A) :
  0 ≤ index < Z.of_nat (length l) →
  splice1 index l = delete (Z.to_nat index) l ∧
  length (splice1 index l) = (length l - 1)%nat.
Proof.
  intros Hi. unfold splice1.
  replace (index <? 0) with false by (symmetry; apply Z.ltb_ge; lia).
  rewrite Z.min_l by lia. split; [done |].
  apply length_delete, lookup_lt_is_Some_2. lia.
Qed.

(** X25 (removeRoi, lines 221-227, with addRoi, lines 196-198).  The label
    number and the colour of a new region count the regions listed, not
    the regions ever added.  So when a region other than the last is
    removed and a region is added, the new region takes the colour of the
    position after the old last region, which is the colour the last
    region got when it was added there, and, with a blank label, the
    number of that position: the two stand next to each other with the
    same colour and the same default label. *)
Theorem X25_removal_makes_next_roi_repeat_the_last (trim : string → string)
    (s : Component) (l : list Roi.t) (r : Roi.t) (index : Z) :
  roiList s = l ++ [r] →
  0 ≤ index < Z.of_nat (length l) →
  truthy_field (NewRoi.width (newRoi s)) = true →
  truthy_field (NewRoi.height (newRoi s)) = true →
  let s' := addRoi trim (removeRoi index s) in
  ∃ l' new,
    roiList s' = l' ++ [r; new] ∧
    l' = delete (Z.to_nat index) l ∧
    length (roiList s') = length (roiList s) ∧
    Roi.color new = ROI_COLORS !!! (length l mod 6)%nat ∧
    (Roi.color r = ROI_COLORS !!! (length l mod 6)%nat →
     Roi.color new = Roi.color r) ∧
    (truthy_string (trim (NewRoi.label (newRoi s))) = false →
     Roi.label new = "ROI " +:+ pretty (Z.of_nat (length l) + 1) ∧
     (Roi.label r = "ROI " +:+ pretty (Z.of_nat (length l) + 1) →
      Roi.label new = Roi.label r)).
Proof.
  intros Hl Hi Hw Hh s'.
  assert (Hform : newRoi (removeRoi index s) = newRoi s).
  { unfold removeRoi, setRois_if_overlay. cbn. by destruct (roiOverlay s). }
  assert (Hrem : roiList (removeRoi index s)
                 = delete (Z.to_nat index) l ++ [r]).
  { pose proof (roiList_act trim s (RemoveRoi index)) as Hact.
    cbn [act] in Hact. rewrite Hact, Hl.
    destruct (splice1_valid index (l ++ [r])) as [-> _].
    { rewrite length_app. cbn. lia. }
    apply delete_app_lt. lia. }
  assert (Hlen : length (delete (Z.to_nat index) l) = (length l - 1)%nat).
  { apply length_delete, lookup_lt_is_Some_2. lia. }
  destruct (addRoi_accepts trim (removeRoi index s))
    as (new & Hl' & _ & _ & _ & _ & Hlabel & Hcolor & _).
  { by rewrite Hform. }
  { by rewrite Hform. }
  rewrite Hrem, Hform in *.
  assert (Hn : length (delete (Z.to_nat index) l ++ [r]) = length l).
  { rewrite length_app, Hlen. cbn. lia. }
  rewrite Hn in *.
  exists (delete (Z.to_nat index) l), new. subst s'.
  split; [by rewrite Hl', <- app_assoc |]. split; [done |].
  split.
  { rewrite Hl', Hl. rewrite (length_app _ [new]), Hn, length_app. done. }
  split; [exact Hcolor |]. split; [by intros -> |].
  intros Hblank. rewrite Hblank in Hlabel. split; [done |]. by intros ->.
Qed.

Lemma X25_witness :
  let s := with_rois [roi_at 0; roi_at 1; roi_at 2]
             {| NewRoi.x := Num (num_of_Z 5); NewRoi.y := Num (num_of_Z 5);
                NewRoi.width := Num (num_of_Z 10);
                NewRoi.height := Num (num_of_Z 10);
                NewRoi.label := EmptyString |} in
  ∃ l' new,
    roiList (addRoi no_trim (removeRoi 0 s)) = l' ++ [roi_at 2; new] ∧
    l' = delete (Z.to_nat 0) [roi_at 0; roi_at 1] ∧
    length (roiList (addRoi no_trim (removeRoi 0 s))) = length (roiList s) ∧
    Roi.color new = ROI_COLORS !!! (2 mod 6)%nat ∧
    (Roi.color (roi_at 2) = ROI_COLORS !!! (2 mod 6)%nat →
     Roi.color new = Roi.color (roi_at 2)) ∧
    (truthy_string (no_trim (NewRoi.label (newRoi s))) = false →
     Roi.label new = "ROI " +:+ pretty (Z.of_nat 2 + 1) ∧
     (Roi.label (roi_at 2) = "ROI " +:+ pretty (Z.of_nat 2 + 1) →
      Roi.label new = Roi.label (roi_at 2))).
Proof.
  apply (X25_removal_makes_next_roi_repeat_the_last no_trim
           (with_rois [roi_at 0; roi_at 1; roi_at 2]
              {| NewRoi.x := Num (num_of_Z 5); NewRoi.y := Num (num_of_Z 5);
                 NewRoi.width := Num (num_of_Z 10);
                 NewRoi.height := Num (num_of_Z 10);
                 NewRoi.label := EmptyString |})
           [roi_at 0; roi_at 1] (roi_at 2) 0).
  - reflexivity.
  - cbn. lia.
  - reflexivity.
  - reflexivity.
Defined.

(** ** Mouse coordinates *)

Lemma mouseCoords_act (trim : string → string) (s : Component) (a : Action) :
  mouseCoords (act trim s a) =
  match a with
  | MouseMove imagePoint =>
      {| MouseCoords.x := Some (Math_floor (Point.x imagePoint));
         MouseCoords.y := Some (Math_floor (Point.y imagePoint)) |}
  | MouseExit => {| MouseCoords.x := None; MouseCoords.y := None |}
  | _ => mouseCoords s
  end.
Proof.
  destruct a; cbn [act]; try reflexivity.
  - unfold toggleDrawMode. cbn. by destruct (drawingOverlay s).
  - unfold undoLastStroke, redraw_if_overlay.
    destruct (_ =? _)%nat; [done |]. cbn. by destruct (drawingOverlay s).
  - unfold clearAllStrokes, redraw_if_overlay. cbn.
    by destruct (drawingOverlay s).
  - unfold onPointerDown. by destruct (drawingOverlay s).
  - unfold onPointerMove. destruct (drawingOverlay s) as [o |]; [| done].
    destruct (isPointerDown o); [| done]. cbn [negb].
    destruct (liveStroke o) as [live |]; [| done].
    destruct (last (Stroke.points live)) as [l |]; [| done].
    by destruct (moved l p).
  - unfold onPointerUp. destruct (drawingOverlay s) as [o |]; [| done].
    destruct (isPointerDown o); [| done]. cbn [negb].
    cbn [set_isPointerDown liveStroke].
    destruct (liveStroke o) as [live |]; [| done].
    by destruct (2 <=? length (Stroke.points live))%nat.
  - unfold addRoi, setRois_if_overlay. destruct (_ || _); [done |].
    cbn. by destruct (roiOverlay s).
  - unfold useMouseCoordsForRoi.
    by destruct (MouseCoords.x (mouseCoords s)),
      (MouseCoords.y (mouseCoords s)).
  - unfold removeRoi, setRois_if_overlay. cbn. by destruct (roiOverlay s).
  - unfold clearAllRois, setRois_if_overlay. cbn. by destruct (roiOverlay s).
  - unfold onOpen. destruct tiledImage; [| done].
    destruct (roiOverlay s); cbn; by destruct (drawingOverlay s).
  - unfold onUnmounted.
    destruct (drawingOverlay s); cbn; by destruct (roiOverlay s).
Qed.

Lemma Math_floor_integer (n : number) (q : Q) :
  Math_floor n = Fin q →
  ∃ z : Z, q = inject_Z z ∧
    ∃ q0, n = Fin q0 ∧ (inject_Z z <= q0)%Q ∧ (q0 < inject_Z (z + 1))%Q.
Proof.
  destruct n as [| | | q0]; try discriminate. cbn. intros [= <-].
  exists (Qfloor q0). split; [done |]. exists q0. split; [done |].
  split; [apply Qfloor_le | apply Qlt_floor].
Qed.

(** X26 (setupMouseTracking, lines 651-669; useMouseCoordsForRoi, lines
    213-218).  In every state that the component reaches from its setup
    the two mouse coordinates are null together or numbers together, so
    the test of [x] alone that enables the button tells whether
    [useMouseCoordsForRoi] copies; it copies nothing of a mouse that has
    left; and a finite coordinate is an integer. *)
Theorem X26_mouse_coordinates_are_null_together (trim : string → string)
    (actions : list Action) :
  let s := session trim actions in
  (MouseCoords.x (mouseCoords s) = None ↔
   MouseCoords.y (mouseCoords s) = None) ∧
  (MouseCoords.x (mouseCoords s) = None → useMouseCoordsForRoi s = s) ∧
  (∀ mx, MouseCoords.x (mouseCoords s) = Some mx →
     ∃ my, MouseCoords.y (mouseCoords s) = Some my ∧
           NewRoi.x (newRoi (useMouseCoordsForRoi s)) = Num mx ∧
           NewRoi.y (newRoi (useMouseCoordsForRoi s)) = Num my) ∧
  (∀ q, MouseCoords.x (mouseCoords s) = Some (Fin q) ∨
        MouseCoords.y (mouseCoords s) = Some (Fin q) →
        ∃ z : Z, q = inject_Z z).
Proof.
  intros s. subst s.
  assert (Hinv :
    let m := mouseCoords (session trim actions) in
    (MouseCoords.x m = None ↔ MouseCoords.y m = None) ∧
    (∀ q, MouseCoords.x m = Some (Fin q) ∨ MouseCoords.y m = Some (Fin q) →
          ∃ z : Z, q = inject_Z z)).
  { apply (session_ind trim (λ s,
      let m := mouseCoords s in
      (MouseCoords.x m = None ↔ MouseCoords.y m = None) ∧
      (∀ q, MouseCoords.x m = Some (Fin q) ∨ MouseCoords.y m = Some (Fin q) →
            ∃ z : Z, q = inject_Z z))).
    - cbn. split; [done |]. by intros q [H | H].
    - intros s a IH. cbn zeta. rewrite mouseCoords_act.
      destruct a; try exact IH; cbn.
      + split; [done |]. intros q [[= H] | [= H]].
        all: destruct (Math_floor_integer _ _ H) as (z & -> & _); by exists z.
      + split; [done |]. by intros q [H | H]. }
  cbn zeta in Hinv. destruct Hinv as [Hnull Hint].
  split; [exact Hnull |]. split; [| split; [| exact Hint]].
  - intros Hx. unfold useMouseCoordsForRoi. by rewrite Hx.
  - intros mx Hx.
    destruct (MouseCoords.y (mouseCoords (session trim actions)))
      as [my |] eqn:Hy.
    + exists my. split; [done |]. unfold useMouseCoordsForRoi.
      by rewrite Hx, Hy.
    + pose proof (proj2 Hnull eq_refl) as Hnone. congruence.
Qed.

Lemma X26_witness :
  ∃ my,
    MouseCoords.y (mouseCoords
      (session no_trim
         [MouseMove {| Point.x := Fin (7 # 2); Point.y := Fin (-1 # 2) |}]))
      = Some my ∧
    NewRoi.x (newRoi (useMouseCoordsForRoi
      (session no_trim
         [MouseMove {| Point.x := Fin (7 # 2); Point.y := Fin (-1 # 2) |}])))
      = Num (num_of_Z 3) ∧
    NewRoi.y (newRoi (useMouseCoordsForRoi
      (session no_trim
         [MouseMove {| Point.x := Fin (7 # 2); Point.y := Fin (-1 # 2) |}])))
      = Num my.
Proof.
  exact (proj1 (proj2 (proj2
    (X26_mouse_coordinates_are_null_together no_trim
       [MouseMove {| Point.x := Fin (7 # 2); Point.y := Fin (-1 # 2) |}])))
    (num_of_Z 3) eq_refl).
Defined.

(** * One delivery per settled request *)

Lemma downloadTileStart_no_tile (env : Env) (w : World) :
  downloadTileStart env {| tile := None |} w =
  {| this := this w; log := log w ++ [Finish (Failure (type_error env))] |}.
Proof. unfold downloadTileStart, getTileImage. unfold_M. reflexivity. Qed.

Lemma downloadTileStart_hit (env : Env) (L x y : Z) (canvas : Canvas)
    (w : World) :
  Map_get (cacheKey L x y) (tileCache (this w)) = Some canvas →
  downloadTileStart env {| tile := Some {| level := L; x := x; y := y |} |} w
  = {| this := this w;
       log := log w ++
         [Finish (if image_loads env canvas then Image canvas
                  else Failure "Failed to load cached tile")] |}.
Proof.
  intros Hget. unfold downloadTileStart, getTileImage, load_image. unfold_M.
  simpl. by rewrite (Map_get_has _ _ _ Hget), Hget.
Qed.

Lemma deliveries_snoc (l : list Event) (d : Delivery) :
  deliveries (l ++ [Finish d]) = deliveries l ++ [d].
Proof. by rewrite deliveries_app. Qed.

(** What a [try] whose [catch] only delivers the failure leaves its function
    with: it returns, or waits; it does not throw. *)
Lemma try_catch_emit_no_throw (body : M unit) (f : string → Event)
    (w w1 : World) (message : string) :
  try_catch body (λ e, emit (f e)) w ≠ (w1, Throw message).
Proof.
  unfold try_catch, emit. by destruct (body w) as [w2 [[] | e |]].
Qed.

(** C8 (amended): a request whose region read settles makes exactly one
    delivery on its request context, and which one is decided by the first
    step that fails.  A context without a tile is failed with the message
    of the TypeError, through the [catch] of [downloadTileStart]; a cached
    tile is delivered as the image of its canvas, or failed when the
    browser cannot load it; a level out of range is failed with the
    message of line 163; a rejected read is failed with its message, or
    with 'Unknown error' when that is empty; a buffer that cannot be
    rasterised is failed with the message of that error; and otherwise the
    image of the new canvas is delivered, or the request failed when the
    browser cannot load it.  No exception leaves [downloadTileStart], which
    returns normally: [getTileImage] itself does not throw for a context
    with a tile, and its one rejection, for a context without, is caught.
    The message of a failure of a request with a tile is never empty.
    While the read does not settle, nothing is delivered: the code sets no
    timeout. *)
Theorem C8_one_delivery_once_the_read_settles (env : Env) (context : Context)
    (w : World) :
  let w' := downloadTileStart env context w in
  let t := this w in
  let total := Z.of_nat (length (zarrArrays t)) in
  let delivers d := deliveries (log w') = deliveries (log w) ++ [d] in
  ((∀ i channel rows cols, array_get env i channel rows cols ≠ Pending) →
   ∃ d, delivers d ∧
        ∀ message, d = Failure message → is_Some (tile context) →
                   message ≠ EmptyString) ∧
  (tile context = None → delivers (Failure (type_error env))) ∧
  (is_Some (tile context) →
   ∀ w1 message, getTileImage env context w ≠ (w1, Throw message)) ∧
  (∀ L x y, tile context = Some {| level := L; x := x; y := y |} →
     (∀ canvas, Map_get (cacheKey L x y) (tileCache t) = Some canvas →
        delivers (if image_loads env canvas then Image canvas
                  else Failure "Failed to load cached tile")) ∧
     (Map_has (cacheKey L x y) (tileCache t) = false →
      ¬ 0 ≤ L ≤ total - 1 →
        delivers (Failure (invalid_level_message (total - 1 - L) total))) ∧
     (∀ zarrLevel,
        Map_has (cacheKey L x y) (tileCache t) = false →
        0 ≤ L ≤ total - 1 →
        zarrArrays t !! Z.to_nat (total - 1 - L) = Some zarrLevel →
        let '(channel, rows, cols) := tile_region (array zarrLevel) x y in
        let '(tileWidth, tileHeight) := tile_size (array zarrLevel) in
        match array_get env (total - 1 - L) channel rows cols with
        | Pending => deliveries (log w') = deliveries (log w)
        | Throw message => delivers (Failure (message_or_unknown message))
        | Ok tileData =>
            if decide (tileWidth = 0 ∨ tileHeight = 0) then
              delivers (Failure (message_or_unknown (index_size_error env)))
            else
              let canvas := tile_canvas t tileData tileWidth tileHeight in
              delivers (if image_loads env canvas then Image canvas
                        else Failure "Failed to create image from canvas")
        end)).
Proof.
  intros w' t total delivers.
  assert (Hnone : tile context = None →
                  delivers (Failure (type_error env))).
  { intros Htile. subst delivers w'. cbn beta. destruct context as [tl].
    cbn in Htile. subst tl. rewrite downloadTileStart_no_tile. cbn [log].
    apply deliveries_snoc. }
  assert (Hhit : ∀ L x y canvas,
            tile context = Some {| level := L; x := x; y := y |} →
            Map_get (cacheKey L x y) (tileCache t) = Some canvas →
            delivers (if image_loads env canvas then Image canvas
                      else Failure "Failed to load cached tile")).
  { intros L x y canvas Htile Hget. subst delivers w'. cbn beta.
    destruct context as [tl]. cbn in Htile. subst tl.
    rewrite (downloadTileStart_hit env L x y canvas w Hget). cbn [log].
    apply deliveries_snoc. }
  assert (Hbad : ∀ L x y,
            tile context = Some {| level := L; x := x; y := y |} →
            Map_has (cacheKey L x y) (tileCache t) = false →
            ¬ 0 ≤ L ≤ total - 1 →
            delivers (Failure (invalid_level_message (total - 1 - L) total))).
  { intros L x y Htile Hmiss HL. subst delivers w'. cbn beta.
    destruct context as [tl]. cbn in Htile. subst tl.
    destruct (level_inversion_on_miss env L x y w Hmiss) as (_ & _ & Hout).
    fold t total in Hout. rewrite Hout by (unfold zarrLevelIndex; lia).
    cbn [log]. unfold zarrLevelIndex. apply deliveries_snoc. }
  assert (Hread : ∀ L x y zarrLevel,
            tile context = Some {| level := L; x := x; y := y |} →
            Map_has (cacheKey L x y) (tileCache t) = false →
            0 ≤ L ≤ total - 1 →
            zarrArrays t !! Z.to_nat (total - 1 - L) = Some zarrLevel →
            let '(channel, rows, cols) := tile_region (array zarrLevel) x y in
            let '(tileWidth, tileHeight) := tile_size (array zarrLevel) in
            match array_get env (total - 1 - L) channel rows cols with
            | Pending => deliveries (log w') = deliveries (log w)
            | Throw message => delivers (Failure (message_or_unknown message))
            | Ok tileData =>
                if decide (tileWidth = 0 ∨ tileHeight = 0) then
                  delivers
                    (Failure (message_or_unknown (index_size_error env)))
                else
                  let canvas := tile_canvas t tileData tileWidth tileHeight in
                  delivers (if image_loads env canvas then Image canvas
                            else Failure "Failed to create image from canvas")
            end).
  { intros L x y zarrLevel Htile Hmiss HL Hlk. subst delivers w'. cbn beta.
    destruct context as [tl]. cbn in Htile. subst tl.
    rewrite (downloadTileStart_miss env L x y w zarrLevel Hmiss HL Hlk).
    unfold miss_outcome. fold t total.
    destruct (tile_region (array zarrLevel) x y) as [[channel rows] cols].
    destruct (tile_size (array zarrLevel)) as [tileWidth tileHeight].
    destruct (array_get env (total - 1 - L) channel rows cols)
      as [tileData | message |]; cbn [log].
    - case_decide; cbn [log]; rewrite !deliveries_app; cbn;
        by rewrite ?app_nil_r.
    - rewrite !deliveries_app. cbn. by rewrite ?app_nil_r.
    - rewrite !deliveries_app. cbn. by rewrite ?app_nil_r. }
  split; [| split; [exact Hnone |]; split].
  - intros Hsettles.
    destruct (tile context) as [[L x y] |] eqn:Htile.
    2:{ eexists. split; [by apply Hnone |]. intros message _ [? [=]]. }
    destruct (Map_has (cacheKey L x y) (tileCache t)) eqn:Hhas.
    { destruct (Map_has_get _ _ Hhas) as [canvas Hget].
      eexists. split; [by apply (Hhit L x y canvas) |].
      intros message Hd _. destruct (image_loads env canvas); [done |].
      injection Hd as <-. discriminate. }
    destruct (decide (0 ≤ L ≤ total - 1)) as [HL | HL].
    2:{ eexists. split; [by apply (Hbad L x y) |].
        intros message [= <-] _. unfold invalid_level_message. discriminate. }
    destruct (lookup_lt_is_Some_2 (zarrArrays t) (Z.to_nat (total - 1 - L)))
      as [zarrLevel Hlk]; [subst total; lia |].
    pose proof (Hread L x y zarrLevel eq_refl Hhas HL Hlk) as Hcase.
    destruct (tile_region (array zarrLevel) x y) as [[channel rows] cols].
    destruct (tile_size (array zarrLevel)) as [tileWidth tileHeight].
    pose proof (Hsettles (total - 1 - L) channel rows cols) as Hs.
    destruct (array_get env (total - 1 - L) channel rows cols)
      as [tileData | message |]; [| | done].
    + destruct (decide (tileWidth = 0 ∨ tileHeight = 0)).
      * eexists. split; [exact Hcase |].
        intros m [= <-] _. apply message_or_unknown_nonempty.
      * cbn zeta in Hcase. eexists. split; [exact Hcase |].
        intros m Hd _.
        destruct (image_loads env _); [done |].
        injection Hd as <-. discriminate.
    + eexists. split; [exact Hcase |].
      intros m [= <-] _. apply message_or_unknown_nonempty.
  - intros [[L x y] Htile] w1 message. destruct context as [tl].
    cbn in Htile. subst tl. unfold getTileImage, bind at 1, ret.
    cbn. apply try_catch_emit_no_throw.
  - intros L x y Htile.
    split; [intros canvas; by apply Hhit |].
    split; [by apply Hbad |].
    intros zarrLevel. by apply Hread.
Qed.

Lemma C8_witness :
  ∃ d : Delivery,
    deliveries
      (log (downloadTileStart (env_rejecting EmptyString)
              {| tile := Some {| level := 0; x := 0; y := 0 |} |}
              (fresh_world no_options pyramid_3)))
      = deliveries (log (fresh_world no_options pyramid_3)) ++ [d] ∧
    (∀ message, d = Failure message →
       is_Some (Some {| level := 0; x := 0; y := 0 |}) →
       message ≠ EmptyString).
Proof.
  refine (proj1 (C8_one_delivery_once_the_read_settles
                   (env_rejecting EmptyString)
                   {| tile := Some {| level := 0; x := 0; y := 0 |} |}
                   (fresh_world no_options pyramid_3)) _).
  intros i channel rows cols. discriminate.
Defined.

(** C8 as stated fails: a request whose region read never settles issues
    the read and then calls neither callback. *)
Lemma C8_counterexample :
  let w := fresh_world no_options pyramid_3 in
  let w' := downloadTileStart env_hanging
              {| tile := Some {| level := 0; x := 0; y := 0 |} |} w in
  region_reads (log w') = [(0, Some 0, (0, 2), (0, 2))] ∧
  deliveries (log w') = [] ∧
  ¬ ∃ d : Delivery, deliveries (log w') = deliveries (log w) ++ [d].
Proof.
  cbn zeta. split; [reflexivity |]. split; [reflexivity |].
  intros [d Hd]. vm_compute in Hd. discriminate Hd.
Qed.

(** * The round trip of the coordinate helpers *)

Lemma Qnum_pos (q : Q) : (0 < q)%Q → (Qnum q =? 0) = false.
Proof.
  intros Hq. apply Z.eqb_neq, Qnum_nonzero. lra.
Qed.

(** One coordinate through [imageToCanvas] and back through
    [canvasToImage], on finite numbers. *)
Lemma round_trip_coordinate (C W cl cw tl tw x : Q) :
  (0 < C)%Q → (0 < W)%Q → (0 < cw)%Q → (0 < tw)%Q →
  ∃ r,
    num_mul
      (num_add
         (num_div
            (num_mul (num_sub (num_div (Fin x) (Fin C)) (Fin cl))
               (num_div (Fin W) (Fin cw)))
            (num_div (Fin W) (Fin tw)))
         (Fin tl))
      (Fin C) = Fin r ∧
    (r == ((x / C - cl) * (tw / cw) + tl) * C)%Q.
Proof.
  intros HC HW Hcw Htw.
  assert (Hs1 : (0 < W / cw)%Q) by (apply Qlt_shift_div_l; lra).
  assert (Hs2 : (0 < W / tw)%Q) by (apply Qlt_shift_div_l; lra).
  cbn [num_div num_sub num_mul num_add].
  rewrite (Qnum_pos C HC), (Qnum_pos cw Hcw), (Qnum_pos tw Htw).
  cbn [num_sub num_mul num_div]. rewrite (Qnum_pos _ Hs2).
  cbn [num_add num_mul].
  eexists. split; [reflexivity |].
  field. repeat split; lra.
Qed.

(** C9: [imageToCanvas] asks the viewport for the pixel of a point in the
    current view ([pixelFromPoint(vp, true)]), [canvasToImage] asks for the
    point of a pixel without the flag, that is in the target view.  For
    every viewport of positive sizes and every finite image point, the
    round trip [canvasToImage(imageToCanvas(x, y))] gives
    [((x / contentSize - current.x) * (target.width / current.width)
      + target.x) * contentSize], and the like for [y]: the point itself
    when the viewport is at rest, and another point while an animation
    runs.  At the first frame of a zoom to twice the size about the centre
    of an image of 1000 pixels, the round trip of [(x, y)] is
    [(x / 2 + 250, y / 2 + 250)]: the image point (100, 100) comes back as
    (300, 300). *)
Theorem C9_round_trip_is_off_while_the_viewport_animates :
  (∀ (s : ViewportState) (x y : Q),
     (0 < contentSize s)%Q → (0 < containerInnerSize s)%Q →
     (0 < bounds_width (currentBounds s))%Q →
     (0 < bounds_width (targetBounds s))%Q →
     ∃ rx ry,
       round_trip (viewport_of s) (Fin x) (Fin y)
         = {| Point.x := Fin rx; Point.y := Fin ry |} ∧
       (rx == ((x / contentSize s - bounds_x (currentBounds s))
               * (bounds_width (targetBounds s)
                  / bounds_width (currentBounds s))
               + bounds_x (targetBounds s)) * contentSize s)%Q ∧
       (ry == ((y / contentSize s - bounds_y (currentBounds s))
               * (bounds_width (targetBounds s)
                  / bounds_width (currentBounds s))
               + bounds_y (targetBounds s)) * contentSize s)%Q ∧
       (currentBounds s = targetBounds s → (rx == x)%Q ∧ (ry == y)%Q)) ∧
  (∀ x y : Q,
     same_point (round_trip (viewport_of zooming_in) (Fin x) (Fin y))
       {| Point.x := Fin (x / (2 # 1) + (250 # 1));
          Point.y := Fin (y / (2 # 1) + (250 # 1)) |}) ∧
  same_point
    (round_trip (viewport_of zooming_in) (Fin (100 # 1)) (Fin (100 # 1)))
    {| Point.x := Fin (300 # 1); Point.y := Fin (300 # 1) |} ∧
  ¬ same_point
      (round_trip (viewport_of zooming_in) (Fin (100 # 1)) (Fin (100 # 1)))
      {| Point.x := Fin (100 # 1); Point.y := Fin (100 # 1) |}.
Proof.
  assert (Hgen : ∀ (s : ViewportState) (x y : Q),
     (0 < contentSize s)%Q → (0 < containerInnerSize s)%Q →
     (0 < bounds_width (currentBounds s))%Q →
     (0 < bounds_width (targetBounds s))%Q →
     ∃ rx ry,
       round_trip (viewport_of s) (Fin x) (Fin y)
         = {| Point.x := Fin rx; Point.y := Fin ry |} ∧
       (rx == ((x / contentSize s - bounds_x (currentBounds s))
               * (bounds_width (targetBounds s)
                  / bounds_width (currentBounds s))
               + bounds_x (targetBounds s)) * contentSize s)%Q ∧
       (ry == ((y / contentSize s - bounds_y (currentBounds s))
               * (bounds_width (targetBounds s)
                  / bounds_width (currentBounds s))
               + bounds_y (targetBounds s)) * contentSize s)%Q).
  { intros s x y HC HW Hcw Htw.
    destruct (round_trip_coordinate (contentSize s) (containerInnerSize s)
                (bounds_x (currentBounds s)) (bounds_width (currentBounds s))
                (bounds_x (targetBounds s)) (bounds_width (targetBounds s))
                x HC HW Hcw Htw) as (rx & Hrx & Ex).
    destruct (round_trip_coordinate (contentSize s) (containerInnerSize s)
                (bounds_y (currentBounds s)) (bounds_width (currentBounds s))
                (bounds_y (targetBounds s)) (bounds_width (targetBounds s))
                y HC HW Hcw Htw) as (ry & Hry & Ey).
    exists rx, ry. split; [| by split].
    unfold round_trip, canvasToImage, imageToCanvas, viewport_of, getBounds.
    cbn [imageToViewportCoordinates pixelFromPoint pointFromPixel
         viewportToImageCoordinates Point.x Point.y].
    by rewrite Hrx, Hry. }
  split; [| split; [| split]].
  - intros s x y HC HW Hcw Htw.
    destruct (Hgen s x y HC HW Hcw Htw) as (rx & ry & Hrun & Ex & Ey).
    exists rx, ry. split; [done |]. split; [done |]. split; [done |].
    intros Hrest. rewrite Hrest in Ex, Ey. rewrite Ex, Ey.
    split; field; lra.
  - intros x y.
    destruct (Hgen zooming_in x y) as (rx & ry & Hrun & Ex & Ey);
      [reflexivity .. |].
    rewrite Hrun. split; cbn [same_number Point.x Point.y].
    + rewrite Ex. cbn. field.
    + rewrite Ey. cbn. field.
  - split; vm_compute; reflexivity.
  - intros [Hx _]. vm_compute in Hx. discriminate Hx.
Qed.

Lemma C9_witness :
  ∃ rx ry,
    round_trip (viewport_of zoomed_in) (Fin (100 # 1)) (Fin (100 # 1))
      = {| Point.x := Fin rx; Point.y := Fin ry |} ∧
    (rx == 100 # 1)%Q ∧ (ry == 100 # 1)%Q.
Proof.
  destruct (proj1 C9_round_trip_is_off_while_the_viewport_animates
              zoomed_in (100 # 1)%Q (100 # 1)%Q
              eq_refl eq_refl eq_refl eq_refl)
    as (rx & ry & Hrun & _ & _ & Hrest).
  exists rx, ry. split; [exact Hrun |]. exact (Hrest eq_refl).
Defined.
